(** * DRPObject: the object engine of ts-drp (packages/object/src/index.ts)

    A shallow embedding of the engine that owns the hash graph, the two
    per-vertex state caches and the finality store, together with the
    vertex hash ([computeHash]), vertex validation ([validateVertex]),
    local application ([callFn]) and the two merge paths.

    Conventions.
    - JavaScript strings are byte strings in their UTF-8 encoding, the
      encoding in which [crypto.createHash("sha256").update] hashes them.
    - JavaScript numbers are restricted to integers ([Z]); timestamps are
      milliseconds as returned by [Date.now()]. Where a number is printed,
      an integer stands for the Number (IEEE 754 double) nearest to it.
    - An exception is a value of type [Error]; code that throws returns
      [Err e], and state changes made before the throw persist. *)

From Stdlib Require Import ZArith List String Ascii Bool Lia.
From stdpp Require Import base option list strings pretty gmap.
Import ListNotations.

Set Warnings "-register-all,-notation-for-abbreviation".

Open Scope Z_scope.
Open Scope string_scope.
Open Scope list_scope.

(** ** SHA-256 (FIPS 180-4), as computed by [node:crypto] *)

Module SHA256.

Definition word := Z.

Definition mask32 : Z := 0xFFFFFFFF.

(** Addition of 32-bit words wraps around. *)
Definition add32 (a b : word) : word := Z.land (a + b) mask32.

Definition rotr (n : Z) (x : word) : word :=
  Z.land (Z.lor (Z.shiftr x n) (Z.shiftl x (32 - n))) mask32.

Definition shr (n : Z) (x : word) : word := Z.shiftr x n.

Definition Ch (x y z : word) : word :=
  Z.lxor (Z.land x y) (Z.land (Z.lxor x mask32) z).

Definition Maj (x y z : word) : word :=
  Z.lxor (Z.lxor (Z.land x y) (Z.land x z)) (Z.land y z).

Definition Sigma0 (x : word) : word :=
  Z.lxor (Z.lxor (rotr 2 x) (rotr 13 x)) (rotr 22 x).

Definition Sigma1 (x : word) : word :=
  Z.lxor (Z.lxor (rotr 6 x) (rotr 11 x)) (rotr 25 x).

Definition sigma0 (x : word) : word :=
  Z.lxor (Z.lxor (rotr 7 x) (rotr 18 x)) (shr 3 x).

Definition sigma1 (x : word) : word :=
  Z.lxor (Z.lxor (rotr 17 x) (rotr 19 x)) (shr 10 x).

(** The constants are defined as the standard defines them: the first 32
    bits of the fractional parts of the cube roots of the first 64 primes
    for [K], of the square roots of the first 8 primes for [H0]. *)
Definition is_prime (n : Z) : bool :=
  (1 <? n)%Z
  && forallb (fun d => negb (n mod d =? 0)%Z) (map Z.of_nat (seq 2 (Z.to_nat n - 2))).

Definition first_primes (count : nat) : list Z :=
  firstn count (List.filter is_prime (map Z.of_nat (seq 2 310))).

(** The largest [r] below [2 ^ bits] with [r ^ 3 <= n], bit by bit. *)
Fixpoint cube_root (bits : nat) (n r : Z) : Z :=
  match bits with
  | O => r
  | S b =>
      let r' := r + 2 ^ Z.of_nat b in
      cube_root b n (if (r' * r' * r' <=? n)%Z then r' else r)
  end.

Definition K : list word :=
  Eval vm_compute in
    map (fun p => Z.land (cube_root 40 (p * 2 ^ 96) 0) mask32) (first_primes 64).

Definition fractional_sqrt (p : Z) : word := Z.land (Z.sqrt (p * 2 ^ 64)) mask32.

(** The eight working variables / the intermediate hash value. *)
Record regs := Regs {
  ra : word; rb : word; rc : word; rd : word;
  re : word; rf : word; rg : word; rh : word }.

Definition H0 : regs :=
  Eval vm_compute in
    Regs (fractional_sqrt 2) (fractional_sqrt 3) (fractional_sqrt 5)
         (fractional_sqrt 7) (fractional_sqrt 11) (fractional_sqrt 13)
         (fractional_sqrt 17) (fractional_sqrt 19).

(** Padding: a 1 bit, zeros up to 56 mod 64, the bit length on 8 bytes. *)
Definition be_bytes (n : nat) (x : Z) : list Z :=
  map (fun i => Z.land (Z.shiftr x (8 * Z.of_nat i)) 0xFF) (rev (seq 0 n)).

Definition pad (msg : list Z) : list Z :=
  let len := Z.of_nat (length msg) in
  let zeros := Z.to_nat ((55 - len) mod 64) in
  msg ++ [0x80] ++ repeat 0 zeros ++ be_bytes 8 (8 * len).

Fixpoint words_of_bytes (bs : list Z) : list word :=
  match bs with
  | b0 :: b1 :: b2 :: b3 :: rest =>
      (Z.shiftl b0 24 + Z.shiftl b1 16 + Z.shiftl b2 8 + b3) :: words_of_bytes rest
  | _ => []
  end.

(** The message schedule, kept newest first: the head is W(t-1). *)
Fixpoint schedule (n : nat) (w : list word) : list word :=
  match n with
  | O => w
  | S n' =>
      let wt := add32 (add32 (sigma1 (nth 1 w 0)) (nth 6 w 0))
                      (add32 (sigma0 (nth 14 w 0)) (nth 15 w 0)) in
      schedule n' (wt :: w)
  end.

Definition round (r : regs) (kw : word * word) : regs :=
  let '(k, w) := kw in
  let t1 := add32 (add32 (add32 (rh r) (Sigma1 (re r))) (Ch (re r) (rf r) (rg r)))
                  (add32 k w) in
  let t2 := add32 (Sigma0 (ra r)) (Maj (ra r) (rb r) (rc r)) in
  Regs (add32 t1 t2) (ra r) (rb r) (rc r) (add32 (rd r) t1) (re r) (rf r) (rg r).

Definition compress (h : regs) (block : list Z) : regs :=
  let w := rev (schedule 48 (rev (words_of_bytes block))) in
  let r := fold_left round (combine K w) h in
  Regs (add32 (ra h) (ra r)) (add32 (rb h) (rb r)) (add32 (rc h) (rc r))
       (add32 (rd h) (rd r)) (add32 (re h) (re r)) (add32 (rf h) (rf r))
       (add32 (rg h) (rg r)) (add32 (rh h) (rh r)).

Fixpoint blocks (n : nat) (bs : list Z) (h : regs) : regs :=
  match n with
  | O => h
  | S n' => blocks n' (skipn 64 bs) (compress h (firstn 64 bs))
  end.

Definition digest_words (msg : list Z) : list word :=
  let p := pad msg in
  let r := blocks (length p / 64)%nat p H0 in
  [ra r; rb r; rc r; rd r; re r; rf r; rg r; rh r].

(** [digest("hex")]: two lowercase hexadecimal digits per byte. *)
Definition hex_digit (n : Z) : ascii :=
  match n with
  | 0 => "0" | 1 => "1" | 2 => "2" | 3 => "3" | 4 => "4" | 5 => "5"
  | 6 => "6" | 7 => "7" | 8 => "8" | 9 => "9" | 10 => "a" | 11 => "b"
  | 12 => "c" | 13 => "d" | 14 => "e" | _ => "f"
  end%char.

Definition hex_of_byte (b : Z) : list ascii :=
  [hex_digit (Z.land (Z.shiftr b 4) 0xF); hex_digit (Z.land b 0xF)].

Definition hex_of_word (w : word) : list ascii :=
  concat (map hex_of_byte (be_bytes 4 w)).

Definition bytes_of_string (s : string) : list Z :=
  map (fun c => Z.of_N (N_of_ascii c)) (list_ascii_of_string s).

Definition sha256_hex (s : string) : string :=
  string_of_list_ascii (concat (map hex_of_word (digest_words (bytes_of_string s)))).

End SHA256.

(** ** JavaScript values

    The values a DRP holds in its attributes and receives as arguments.
    An object lists its own enumerable properties in property order;
    a function value is identified by a name. [cloneDeep] of such a value
    is the value itself: the embedding has no aliasing between a clone and
    its source, which is what [cloneDeep] guarantees. *)

Inductive Value :=
| VUndefined
| VNull
| VBool (b : bool)
| VNum (n : Z)
| VStr (s : string)
| VArr (items : list Value)
| VObj (fields : list (string * Value))
| VFun (name : string).

Definition cloneDeep (v : Value) : Value := v.

Definition is_function (v : Value) : bool :=
  match v with VFun _ => true | _ => false end.

Fixpoint getOwn (fields : list (string * Value)) (key : string) : option Value :=
  match fields with
  | [] => None
  | (k, v) :: rest => if String.eqb k key then Some v else getOwn rest key
  end.

(** [obj[key]] on own properties; a missing property reads [undefined]. *)
Definition getProp (obj : Value) (key : string) : Value :=
  match obj with
  | VObj fields => default VUndefined (getOwn fields key)
  | _ => VUndefined
  end.

Fixpoint setOwn (fields : list (string * Value)) (key : string) (v : Value)
  : list (string * Value) :=
  match fields with
  | [] => [(key, v)]
  | (k, x) :: rest =>
      if String.eqb k key then (k, v) :: rest else (k, x) :: setOwn rest key v
  end.

(** [obj[key] = v]: overwrite in place, or append a new property. *)
Definition setProp (obj : Value) (key : string) (v : Value) : Value :=
  match obj with
  | VObj fields => VObj (setOwn fields key v)
  | other => other
  end.

(** [Object.keys(obj)]. *)
Definition keys (obj : Value) : list string :=
  match obj with
  | VObj fields => map fst fields
  | _ => []
  end.

Definition truthy (v : Value) : bool :=
  match v with
  | VUndefined | VNull => false
  | VBool b => b
  | VNum n => negb (n =? 0)%Z
  | VStr s => negb (String.eqb s "")
  | _ => true
  end.

(** [deepEqual] of fast-equals: arrays are compared element by element,
    objects by key count and then key by key, whatever the order. *)
Fixpoint deepEqual (a b : Value) : bool :=
  match a, b with
  | VUndefined, VUndefined => true
  | VNull, VNull => true
  | VBool x, VBool y => Bool.eqb x y
  | VNum x, VNum y => (x =? y)%Z
  | VStr x, VStr y => String.eqb x y
  | VFun f, VFun g => String.eqb f g
  | VArr xs, VArr ys =>
      (fix go (xs ys : list Value) : bool :=
         match xs, ys with
         | [], [] => true
         | x :: xs', y :: ys' => deepEqual x y && go xs' ys'
         | _, _ => false
         end) xs ys
  | VObj fs, VObj gs =>
      (length fs =? length gs)%nat &&
      (fix go (fs : list (string * Value)) : bool :=
         match fs with
         | [] => true
         | (k, x) :: fs' =>
             match getOwn gs k with
             | Some y => deepEqual x y && go fs'
             | None => false
             end
         end) fs
  | _, _ => false
  end.

(** [value ?? undefined]: [null] and [undefined] both give [undefined]. *)
Definition nullish (v : Value) : Value :=
  match v with
  | VNull => VUndefined
  | _ => v
  end.

(** ** Number::toString

    How JavaScript prints a Number that holds an integer: the shortest
    decimal digits that read back as the same double (the closest to it
    when several do), followed by zeros up to 21 digits, in exponent form
    beyond. Integers up to 2^53 print with all their digits. *)

Module Number.

(** The double nearest to [n], ties to the even mantissa of 53 bits. *)
Definition toDouble (n : Z) : Z :=
  let a := Z.abs n in
  let e := Z.log2 a + 1 - 53 in
  if (e <=? 0)%Z then n
  else
    let q := Z.shiftr a e in
    let r := a - Z.shiftl q e in
    let half := Z.shiftl 1 (e - 1) in
    let q' := if (r <? half)%Z || ((r =? half)%Z && Z.even q) then q else q + 1 in
    Z.sgn n * Z.shiftl q' e.

(** Beyond the largest double the nearest Number is [Infinity]. *)
Definition isFinite (n : Z) : bool := (Z.abs (toDouble n) <? 2 ^ 1024)%Z.

Definition digits (a : Z) : Z := Z.of_nat (String.length (pretty a)).

(** The integer with the fewest significant digits that reads back as the
    double [d] of [N] digits: for k = 1, 2, ... the two multiples of
    10^(N-k) around [d] are tried, the closer one winning when both read
    back as [d], the even one on a tie. Seventeen digits always suffice. *)
Fixpoint shortest (fuel : nat) (d N k : Z) : Z :=
  match fuel with
  | O => d
  | S fuel' =>
      let p := 10 ^ (N - k) in
      let lo := (d / p) * p in
      let hi := lo + p in
      let okLo := (toDouble lo =? d)%Z in
      let okHi := (toDouble hi =? d)%Z in
      if okLo && okHi then
        if (d - lo <? hi - d)%Z || ((d - lo =? hi - d)%Z && Z.even (lo / p))
        then lo else hi
      else if okLo then lo
      else if okHi then hi
      else shortest fuel' d N (k + 1)
  end.

Fixpoint strip (reversed : list ascii) : list ascii :=
  match reversed with
  | "0"%char :: rest => strip rest
  | _ => reversed
  end.

(** d.ddde+n, from the digits of an integer of n + 1 digits. *)
Definition exponential (text : string) : string :=
  match rev (strip (rev (list_ascii_of_string text))) with
  | [] => text
  | first :: rest =>
      String first (match rest with
                    | [] => ""
                    | _ => "." +:+ string_of_list_ascii rest
                    end)
      +:+ "e+" +:+ pretty (Z.of_nat (String.length text) - 1)
  end.

Definition toString (n : Z) : string :=
  let d := Z.abs (toDouble n) in
  let sign := if (n <? 0)%Z then "-" else "" in
  if negb (isFinite n) then sign +:+ "Infinity"
  else if (d <=? 2 ^ 53)%Z then pretty (toDouble n)
  else
    let text := pretty (shortest 17 d (digits d) 1) in
    sign +:+ (if (String.length text <=? 21)%nat then text else exponential text).

End Number.

(** ** JSON.stringify *)

Module JSON.

Definition hex4 (n : Z) : string :=
  string_of_list_ascii
    [SHA256.hex_digit (Z.land (Z.shiftr n 12) 0xF);
     SHA256.hex_digit (Z.land (Z.shiftr n 8) 0xF);
     SHA256.hex_digit (Z.land (Z.shiftr n 4) 0xF);
     SHA256.hex_digit (Z.land n 0xF)].

(** QuoteJSONString on one byte: the two-character escapes, [\u00XX] for
    the other control characters, the byte itself otherwise. *)
Definition escape_char (c : ascii) : string :=
  let n := Z.of_N (N_of_ascii c) in
  if (n =? 8)%Z then "\b"
  else if (n =? 9)%Z then "\t"
  else if (n =? 10)%Z then "\n"
  else if (n =? 12)%Z then "\f"
  else if (n =? 13)%Z then "\r"
  else if (n =? 34)%Z then String "\" (String c EmptyString)
  else if (n =? 92)%Z then "\\"
  else if (n <? 32)%Z then "\u" +:+ hex4 n
  else String c EmptyString.

Fixpoint escape (s : string) : string :=
  match s with
  | EmptyString => EmptyString
  | String c rest => escape_char c +:+ escape rest
  end.

Definition dquote : string := String (ascii_of_nat 34) EmptyString.

Definition quote (s : string) : string := dquote +:+ escape s +:+ dquote.

(** A finite number prints as [Number::toString] prints it, an infinite
    one as [null]. *)
Definition number (n : Z) : string :=
  if Number.isFinite n then Number.toString n else "null".

(** [JSON.stringify(v)] without indentation. [None] is JavaScript's
    [undefined]: such a property is left out of an object and printed as
    [null] in an array. *)
Fixpoint stringify (v : Value) : option string :=
  match v with
  | VUndefined | VFun _ => None
  | VNull => Some "null"
  | VBool true => Some "true"
  | VBool false => Some "false"
  | VNum n => Some (number n)
  | VStr s => Some (quote s)
  | VArr items =>
      Some ("[" +:+ String.concat ","
                     (map (fun x => default "null" (stringify x)) items) +:+ "]")
  | VObj fields =>
      Some ("{" +:+ String.concat ","
                     (omap (fun kv => (fun s => quote (fst kv) +:+ ":" +:+ s)
                                        <$> stringify (snd kv)) fields) +:+ "}")
  end.

End JSON.

(** ** Operations and vertices (types of hashgraph/index.ts) *)

Definition Hash := string.

(** Modelled from the spec: the declaration of [DrpType] (interface.ts) is
    not part of the sources at hand; the data model gives the two tags,
    drpType ∈ {DRP, ACL}. *)
Module DrpType.
Definition ACL : string := "ACL".
Definition DRP : string := "DRP".
End DrpType.

Inductive OperationKey := KeyDrpType | KeyOpType | KeyValue.

(** The orders in which an operation object can hold its three keys. *)
Inductive KeyOrder :=
| DrpType_OpType_Value
| DrpType_Value_OpType
| OpType_DrpType_Value
| OpType_Value_DrpType
| Value_DrpType_OpType
| Value_OpType_DrpType.

Definition keysIn (order : KeyOrder) : list OperationKey :=
  match order with
  | DrpType_OpType_Value => [KeyDrpType; KeyOpType; KeyValue]
  | DrpType_Value_OpType => [KeyDrpType; KeyValue; KeyOpType]
  | OpType_DrpType_Value => [KeyOpType; KeyDrpType; KeyValue]
  | OpType_Value_DrpType => [KeyOpType; KeyValue; KeyDrpType]
  | Value_DrpType_OpType => [KeyValue; KeyDrpType; KeyOpType]
  | Value_OpType_DrpType => [KeyValue; KeyOpType; KeyDrpType]
  end.

(** A vertex received from a peer carries whatever tag was put on the wire:
    [drpType] is a string and is compared with the two tags of [DrpType].
    The operation is a JavaScript object: it keeps the order in which its
    keys were created ([keyOrder]), which is the order [JSON.stringify]
    follows. *)
Record Operation := operationObject {
  drpType : string;
  opType : string;
  value : Value;
  keyOrder : KeyOrder }.

(** The object literal { drpType, opType, value } of [callFn]. *)
Notation mkOperation d o v := (operationObject d o v DrpType_OpType_Value).

Record Vertex := mkVertex {
  v_hash : Hash;
  v_peerId : string;
  v_operation : option Operation;
  v_dependencies : list Hash;
  v_timestamp : Z;
  v_signature : list Z }.

Definition operationField (op : Operation) (key : OperationKey) : string * Value :=
  match key with
  | KeyDrpType => ("drpType", VStr (drpType op))
  | KeyOpType => ("opType", VStr (opType op))
  | KeyValue => ("value", value op)
  end.

(** The operation as the JavaScript object that [JSON.stringify] sees:
    its three properties in the object's own key order. *)
Definition operationValue (op : Operation) : Value :=
  VObj (map (operationField op) (keysIn (keyOrder op))).

(** [computeHash]: the object literal { operation, deps, peerId, timestamp }
    is serialised by [JSON.stringify] and digested. The literal is an
    object, so [stringify] always yields a string. *)
Definition computeHash (peerId : string) (operation : option Operation)
    (deps : list Hash) (timestamp : Z) : Hash :=
  let serialized :=
    JSON.stringify
      (VObj [("operation", from_option operationValue VUndefined operation);
             ("deps", VArr (map VStr deps));
             ("peerId", VStr peerId);
             ("timestamp", VNum timestamp)]) in
  SHA256.sha256_hex (default "" serialized).

(** [newVertex]. *)
Definition newVertex (peerId : string) (operation : Operation)
    (dependencies : list Hash) (timestamp : Z) (signature : list Z) : Vertex :=
  let hash := computeHash peerId (Some operation) dependencies timestamp in
  mkVertex hash peerId (Some operation) dependencies timestamp signature.

(** ** The canonical encoding the specification describes

    Follows the specification's words, not the code: a sorted-key
    serialisation, every object printing its properties in ascending key
    order, with no insignificant whitespace. *)
Module Canonical.

Fixpoint insert_by_key (kv : string * string) (l : list (string * string))
  : list (string * string) :=
  match l with
  | [] => [kv]
  | x :: rest =>
      if String.leb (fst kv) (fst x) then kv :: l
      else x :: insert_by_key kv rest
  end.

Definition sort_by_key (l : list (string * string)) : list (string * string) :=
  fold_right insert_by_key [] l.

Fixpoint serialize (v : Value) : option string :=
  match v with
  | VUndefined | VFun _ => None
  | VNull => Some "null"
  | VBool true => Some "true"
  | VBool false => Some "false"
  | VNum n => Some (JSON.number n)
  | VStr s => Some (JSON.quote s)
  | VArr items =>
      Some ("[" +:+ String.concat ","
                     (map (fun x => default "null" (serialize x)) items) +:+ "]")
  | VObj fields =>
      let printed :=
        omap (fun kv => (fun s => (fst kv, s)) <$> serialize (snd kv)) fields in
      Some ("{" +:+ String.concat ","
                     (map (fun ks => JSON.quote (fst ks) +:+ ":" +:+ snd ks)
                          (sort_by_key printed)) +:+ "}")
  end.

(** The record whose canonical form the specification names as the hash
    preimage. *)
Definition record (peerId : string) (operation : option Operation)
    (deps : list Hash) (timestamp : Z) : Value :=
  VObj [("operation", from_option operationValue VUndefined operation);
        ("deps", VArr (map VStr deps));
        ("peerId", VStr peerId);
        ("timestamp", VNum timestamp)].

Definition hash (peerId : string) (operation : option Operation)
    (deps : list Hash) (timestamp : Z) : Hash :=
  SHA256.sha256_hex (default "" (serialize (record peerId operation deps timestamp))).

End Canonical.

(** The text [computeHash] digests, written out: the properties in the
    order of the object literal (operation, deps, peerId, timestamp), the
    operation with its keys in the order the operation object holds them.
    A property whose value is [undefined] is left out: the whole operation
    when the vertex has none, its [value] when the arguments are
    [undefined]. The timestamp is printed as JavaScript prints a number. *)
Definition key_text (op : Operation) (key : OperationKey) : option string :=
  match key with
  | KeyDrpType => Some (JSON.quote "drpType" +:+ ":" +:+ JSON.quote (drpType op))
  | KeyOpType => Some (JSON.quote "opType" +:+ ":" +:+ JSON.quote (opType op))
  | KeyValue =>
      (fun s => JSON.quote "value" +:+ ":" +:+ s) <$> JSON.stringify (value op)
  end.

Definition operation_text (op : Operation) : string :=
  "{" +:+ String.concat "," (omap (key_text op) (keysIn (keyOrder op))) +:+ "}".

Definition hash_preimage (peerId : string) (operation : option Operation)
    (deps : list Hash) (timestamp : Z) : string :=
  "{" +:+ match operation with
          | Some op => JSON.quote "operation" +:+ ":" +:+ operation_text op +:+ ","
          | None => ""
          end
      +:+ JSON.quote "deps" +:+ ":"
      +:+ "[" +:+ String.concat "," (map JSON.quote deps) +:+ "]" +:+ ","
      +:+ JSON.quote "peerId" +:+ ":" +:+ JSON.quote peerId +:+ ","
      +:+ JSON.quote "timestamp" +:+ ":" +:+ JSON.number timestamp
      +:+ "}".

Definition is_lower_hex (c : ascii) : bool :=
  existsb (Ascii.eqb c) (list_ascii_of_string "0123456789abcdef").


(** ** Errors and results *)

(** One constructor per [throw] of index.ts, one for what a DRP method
    throws, one for the [TypeError]s of the language and one for the
    failures of the hash graph. *)
Inductive Error :=
| ConstructionError
| InvalidHash (h : Hash)
| NoDependencies (h : Hash)
| InvalidDependency (h dep : Hash)
| InvalidTimestamp (h : Hash)
| NoWritePermission (peer : string)
| DRPUndefined
| DRPOrHashgraphUndefined
| StateUndefined
| InvalidOperationType (op : string)
| NotAFunction (op : string)
| ApplyingOperation (op : string) (cause : Error)
| Thrown (v : Value)
| TypeError (msg : string)
| GraphError (msg : string).

Inductive Result (A : Type) :=
| Ok (a : A)
| Err (e : Error).
Arguments Ok {A} a.
Arguments Err {A} e.

Definition isErr {A} (r : Result A) : bool :=
  match r with Ok _ => false | Err _ => true end.

Definition rbind {A B} (r : Result A) (k : A -> Result B) : Result B :=
  match r with
  | Ok a => k a
  | Err e => Err e
  end.

Notation "'let?' x ':=' r 'in' k" := (rbind r (fun x => k))
  (at level 10, x pattern, r at level 100, k at level 200).

(** A method of a DRP: from the receiver and the arguments to what it
    throws, or to what it returns together with the receiver as the call
    leaves it. A method is taken to leave its arguments as they are. *)
Definition Method : Type := Value -> list Value -> Result (Value * Value).

(** ** The hash graph *)

(** Modelled from the spec: the class [HashGraph] (hashgraph/index.ts) is
    not part of the sources at hand. The graph keeps the vertices by hash
    (a JavaScript [Map], which iterates in insertion order), the forward
    edges and the frontier; [addVertex] "inserts v, adds edges dep→v,
    removes every dep from the frontier, adds v to the frontier" and
    "fails if any dep is unknown or v already present"; [getFrontier]
    returns the frontier "sorted by hash". The lowest common ancestor and
    the linearisation are parameters of the development (see
    [Platform]). *)
Module HashGraph.

Record t := mk {
  vertices : list (Hash * Vertex);
  forwardEdges : list (Hash * list Hash);
  frontier : list Hash }.

(** [vertices.get(h)]. *)
Fixpoint get (vs : list (Hash * Vertex)) (h : Hash) : option Vertex :=
  match vs with
  | [] => None
  | (k, v) :: rest => if String.eqb k h then Some v else get rest h
  end.

(** [vertices.has(h)]. *)
Definition has (g : t) (h : Hash) : bool :=
  match get (vertices g) h with Some _ => true | None => false end.

(** [vertices.set(h, v)]: a known key keeps its place. *)
Fixpoint set (vs : list (Hash * Vertex)) (h : Hash) (v : Vertex)
  : list (Hash * Vertex) :=
  match vs with
  | [] => [(h, v)]
  | (k, x) :: rest =>
      if String.eqb k h then (k, v) :: rest else (k, x) :: set rest h v
  end.

Fixpoint addEdge (es : list (Hash * list Hash)) (dep h : Hash)
  : list (Hash * list Hash) :=
  match es with
  | [] => [(dep, [h])]
  | (k, out) :: rest =>
      if String.eqb k dep then (k, out ++ [h]) :: rest
      else (k, out) :: addEdge rest dep h
  end.

Definition elem (h : Hash) (l : list Hash) : bool := existsb (String.eqb h) l.

(** Insert [v], link it below its dependencies and move the frontier. *)
Definition link (g : t) (v : Vertex) : t :=
  mk (set (vertices g) (v_hash v) v)
     (fold_left (fun es dep => addEdge es dep (v_hash v)) (v_dependencies v)
                (forwardEdges g))
     (List.filter (fun h => negb (elem h (v_dependencies v))) (frontier g)
      ++ [v_hash v]).

(** Modelled from the spec: [addVertex] "fails if any dep is unknown or v
    already present". *)
Definition addVertex (g : t) (v : Vertex) : Result t :=
  if has g (v_hash v) then Err (GraphError "vertex already present")
  else if forallb (has g) (v_dependencies v) then Ok (link g v)
  else Err (GraphError "unknown dependency").

(** Modelled from the spec: [addToFrontier] is the insertion of the local
    path, whose new vertex is "appended to the frontier"; no failure is
    described for it. *)
Definition addToFrontier (g : t) (v : Vertex) : t := link g v.

Fixpoint insert_sorted (h : Hash) (l : list Hash) : list Hash :=
  match l with
  | [] => [h]
  | x :: rest => if String.leb h x then h :: l else x :: insert_sorted h rest
  end.

(** Modelled from the spec: [getFrontier] "returns the current frontier as
    an ordered sequence (sorted by hash for determinism)". *)
Definition getFrontier (g : t) : list Hash :=
  fold_right insert_sorted [] (frontier g).

Definition getAllVertices (g : t) : list Vertex := map snd (vertices g).

(** [new HashGraph(...)]: the root alone, which is also the frontier. *)
Definition create (root : Vertex) : t :=
  mk [(v_hash root, root)] [] [v_hash root].

End HashGraph.

(** ** States, finality, notifications *)

(** [DRPState]: the array of [DRPStateEntry] { key, value }. *)
Definition DRPState : Type := list (string * Value).

(** Modelled from the spec: the class [FinalityStore] (finality/index.ts)
    is not part of the sources at hand. The store keeps, per vertex hash,
    the signer set read from the ACL and the attestations collected so
    far; [initializeState] creates the entry with an empty attestation
    set, and an entry is "mutated only by attestation", so one that exists
    is kept. *)
Module FinalityStore.

Record FinalityState := mkState {
  signers : Value;
  attestations : list string }.

Definition t : Type := gmap string FinalityState.

Definition initializeState (store : t) (h : Hash) (sgn : Value) : t :=
  match store !! h with
  | Some _ => store
  | None => <[h := mkState sgn []]> store
  end.

End FinalityStore.

(** The options of [new ObjectACL(...)] as the constructor writes them. *)
Record ACLOptions := mkACLOptions {
  admins : list (string * Value);
  permissionless : bool }.

(** What the engine takes from its collaborators: the methods of the DRP
    and ACL classes, the two queries of the ACL, the constructor of
    [ObjectACL], the root vertex and the causal algorithms of the hash
    graph, and the wall clock. None of them is defined in index.ts. *)
Class Platform := {
  (** what [target[name]] finds beyond the own properties of an object
      and the items and length of an array: a method on the prototype
      chain of an object or of an array, and whatever the language gives
      to a string, a number, a boolean or a function (a character, the
      length, the name, a method) *)
  inherited : Value -> string -> option Value;
  (** the classes put the attributes on the instance (class fields): what
      an object inherits is a method (the accessor [__proto__] of
      [Object.prototype] is not modelled) *)
  inherited_method :
    forall fields name v,
      inherited (VObj fields) name = Some v -> is_function v = true;
  (** the body of a function value *)
  fun_impl : string -> Method;
  query_isWriter : Value -> string -> bool;
  query_getFinalitySigners : Value -> Value;
  newObjectACL : ACLOptions -> Value;
  rootHash : Hash;
  rootOperation : Operation;
  rootTimestamp : Z;
  (** the lowest common ancestor of several heads, with the subgraph the
      traversal fills in *)
  lowestCommonAncestorMultipleVertices :
    HashGraph.t -> list Hash -> Result (Hash * list Hash);
  linearizeOperations :
    HashGraph.t -> Hash -> list Hash -> Result (list Operation);
  (** [Date.now()] at its k-th call *)
  Date_now : nat -> Z }.

(** A subscriber is known by a number; what it was called with is kept in
    the order of the calls. A callback is taken to return: it neither
    throws nor calls back into the object. *)
Record Notification := mkNotification {
  subscriber : nat;
  origin : string;
  notified : list Vertex }.

Module DRPObject.

(** The fields of the class. [hashGraph], [acl] and [originalObjectACL]
    are set by every path of the constructor and never unset, so the
    guards on them cannot fire and they are not options here. *)
Record t := mk {
  objectId : string;
  peerId : string;
  vertices : list Vertex;
  acl : Value;
  drp : option Value;
  hashGraph : HashGraph.t;
  drpStates : gmap string DRPState;
  aclStates : gmap string DRPState;
  originalDRP : option Value;
  originalObjectACL : Value;
  finalityStore : FinalityStore.t;
  subscriptions : list nat }.

(** The object together with what lies outside it: how many times the
    clock was read, what the subscribers received, what was logged. *)
Record World := mkWorld {
  this : t;
  ticks : nat;
  delivered : list Notification;
  logged : list Error }.

(** Computations that read and write the world and may throw; what was
    written before a throw stays written. *)
Definition M (A : Type) : Type := World -> Result A * World.

Definition ret {A} (a : A) : M A := fun w => (Ok a, w).

Definition throw {A} (e : Error) : M A := fun w => (Err e, w).

Definition bind {A B} (m : M A) (k : A -> M B) : M B :=
  fun w =>
    match m w with
    | (Ok a, w') => k a w'
    | (Err e, w') => (Err e, w')
    end.

(** [try { body } catch (e) { handler(e) }]. *)
Definition try_catch {A} (body : M A) (handler : Error -> M A) : M A :=
  fun w =>
    match body w with
    | (Ok a, w') => (Ok a, w')
    | (Err e, w') => handler e w'
    end.

Definition lift {A} (r : Result A) : M A := fun w => (r, w).

Definition gets {A} (f : t -> A) : M A := fun w => (Ok (f (this w)), w).

Definition modify (f : t -> t) : M unit :=
  fun w => (Ok tt, mkWorld (f (this w)) (ticks w) (delivered w) (logged w)).

Notation "'let!' x ':=' m 'in' k" := (bind m (fun x => k))
  (at level 10, x pattern, m at level 100, k at level 200).
Notation "m ';;' k" := (bind m (fun _ => k))
  (at level 100, k at level 200, right associativity).

Definition set_vertices (l : list Vertex) (o : t) : t :=
  mk (objectId o) (peerId o) l (acl o) (drp o) (hashGraph o) (drpStates o)
     (aclStates o) (originalDRP o) (originalObjectACL o) (finalityStore o)
     (subscriptions o).

Definition set_acl (a : Value) (o : t) : t :=
  mk (objectId o) (peerId o) (vertices o) a (drp o) (hashGraph o) (drpStates o)
     (aclStates o) (originalDRP o) (originalObjectACL o) (finalityStore o)
     (subscriptions o).

Definition set_drp (d : option Value) (o : t) : t :=
  mk (objectId o) (peerId o) (vertices o) (acl o) d (hashGraph o) (drpStates o)
     (aclStates o) (originalDRP o) (originalObjectACL o) (finalityStore o)
     (subscriptions o).

Definition set_hashGraph (g : HashGraph.t) (o : t) : t :=
  mk (objectId o) (peerId o) (vertices o) (acl o) (drp o) g (drpStates o)
     (aclStates o) (originalDRP o) (originalObjectACL o) (finalityStore o)
     (subscriptions o).

Definition set_drpStates (m : gmap string DRPState) (o : t) : t :=
  mk (objectId o) (peerId o) (vertices o) (acl o) (drp o) (hashGraph o) m
     (aclStates o) (originalDRP o) (originalObjectACL o) (finalityStore o)
     (subscriptions o).

Definition set_aclStates (m : gmap string DRPState) (o : t) : t :=
  mk (objectId o) (peerId o) (vertices o) (acl o) (drp o) (hashGraph o)
     (drpStates o) m (originalDRP o) (originalObjectACL o) (finalityStore o)
     (subscriptions o).

Definition set_finalityStore (f : FinalityStore.t) (o : t) : t :=
  mk (objectId o) (peerId o) (vertices o) (acl o) (drp o) (hashGraph o)
     (drpStates o) (aclStates o) (originalDRP o) (originalObjectACL o) f
     (subscriptions o).

Definition set_subscriptions (s : list nat) (o : t) : t :=
  mk (objectId o) (peerId o) (vertices o) (acl o) (drp o) (hashGraph o)
     (drpStates o) (aclStates o) (originalDRP o) (originalObjectACL o)
     (finalityStore o) s.

(** [Date.now()]. *)
Definition now `{Platform} : M Z :=
  fun w => (Ok (Date_now (ticks w)),
            mkWorld (this w) (S (ticks w)) (delivered w) (logged w)).

(** [log.error(...)]. *)
Definition log_error (e : Error) : M unit :=
  fun w => (Ok tt, mkWorld (this w) (ticks w) (delivered w) (logged w ++ [e])).

(** [subscribe]. *)
Definition subscribe (callback : nat) : M unit :=
  modify (fun o => set_subscriptions (subscriptions o ++ [callback]) o).

(** [_notify]: every subscriber is called, in the order of subscription. *)
Definition _notify (origin : string) (vs : list Vertex) : M unit :=
  fun w =>
    (Ok tt,
     mkWorld (this w) (ticks w)
       (delivered w
        ++ map (fun cb => mkNotification cb origin vs) (subscriptions (this w)))
       (logged w)).

Section Engine.
Context `{Platform}.

(** *** Applying an operation *)

(** [opType.split(".")]. *)
Fixpoint split_dots (s : string) : list string :=
  match s with
  | EmptyString => [EmptyString]
  | String c rest =>
      if Ascii.eqb c "." then EmptyString :: split_dots rest
      else match split_dots rest with
           | part :: parts => String c part :: parts
           | [] => [String c EmptyString]
           end
  end.

(** The index a property name denotes in an array of [n] items: the name
    is the decimal form of the index. *)
Definition indexOf (name : string) (n : nat) : option nat :=
  List.find (fun i => String.eqb (pretty (Z.of_nat i)) name) (seq 0 n).

(** The own property [name] of an object or of an array: a property of
    the object, an item or the length of the array. What the language
    gives to a string, a number, a boolean or a function is left to
    [inherited]. *)
Definition ownProp (target : Value) (name : string) : option Value :=
  match target with
  | VObj fields => getOwn fields name
  | VArr items =>
      if String.eqb name "length" then Some (VNum (Z.of_nat (length items)))
      else i ← indexOf name (length items); items !! i
  | _ => None
  end.

(** [target[name]]: the own property, or else what the prototype chain
    or the language gives, or else [undefined]. *)
Definition readProp (target : Value) (name : string) : Value :=
  match ownProp target name with
  | Some v => v
  | None => default VUndefined (inherited target name)
  end.

(** [typeof target[name] === "function"], with the function found. *)
Definition lookupMethod (target : Value) (name : string) : option Method :=
  match readProp target name with
  | VFun f => Some (fun_impl f)
  | _ => None
  end.

(** [key in obj], for the objects the engine asks it of: the live DRP and
    the live ACL. *)
Definition inObject (obj : Value) (key : string) : bool :=
  match obj with
  | VObj fields =>
      match getOwn fields key with
      | Some _ => true
      | None => bool_decide (is_Some (inherited obj key))
      end
  | _ => false
  end.

(** A method changes its receiver in place. Where the receiver was read
    from a property of an object or from an item of an array, and is
    itself an object or an array, the holder sees it as the call leaves
    it; a number, a string or a boolean cannot change, and what is
    inherited is not part of the holder. *)
Definition putBack (target : Value) (part : string) (next next' : Value) : Value :=
  match next with
  | VObj _ | VArr _ =>
      match target with
      | VObj fields =>
          match getOwn fields part with
          | Some _ => VObj (setOwn fields part next')
          | None => target
          end
      | VArr items =>
          match indexOf part (length items) with
          | Some i => VArr (<[i := next']> items)
          | None => target
          end
      | _ => target
      end
  | _ => target
  end.

(** The arguments [...value] of the call: only an iterable spreads (a
    string into its characters, one per byte here). *)
Definition spread (v : Value) : Result (list Value) :=
  match v with
  | VArr items => Ok items
  | VStr s => Ok (map (fun c => VStr (String c EmptyString)) (list_ascii_of_string s))
  | _ => Err (TypeError "value is not iterable")
  end.

(** The walk of [_applyOperation] along the dotted path: each name but
    the last is read with [target[name]] and must give a truthy value, the
    last must give a function, which is called on the value reached. The
    method changes its receiver in place: the receiver as the call leaves
    it is put back where it was read. *)
Fixpoint applyPath (opType : string) (target : Value) (typeParts : list string)
    (value : Value) : Result (Value * Value) :=
  match typeParts with
  | [] => Err (NotAFunction opType)
  | [methodName] =>
      match lookupMethod target methodName with
      | None => Err (NotAFunction opType)
      | Some method =>
          match (let? args := spread value in method target args) with
          | Ok out => Ok out
          | Err e => Err (ApplyingOperation opType e)
          end
      end
  | part :: rest =>
      let next := readProp target part in
      if truthy next then
        let? (result, next') := applyPath opType next rest value in
        Ok (result, putBack target part next next')
      else Err (InvalidOperationType opType)
  end.

(** [_applyOperation]: what the call returns and the DRP after it. *)
Definition _applyOperation (drp : Value) (operation : Operation)
  : Result (Value * Value) :=
  applyPath (opType operation) drp (split_dots (opType operation)) (value operation).

(** *** State reconstruction *)

Definition LcaAndOperations : Type := Hash * list Operation.

Definition computeLCA (g : HashGraph.t) (vertexDependencies : list Hash)
  : Result LcaAndOperations :=
  match vertexDependencies with
  | [dep] => Ok (dep, [])
  | _ =>
      let? (lca, subgraph) :=
        lowestCommonAncestorMultipleVertices g vertexDependencies in
      let? linearizedOperations := linearizeOperations g lca subgraph in
      Ok (lca, linearizedOperations)
  end.

(** [for (const entry of state.state) obj[entry.key] = entry.value]. *)
Definition assignState (obj : Value) (state : DRPState) : Value :=
  fold_left (fun o entry => setProp o (fst entry) (snd entry)) state obj.

(** The replay loop of [_computeDRP] and [_computeObjectACL]: the
    operations of the given kind, in order. *)
Fixpoint replay (kind : string) (obj : Value) (ops : list Operation)
  : Result Value :=
  match ops with
  | [] => Ok obj
  | op :: rest =>
      if String.eqb (drpType op) kind then
        let? (_, obj') := _applyOperation obj op in replay kind obj' rest
      else replay kind obj rest
  end.

Definition _computeDRP (o : t) (vertexDependencies : list Hash)
    (preCompute : option LcaAndOperations) (vertexOperation : option Operation)
  : Result Value :=
  match drp o, originalDRP o with
  | Some _, Some original =>
      let? (lca, linearizedOperations) :=
        match preCompute with
        | Some pre => Ok pre
        | None => computeLCA (hashGraph o) vertexDependencies
        end in
      let drp := cloneDeep original in
      match drpStates o !! lca with
      | None => Err StateUndefined
      | Some fetchedState =>
          let state := map (fun e => (fst e, cloneDeep (snd e))) fetchedState in
          let drp := assignState drp state in
          let? drp := replay DrpType.DRP drp linearizedOperations in
          match vertexOperation with
          | Some op =>
              if String.eqb (drpType op) DrpType.DRP then
                let? (_, drp') := _applyOperation drp op in Ok drp'
              else Ok drp
          | None => Ok drp
          end
      end
  | _, _ => Err DRPUndefined
  end.

Definition _computeObjectACL (o : t) (vertexDependencies : list Hash)
    (preCompute : option LcaAndOperations) (vertexOperation : option Operation)
  : Result Value :=
  let? (lca, linearizedOperations) :=
    match preCompute with
    | Some pre => Ok pre
    | None => computeLCA (hashGraph o) vertexDependencies
    end in
  let acl := cloneDeep (originalObjectACL o) in
  match aclStates o !! lca with
  | None => Err StateUndefined
  | Some fetchedState =>
      let state := map (fun e => (fst e, cloneDeep (snd e))) fetchedState in
      let acl := assignState acl state in
      let? acl := replay DrpType.ACL acl linearizedOperations in
      match vertexOperation with
      | Some op =>
          if String.eqb (drpType op) DrpType.ACL then
            let? (_, acl') := _applyOperation acl op in Ok acl'
          else Ok acl
      | None => Ok acl
      end
  end.

(** Modelled from the spec: the data model gives a state entry as a pair
    (key, value). [DRPStateEntry.create({ key, value })] belongs to the
    generated code of the types package, which is not part of the sources
    at hand; it fills the message with [value ?? undefined], so that an
    entry made from [null] holds [undefined]. *)
Definition DRPStateEntry_create (key : string) (value : Value) : string * Value :=
  (key, nullish value).

(** [_getDRPState]: one entry per own property, in property order. *)
Definition _getDRPState (drp : Value) : DRPState :=
  map (fun varName => DRPStateEntry_create varName (getProp drp varName)) (keys drp).

Definition _computeDRPState (o : t) (vertexDependencies : list Hash)
    (preCompute : option LcaAndOperations) (vertexOperation : option Operation)
  : Result DRPState :=
  let? drp := _computeDRP o vertexDependencies preCompute vertexOperation in
  Ok (_getDRPState drp).

Definition _computeObjectACLState (o : t) (vertexDependencies : list Hash)
    (preCompute : option LcaAndOperations) (vertexOperation : option Operation)
  : Result DRPState :=
  let? acl := _computeObjectACL o vertexDependencies preCompute vertexOperation in
  Ok (_getDRPState acl).

Definition _setObjectACLState (vertex : Vertex)
    (preCompute : option LcaAndOperations) (drpState : option DRPState) : M unit :=
  let! o := gets (fun o => o) in
  let! state :=
    lift match drpState with
         | Some s => Ok s
         | None => _computeObjectACLState o (v_dependencies vertex) preCompute
                     (v_operation vertex)
         end in
  modify (fun o => set_aclStates (<[v_hash vertex := state]> (aclStates o)) o).

Definition _setDRPState (vertex : Vertex)
    (preCompute : option LcaAndOperations) (drpState : option DRPState) : M unit :=
  let! o := gets (fun o => o) in
  let! state :=
    lift match drpState with
         | Some s => Ok s
         | None => _computeDRPState o (v_dependencies vertex) preCompute
                     (v_operation vertex)
         end in
  modify (fun o => set_drpStates (<[v_hash vertex := state]> (drpStates o)) o).

(** [_initializeFinalityState]: the signers are read from the ACL state
    cached at the hash; without a cached state nothing is initialised. *)
Definition _initializeFinalityState (hash : Hash) : M unit :=
  let! o := gets (fun o => o) in
  match aclStates o !! hash with
  | Some fetchedState =>
      let state := map (fun e => (fst e, cloneDeep (snd e))) fetchedState in
      let acl := assignState (cloneDeep (originalObjectACL o)) state in
      modify (fun o =>
        set_finalityStore
          (FinalityStore.initializeState (finalityStore o) hash
             (query_getFinalitySigners acl)) o)
  | None => ret tt
  end.

(** [_checkWriterPermission]. *)
Definition _checkWriterPermission (o : t) (peer : string) (deps : list Hash)
  : Result bool :=
  match drp o with
  | None => Ok (query_isWriter (acl o) peer)
  | Some _ =>
      let? acl := _computeObjectACL o deps None None in
      Ok (query_isWriter acl peer)
  end.

(** The write-back loop of [_updateDRPState] and [_updateObjectACLState]:
    an entry is written when its key is in the object and does not hold a
    function. *)
Definition refresh (current : Value) (newState : DRPState) : Value :=
  fold_left
    (fun cur entry =>
       if inObject cur (fst entry)
          && negb (bool_decide (is_Some (lookupMethod cur (fst entry))))
       then setProp cur (fst entry) (snd entry)
       else cur)
    newState current.

Definition _updateDRPState : M unit :=
  let! o := gets (fun o => o) in
  match drp o with
  | None => throw DRPOrHashgraphUndefined
  | Some currentDRP =>
      let! newState :=
        lift (_computeDRPState o (HashGraph.getFrontier (hashGraph o)) None None) in
      modify (set_drp (Some (refresh currentDRP newState)))
  end.

Definition _updateObjectACLState : M unit :=
  let! o := gets (fun o => o) in
  let currentObjectACL := acl o in
  let! newState :=
    lift (_computeObjectACLState o (HashGraph.getFrontier (hashGraph o)) None None) in
  modify (set_acl (refresh currentObjectACL newState)).

(** *** Validation *)

(** The loop of [validateVertex] over the dependencies. *)
Fixpoint checkDependencies (g : HashGraph.t) (vertex : Vertex) (deps : list Hash)
  : Result unit :=
  match deps with
  | [] => Ok tt
  | dep :: rest =>
      match HashGraph.get (HashGraph.vertices g) dep with
      | None => Err (InvalidDependency (v_hash vertex) dep)
      | Some depVertex =>
          if (v_timestamp depVertex >? v_timestamp vertex)%Z
          then Err (InvalidTimestamp (v_hash vertex))
          else checkDependencies g vertex rest
      end
  end.

Definition validateVertex (vertex : Vertex) : M unit :=
  if negb (String.eqb (v_hash vertex)
             (computeHash (v_peerId vertex) (v_operation vertex)
                (v_dependencies vertex) (v_timestamp vertex)))
  then throw (InvalidHash (v_hash vertex))
  else if (length (v_dependencies vertex) =? 0)%nat
  then throw (NoDependencies (v_hash vertex))
  else
    let! o := gets (fun o => o) in
    lift (checkDependencies (hashGraph o) vertex (v_dependencies vertex)) ;;
    let! t := now in
    if (v_timestamp vertex >? t)%Z then throw (InvalidTimestamp (v_hash vertex))
    else
      let! allowed :=
        lift (_checkWriterPermission o (v_peerId vertex) (v_dependencies vertex)) in
      if negb allowed then throw (NoWritePermission (v_peerId vertex))
      else ret tt.

(** *** Merge *)

(** The guard at the head of both loops: no operation, or already known. *)
Definition skipped (o : t) (vertex : Vertex) : bool :=
  negb (bool_decide (is_Some (v_operation vertex)))
  || HashGraph.has (hashGraph o) (v_hash vertex).

Definition graph_addVertex (vertex : Vertex) : M unit :=
  let! o := gets (fun o => o) in
  let! g := lift (HashGraph.addVertex (hashGraph o) vertex) in
  modify (set_hashGraph g).

(** The body of the [try] of [_mergeWithDrp]. *)
Definition admitWithDrp (vertex : Vertex) : M unit :=
  validateVertex vertex ;;
  let! o := gets (fun o => o) in
  let! preComputeLca := lift (computeLCA (hashGraph o) (v_dependencies vertex)) in
  match v_operation vertex with
  | None => throw (TypeError "operation is undefined")
  | Some operation =>
      (if String.eqb (drpType operation) DrpType.DRP then
         let! drp :=
           lift (_computeDRP o (v_dependencies vertex) (Some preComputeLca)
                   (Some operation)) in
         _setObjectACLState vertex (Some preComputeLca) None ;;
         _setDRPState vertex (Some preComputeLca) (Some (_getDRPState drp))
       else
         let! acl :=
           lift (_computeObjectACL o (v_dependencies vertex) (Some preComputeLca)
                   (Some operation)) in
         _setObjectACLState vertex (Some preComputeLca) (Some (_getDRPState acl)) ;;
         _setDRPState vertex (Some preComputeLca) None) ;;
      graph_addVertex vertex ;;
      _initializeFinalityState (v_hash vertex)
  end.

Fixpoint mergeLoopWithDrp (vertices : list Vertex) (missing : list Hash)
    (newVertices : list Vertex) : M (list Hash * list Vertex) :=
  match vertices with
  | [] => ret (missing, newVertices)
  | vertex :: rest =>
      let! o := gets (fun o => o) in
      if skipped o vertex then mergeLoopWithDrp rest missing newVertices
      else
        let! admitted :=
          try_catch (admitWithDrp vertex ;; ret true) (fun _ => ret false) in
        if admitted : bool
        then mergeLoopWithDrp rest missing (newVertices ++ [vertex])
        else mergeLoopWithDrp rest (missing ++ [v_hash vertex]) newVertices
  end.

Definition _mergeWithDrp (vertices : list Vertex) : M (bool * list Hash) :=
  let! (missing, newVertices) := mergeLoopWithDrp vertices [] [] in
  let! o := gets (fun o => o) in
  modify (set_vertices (HashGraph.getAllVertices (hashGraph o))) ;;
  _updateObjectACLState ;;
  _updateDRPState ;;
  _notify "merge" newVertices ;;
  ret ((length missing =? 0)%nat, missing).

(** The body of the [try] of [_mergeWithoutDrp]: the vertex is copied
    field by field before it is added. *)
Definition admitWithoutDrp (vertex : Vertex) : M unit :=
  validateVertex vertex ;;
  graph_addVertex
    (mkVertex (v_hash vertex) (v_peerId vertex) (v_operation vertex)
       (v_dependencies vertex) (v_timestamp vertex) (v_signature vertex)).

Fixpoint mergeLoopWithoutDrp (vertices : list Vertex) (missing : list Hash)
  : M (list Hash) :=
  match vertices with
  | [] => ret missing
  | vertex :: rest =>
      let! o := gets (fun o => o) in
      if skipped o vertex then mergeLoopWithoutDrp rest missing
      else
        let! admitted :=
          try_catch (admitWithoutDrp vertex ;; ret true) (fun _ => ret false) in
        if admitted : bool
        then mergeLoopWithoutDrp rest missing
        else mergeLoopWithoutDrp rest (missing ++ [v_hash vertex])
  end.

Definition _mergeWithoutDrp (vertices : list Vertex) : M (bool * list Hash) :=
  let! missing := mergeLoopWithoutDrp vertices [] in
  ret ((length missing =? 0)%nat, missing).

Definition merge (vertices : list Vertex) : M (bool * list Hash) :=
  let! o := gets (fun o => o) in
  match drp o with
  | None => _mergeWithoutDrp vertices
  | Some _ => _mergeWithDrp vertices
  end.

(** *** Local application *)

(** [Object.keys(pre).some(key => !deepEqual(pre[key], post[key]))]. *)
Definition stateChanged (preOperationDRP drp : Value) : bool :=
  existsb (fun key => negb (deepEqual (getProp preOperationDRP key) (getProp drp key)))
          (keys preOperationDRP).

(** [Object.assign(target, source)]. *)
Definition Object_assign (target source : Value) : Value :=
  match source with
  | VObj fields => fold_left (fun o kv => setProp o (fst kv) (snd kv)) fields target
  | _ => target
  end.

(** The pre-image of a local call: the DRP or the ACL at the frontier. *)
Definition preImage (o : t) (drpType : string) : Result Value :=
  if String.eqb drpType DrpType.ACL
  then _computeObjectACL o (HashGraph.getFrontier (hashGraph o)) None None
  else _computeDRP o (HashGraph.getFrontier (hashGraph o)) None None.

(** The vertex [callFn] builds once the state has changed. *)
Definition localVertex (o : t) (fn : string) (args : Value) (drpType : string)
    (vertexTimestamp : Z) : Vertex :=
  let vertexDependencies := HashGraph.getFrontier (hashGraph o) in
  let vertexOperation := mkOperation drpType fn args in
  mkVertex
    (computeHash (peerId o) (Some vertexOperation) vertexDependencies vertexTimestamp)
    (peerId o) (Some vertexOperation) vertexDependencies vertexTimestamp [].

Definition callFn (fn : string) (args : Value) (drpType : string) : M Value :=
  let! o := gets (fun o => o) in
  let isACL := String.eqb drpType DrpType.ACL in
  let! preOperationDRP := lift (preImage o drpType) in
  let drp := cloneDeep preOperationDRP in
  match _applyOperation drp (mkOperation drpType fn args) with
  | Err e => log_error e ;; ret VUndefined
  | Ok (appliedOperationResult, drp) =>
      if negb (stateChanged preOperationDRP drp) then ret appliedOperationResult
      else
        let! vertexTimestamp := now in
        let vertex := localVertex o fn args drpType vertexTimestamp in
        modify (fun o => set_hashGraph (HashGraph.addToFrontier (hashGraph o) vertex) o) ;;
        (if String.eqb drpType DrpType.DRP then
           _setObjectACLState vertex None None ;;
           _setDRPState vertex None (Some (_getDRPState drp))
         else
           _setObjectACLState vertex None (Some (_getDRPState drp)) ;;
           _setDRPState vertex None None) ;;
        _initializeFinalityState (v_hash vertex) ;;
        modify (fun o => set_vertices (vertices o ++ [vertex]) o) ;;
        _notify "callFn" [vertex] ;;
        (if negb isACL then
           let! o := gets (fun o => o) in
           match DRPObject.drp o with
           | Some live => modify (set_drp (Some (Object_assign live drp)))
           | None => throw (TypeError "Cannot convert undefined or null to object")
           end
         else modify (fun o => set_acl (Object_assign (acl o) drp) o)) ;;
        ret appliedOperationResult
  end.

(** *** Construction *)

Record Options := mkOptions {
  o_peerId : string;
  o_publicCredential : option Value;
  o_acl : option Value;
  o_drp : option Value;
  o_id : option string }.

(** The entries [_setRootStates] keeps: the own properties that do not
    hold a function. *)
Definition rootState (obj : Value) : DRPState :=
  omap (fun key =>
          let v := getProp obj key in
          if is_function v then None
          else Some (DRPStateEntry_create key (cloneDeep v)))
       (keys obj).

Definition rootVertex : Vertex :=
  mkVertex rootHash "" (Some rootOperation) [] rootTimestamp [].

(** [new DRPObject(options)]; [random] is the decimal string drawn for
    the identifier when none is given. *)
Definition constructor (options : Options) (random : string) : Result t :=
  match o_acl options, o_publicCredential options with
  | None, None => Err ConstructionError
  | _, _ =>
      let id :=
        default (SHA256.sha256_hex (o_peerId options +:+ random)) (o_id options) in
      let objAcl :=
        match o_acl options with
        | Some a => a
        | None =>
            newObjectACL
              (mkACLOptions
                 [(o_peerId options, default VUndefined (o_publicCredential options))]
                 true)
        end in
      let hashGraph := HashGraph.create rootVertex in
      Ok (mk id (o_peerId options) (HashGraph.getAllVertices hashGraph)
             objAcl (o_drp options) hashGraph
             {[ rootHash := rootState (default (VObj []) (o_drp options)) ]}
             {[ rootHash := rootState objAcl ]}
             (cloneDeep <$> o_drp options) (cloneDeep objAcl)
             ∅ [])
  end.

(** [DRPObject.createObject(options)]: an ACL without admins, open to
    every writer, and no public credential. *)
Record CreateOptions := mkCreateOptions {
  c_peerId : string;
  c_id : option string;
  c_drp : option Value }.

Definition createObject (options : CreateOptions) (random : string) : Result t :=
  let aclObj := newObjectACL (mkACLOptions [] true) in
  constructor
    (mkOptions (c_peerId options) None (Some aclObj) (c_drp options) (c_id options))
    random.

End Engine.

End DRPObject.

(** ** A small platform to run the engine on

    A counter as the user DRP and an ACL with a permissionless flag and a
    list of writers. Histories are linear or fork into heads that are
    children of one vertex; other shapes are not implemented here and
    fail. *)
Module Demo.

Definition counter (n : Z) : Value := VObj [("count", VNum n)].

(** [increment(k)] adds [k]; [fail()] throws; [tag()] gives the object an
    attribute it did not have; [init(k)] sets a counter that is still at
    zero and throws on any other. *)
Definition counter_method (name : string) : option Method :=
  if String.eqb name "increment" then
    Some (fun this args =>
            match getProp this "count", args with
            | VNum n, [VNum k] =>
                Ok (VNum (n + k), setProp this "count" (VNum (n + k)))
            | _, _ => Err (TypeError "increment expects a number")
            end)
  else if String.eqb name "fail" then
    Some (fun _ _ => Err (Thrown (VStr "boom")))
  else if String.eqb name "tag" then
    Some (fun this _ => Ok (VUndefined, setProp this "tag" (VBool true)))
  else if String.eqb name "init" then
    Some (fun this args =>
            match getProp this "count", args with
            | VNum 0, [VNum k] => Ok (VUndefined, setProp this "count" (VNum k))
            | _, _ => Err (Thrown (VStr "already set"))
            end)
  else None.

Definition objectACL (options : ACLOptions) : Value :=
  VObj [("permissionless", VBool (permissionless options));
        ("admins", VObj (admins options));
        ("writers", VArr [])].

Definition listed (peer : string) (v : Value) : bool :=
  match v with
  | VArr items => existsb (deepEqual (VStr peer)) items
  | VObj fields => existsb (fun kv => String.eqb (fst kv) peer) fields
  | _ => false
  end.

Definition isWriter (acl : Value) (peer : string) : bool :=
  truthy (getProp acl "permissionless")
  || listed peer (getProp acl "writers")
  || listed peer (getProp acl "admins").

(** [grant(peer)] adds a writer; [setPermissionless(b)] sets the flag. *)
Definition acl_method (name : string) : option Method :=
  if String.eqb name "grant" then
    Some (fun this args =>
            match getProp this "writers", args with
            | VArr ws, [VStr peer] =>
                Ok (VUndefined, setProp this "writers" (VArr (ws ++ [VStr peer])))
            | _, _ => Err (TypeError "grant expects a peer")
            end)
  else if String.eqb name "setPermissionless" then
    Some (fun this args =>
            match args with
            | [VBool b] => Ok (VUndefined, setProp this "permissionless" (VBool b))
            | _ => Err (TypeError "setPermissionless expects a boolean")
            end)
  else None.

(** The methods of the class of an object: those of the counter for an
    object with a count, those of the ACL for one with a permissionless
    flag. *)
Definition methods (target : Value) (name : string) : option Method :=
  match target with
  | VObj fields =>
      match getOwn fields "count", getOwn fields "permissionless" with
      | Some _, _ => counter_method name
      | None, Some _ => acl_method name
      | None, None => None
      end
  | _ => None
  end.

(** An object inherits the methods of its class, each a function value
    named as the method; a function has its name. *)
Definition inherits (target : Value) (name : string) : option Value :=
  match target with
  | VObj _ => (fun _ => VFun name) <$> methods target name
  | VFun f => if String.eqb name "name" then Some (VStr f) else None
  | _ => None
  end.

Definition implementation (f : string) : Method :=
  match counter_method f, acl_method f with
  | Some method, _ => method
  | None, Some method => method
  | None, None => fun _ _ => Err (TypeError "no such function")
  end.

Lemma inherits_method fields name v :
  inherits (VObj fields) name = Some v -> is_function v = true.
Proof.
  unfold inherits. destruct (methods (VObj fields) name); [|discriminate].
  now intros [= <-].
Qed.

(** Modelled from the spec: the lowest common ancestor of heads is "a
    single hash H such that H is an ancestor of every head and no
    descendant of H has that property", and the subgraph holds "every
    vertex on any path from H (exclusive) to any head (inclusive)". For
    heads that each depend on one and the same vertex alone, that vertex
    is H and the subgraph is the heads. *)
Definition parentOfAll (g : HashGraph.t) (heads : list Hash) : option Hash :=
  match heads with
  | [] => None
  | first :: _ =>
      match v_dependencies <$> HashGraph.get (HashGraph.vertices g) first with
      | Some [p] =>
          if forallb
               (fun h =>
                  match v_dependencies <$> HashGraph.get (HashGraph.vertices g) h with
                  | Some [q] => String.eqb p q
                  | _ => false
                  end) heads
          then Some p else None
      | _ => None
      end
  end.

Definition lowestCommonAncestor (g : HashGraph.t) (heads : list Hash)
  : Result (Hash * list Hash) :=
  match parentOfAll g heads with
  | Some p => Ok (p, heads)
  | None => Err (GraphError "several heads")
  end.

(** Modelled from the spec: the linearisation is "a topological sort
    restricted to subgraph with ties broken by hash"; the operations of
    the counter and of this ACL are in no conflict, so none is dropped.
    For a subgraph of heads, which are concurrent, that is the order of
    their hashes. *)
Definition linearize (g : HashGraph.t) (lca : Hash) (subgraph : list Hash)
  : Result (list Operation) :=
  Ok (omap (fun h => HashGraph.get (HashGraph.vertices g) h ≫= v_operation)
           (fold_right HashGraph.insert_sorted [] subgraph)).

#[export] Instance platform : Platform := {|
  inherited := inherits;
  inherited_method := inherits_method;
  fun_impl := implementation;
  query_isWriter := isWriter;
  query_getFinalitySigners := fun acl => getProp acl "admins";
  newObjectACL := objectACL;
  rootHash := "425d2b1f5243dbf23c685078034b06fbfa71dc31dcce30f614e28023f140ff13";
  rootOperation := mkOperation "" "-1" VNull;
  rootTimestamp := -1;
  lowestCommonAncestorMultipleVertices := lowestCommonAncestor;
  linearizeOperations := linearize;
  Date_now := fun k => 1000 + Z.of_nat k |}.

Definition credential : Value :=
  VObj [("ed25519PublicKey", VStr "ed-p1"); ("blsPublicKey", VStr "bls-p1")].

(** An object of peer p1 with a counter and the default ACL. *)
Definition withDrp : DRPObject.t :=
  match DRPObject.constructor
          (DRPObject.mkOptions "p1" (Some credential) None (Some (counter 0))
             (Some "object-1")) "0" with
  | Ok o => o
  | Err _ => DRPObject.mk "" "" [] VUndefined None (HashGraph.mk [] [] []) ∅ ∅
               None VUndefined ∅ []
  end.

(** The same peer with an ACL of its own and no user DRP. *)
Definition aclOnly : DRPObject.t :=
  match DRPObject.constructor
          (DRPObject.mkOptions "p1" None
             (Some (objectACL (mkACLOptions [("p1", credential)] true)))
             None (Some "object-2")) "0" with
  | Ok o => o
  | Err _ => DRPObject.mk "" "" [] VUndefined None (HashGraph.mk [] [] []) ∅ ∅
               None VUndefined ∅ []
  end.

Definition world (o : DRPObject.t) (subscribers : list nat) : DRPObject.World :=
  DRPObject.mkWorld (DRPObject.set_subscriptions subscribers o) 0 [] [].

(** Vertices of peer p2: an increment on the root, and one on top of it. *)
Definition parent : Vertex :=
  newVertex "p2" (mkOperation DrpType.DRP "increment" (VArr [VNum 1]))
    [rootHash] 10 [].

Definition child : Vertex :=
  newVertex "p2" (mkOperation DrpType.DRP "increment" (VArr [VNum 2]))
    [v_hash parent] 20 [].

(** A grant written by p2 on the root, and a vertex of p3 on top of it. *)
Definition grant : Vertex :=
  newVertex "p2" (mkOperation DrpType.ACL "grant" (VArr [VStr "p3"]))
    [rootHash] 10 [].

Definition after_grant : Vertex :=
  newVertex "p3" (mkOperation DrpType.ACL "grant" (VArr [VStr "p4"]))
    [v_hash grant] 20 [].




End Demo.


(** An increment, as an operation on the wire. *)
Definition demo_op : Operation := mkOperation "DRP" "add" (VArr [VNum 1]).
Example sha256_round_constants :
  nth 0 SHA256.K 0 = 0x428a2f98 /\ nth 63 SHA256.K 0 = 0xc67178f2
  /\ length SHA256.K = 64%nat /\ SHA256.ra SHA256.H0 = 0x6a09e667.
Proof. repeat split. Qed.

Example sha256_empty :
  SHA256.sha256_hex "" =
  "e3b0c44298fc1c149afbf4c8996fb92427ae41e4649b934ca495991b7852b855".
Proof. vm_compute. reflexivity. Qed.

Example sha256_abc :
  SHA256.sha256_hex "abc" =
  "ba7816bf8f01cfea414140de5dae2223b00361a396177a9cb410ff61f20015ad".
Proof. vm_compute. reflexivity. Qed.

Example sha256_two_blocks :
  SHA256.sha256_hex "abcdbcdecdefdefgefghfghighijhijkijkljklmklmnlmnomnopnopq" =
  "248d6a61d20638b8e5c026930c3e6039a33ce45964ff2167f6ecedd419db06c1".
Proof. vm_compute. reflexivity. Qed.

Lemma append_assoc (s1 s2 s3 : string) :
  (s1 +:+ s2) +:+ s3 = s1 +:+ (s2 +:+ s3).
Proof.
  induction s1 as [|c s1 IH]; [reflexivity|].
  change (String c ((s1 +:+ s2) +:+ s3) = String c (s1 +:+ s2 +:+ s3)).
  now f_equal.
Qed.

Lemma append_empty_r (s : string) : s +:+ "" = s.
Proof.
  induction s as [|c s IH]; [reflexivity|].
  change (String c (s +:+ "") = String c s). now f_equal.
Qed.

Lemma length_string_of_list_ascii (l : list ascii) :
  String.length (string_of_list_ascii l) = length l.
Proof. induction l as [|c l IH]; simpl; [reflexivity | now f_equal]. Qed.

Lemma hex_digit_lower n : is_lower_hex (SHA256.hex_digit n) = true.
Proof.
  destruct n as [|p|p]; try reflexivity.
  do 4 (try destruct p as [p|p|]; try reflexivity).
Qed.

Lemma hex_of_word_lower w :
  forallb is_lower_hex (SHA256.hex_of_word w) = true
  /\ length (SHA256.hex_of_word w) = 8%nat.
Proof.
  unfold SHA256.hex_of_word, SHA256.be_bytes, SHA256.hex_of_byte.
  cbn [seq rev app map concat forallb length].
  rewrite !hex_digit_lower. split; reflexivity.
Qed.

Lemma sha256_hex_shape s :
  String.length (SHA256.sha256_hex s) = 64%nat
  /\ forallb is_lower_hex (list_ascii_of_string (SHA256.sha256_hex s)) = true.
Proof.
  unfold SHA256.sha256_hex, SHA256.digest_words.
  set (r := SHA256.blocks _ _ _). clearbody r.
  rewrite list_ascii_of_string_of_list_ascii, length_string_of_list_ascii.
  cbn [map concat].
  split.
  - rewrite !length_app.
    repeat (rewrite (proj2 (hex_of_word_lower _))). reflexivity.
  - rewrite !forallb_app.
    repeat (rewrite (proj1 (hex_of_word_lower _))). reflexivity.
Qed.

(** Numbers as JavaScript prints them: all digits up to 2^53, the
    shortest digits that read back beyond, the exponent form from 1e21,
    and [null] in JSON for what no double holds. *)
Example Number_toString_examples :
  Number.toString 1730505600000 = "1730505600000"
  /\ Number.toString (- 42) = "-42"
  /\ Number.toString (2 ^ 53 + 1) = "9007199254740992"
  /\ Number.toString (2 ^ 60) = "1152921504606847000"
  /\ Number.toString (2 ^ 64) = "18446744073709552000"
  /\ Number.toString (10 ^ 21) = "1e+21"
  /\ Number.toString (2 ^ 70) = "1.1805916207174113e+21"
  /\ Number.toString 123456789012345678901234567890 = "1.2345678901234568e+29"
  /\ JSON.number (2 ^ 1024) = "null".
Proof. repeat apply conj; vm_compute; reflexivity. Qed.

Lemma Number_toDouble_exact n : Z.abs n < 2 ^ 53 -> Number.toDouble n = n.
Proof.
  intros Hn. unfold Number.toDouble.
  destruct (Z.leb_spec (Z.log2 (Z.abs n) + 1 - 53) 0) as [|Hlog]; [reflexivity|].
  exfalso.
  destruct (Z.eq_dec (Z.abs n) 0) as [Hz|Hz].
  - rewrite Hz in Hlog. cbn in Hlog. lia.
  - assert (Hpos : 0 < Z.abs n) by lia.
    pose proof (proj1 (Z.log2_lt_pow2 (Z.abs n) 53 Hpos) Hn). lia.
Qed.

(** An integer below 2^53, such as a timestamp in milliseconds, prints
    with all its digits. *)
Lemma JSON_number_exact n : Z.abs n < 2 ^ 53 -> JSON.number n = pretty n.
Proof.
  intros Hn. unfold JSON.number, Number.isFinite, Number.toString, Number.isFinite.
  rewrite (Number_toDouble_exact n Hn).
  assert (Hbig : (2 : Z) ^ 53 < 2 ^ 1024) by (apply Z.pow_lt_mono_r; lia).
  destruct (Z.ltb_spec (Z.abs n) (2 ^ 1024)) as [_|Hge]; [|lia].
  cbn [negb]. destruct (Z.leb_spec (Z.abs n) (2 ^ 53)); [reflexivity | lia].
Qed.

Lemma concat_quote_deps deps :
  map (fun x => default "null" (JSON.stringify x)) (map VStr deps)
  = map JSON.quote deps.
Proof. rewrite map_map. reflexivity. Qed.

Lemma operation_text_eq op :
  JSON.stringify (operationValue op) = Some (operation_text op).
Proof.
  unfold operationValue, operation_text.
  destruct (keyOrder op);
    cbn [keysIn map operationField JSON.stringify omap list_omap fmap
         option_fmap option_map fst snd key_text];
    destruct (JSON.stringify (value op)); reflexivity.
Qed.

Lemma computeHash_preimage_eq peerId op deps ts :
  computeHash peerId op deps ts = SHA256.sha256_hex (hash_preimage peerId op deps ts).
Proof.
  unfold computeHash, hash_preimage. f_equal.
  destruct op as [op|].
  - cbn [from_option].
    change (JSON.stringify (VObj ?fields))
      with (Some ("{" +:+ String.concat ","
                    (omap (fun kv => (fun s => JSON.quote (fst kv) +:+ ":" +:+ s)
                                       <$> JSON.stringify (snd kv)) fields) +:+ "}")).
    cbn [omap list_omap fst snd].
    rewrite operation_text_eq.
    cbn [JSON.stringify fmap option_fmap option_map omap list_omap default id
         String.concat].
    rewrite concat_quote_deps.
    now rewrite ?append_empty_r, !append_assoc.
  - cbn [from_option JSON.stringify omap list_omap fmap option_fmap option_map
         fst snd default id String.concat].
    rewrite concat_quote_deps. cbn. now rewrite !append_assoc.
Qed.

(** C1, as amended. The hash of a vertex, as [computeHash] computes it
    for a new vertex and recomputes it in validation, is the SHA-256
    digest, as 64 lowercase hexadecimal digits, of the JSON text of the
    record written with its properties in the order of the object literal
    in [computeHash]: operation, deps, peerId, timestamp, with no
    whitespace. The operation is written with its keys in the order in
    which the operation object holds them (drpType, opType, value for a
    vertex made by [callFn]), the timestamp as JavaScript prints a number;
    a property that is [undefined] is left out. The keys are not
    sorted. *)
Theorem computeHash_digest_of_literal_order
    (peerId : string) (operation : option Operation) (deps : list Hash)
    (timestamp : Z) :
  computeHash peerId operation deps timestamp
  = SHA256.sha256_hex (hash_preimage peerId operation deps timestamp)
  /\ String.length (computeHash peerId operation deps timestamp) = 64%nat
  /\ forallb is_lower_hex
       (list_ascii_of_string (computeHash peerId operation deps timestamp)) = true
  /\ (forall op signature,
        v_hash (newVertex peerId op deps timestamp signature)
        = SHA256.sha256_hex (hash_preimage peerId (Some op) deps timestamp)).
Proof.
  split; [apply computeHash_preimage_eq|].
  rewrite computeHash_preimage_eq.
  destruct (sha256_hex_shape (hash_preimage peerId operation deps timestamp))
    as [Hlen Hhex].
  repeat split; auto.
  intros op signature. apply computeHash_preimage_eq.
Qed.

(** The same operation held with its keys in another order, at a time
    beyond 1e21: the text digested starts the operation with opType and
    ends with the timestamp 1e+21, and the digest is that of this text. *)
Example computeHash_follows_key_order :
  computeHash "p1"
    (Some (operationObject "DRP" "add" (VArr [VNum 1]) OpType_Value_DrpType))
    ["r"] (10 ^ 21)
  = "c45cdb1cff536cd5df1e82dd7a735ec8a3032d1f383eee78da3b587638f5f873"
  /\ operation_text (operationObject "DRP" "add" (VArr [VNum 1]) OpType_Value_DrpType)
     = "{" +:+ JSON.quote "opType" +:+ ":" +:+ JSON.quote "add" +:+ ","
           +:+ JSON.quote "value" +:+ ":[1],"
           +:+ JSON.quote "drpType" +:+ ":" +:+ JSON.quote "DRP" +:+ "}"
  /\ JSON.number (10 ^ 21) = "1e+21".
Proof. repeat apply conj; vm_compute; reflexivity. Qed.

(** C1 as stated fails: for an increment by p1 on a vertex r at time 10,
    the code digests the record with "operation" first, the sorted-key
    encoding starts with "deps", and the two digests differ. *)
Lemma computeHash_is_not_sorted_key :
  computeHash "p1" (Some demo_op) ["r"] 10
  = "52896c8cba38c985dd0617d3cd1fd881073d693acf59614d2cb2e233c350b61e"
  /\ Canonical.hash "p1" (Some demo_op) ["r"] 10
     = "260408157b64d6e2fea4436da02bca7d9659ef19ea47dfed3d61ee8b9ba17c43"
  /\ computeHash "p1" (Some demo_op) ["r"] 10
     <> Canonical.hash "p1" (Some demo_op) ["r"] 10.
Proof.
  assert (Hcode : computeHash "p1" (Some demo_op) ["r"] 10
    = "52896c8cba38c985dd0617d3cd1fd881073d693acf59614d2cb2e233c350b61e")
    by (vm_compute; reflexivity).
  assert (Hspec : Canonical.hash "p1" (Some demo_op) ["r"] 10
    = "260408157b64d6e2fea4436da02bca7d9659ef19ea47dfed3d61ee8b9ba17c43")
    by (vm_compute; reflexivity).
  split; [exact Hcode|]. split; [exact Hspec|].
  rewrite Hcode, Hspec. discriminate.
Qed.

Import DRPObject.

(** ** Vertex validation *)

Section Validation.
Context `{Platform}.

Lemma checkDependencies_throws (g : HashGraph.t) (vertex : Vertex) (deps : list Hash) :
  isErr (checkDependencies g vertex deps) = true <->
  (exists dep, In dep deps /\ HashGraph.get (HashGraph.vertices g) dep = None)
  \/ (exists dep depVertex,
        In dep deps
        /\ HashGraph.get (HashGraph.vertices g) dep = Some depVertex
        /\ (v_timestamp depVertex > v_timestamp vertex)%Z).
Proof.
  induction deps as [|dep rest IH]; simpl.
  - split; [discriminate | intros [[? [[] _]] | [? [? [[] _]]]]].
  - destruct (HashGraph.get (HashGraph.vertices g) dep) as [depVertex|] eqn:Hget.
    + destruct (Z.gtb_spec (v_timestamp depVertex) (v_timestamp vertex)) as [Hgt|Hle].
      * split; [intros _ | reflexivity].
        right. exists dep, depVertex. repeat split; auto. lia.
      * rewrite IH. split.
        -- intros [[d [Hin Hn]] | [d [dv [Hin Hrest]]]];
             [left; exists d | right; exists d, dv]; auto.
        -- intros [[d [[->|Hin] Hn]] | [d [dv [[->|Hin] [Hg Hlt]]]]].
           ++ congruence.
           ++ left; eauto.
           ++ rewrite Hget in Hg. injection Hg as <-. lia.
           ++ right; eauto.
    + split; [intros _ | reflexivity]. left. exists dep. auto.
Qed.

End Validation.

(** C2. [validateVertex] throws exactly when one of the six rules is
    violated: the hash differs from the recomputed one, there is no
    dependency, a dependency is not in the graph, a dependency is later
    than the vertex, the vertex is later than the clock read at
    validation, or the writer check does not answer true. Otherwise it
    returns without error. *)
Theorem validateVertex_throws_iff `{Platform} (vertex : Vertex) (w : World) :
  let g := hashGraph (this w) in
  (isErr (fst (validateVertex vertex w)) = true <->
     v_hash vertex <>
       computeHash (v_peerId vertex) (v_operation vertex)
         (v_dependencies vertex) (v_timestamp vertex)
     \/ v_dependencies vertex = []
     \/ (exists dep,
           In dep (v_dependencies vertex)
           /\ HashGraph.get (HashGraph.vertices g) dep = None)
     \/ (exists dep depVertex,
           In dep (v_dependencies vertex)
           /\ HashGraph.get (HashGraph.vertices g) dep = Some depVertex
           /\ (v_timestamp depVertex > v_timestamp vertex)%Z)
     \/ (v_timestamp vertex > Date_now (ticks w))%Z
     \/ _checkWriterPermission (this w) (v_peerId vertex) (v_dependencies vertex)
        <> Ok true)
  /\ (isErr (fst (validateVertex vertex w)) = false <->
      fst (validateVertex vertex w) = Ok tt).
Proof.
  intros g. split.
  2: { destruct (fst (validateVertex vertex w)) as [[]|e]; simpl;
       split; congruence. }
  unfold validateVertex.
  destruct (String.eqb_spec (v_hash vertex)
              (computeHash (v_peerId vertex) (v_operation vertex)
                 (v_dependencies vertex) (v_timestamp vertex))) as [Hh|Hh]; simpl.
  2: { split; auto. }
  destruct (Nat.eqb_spec (length (v_dependencies vertex)) 0) as [Hlen|Hlen]; simpl.
  { split; [intros _ | reflexivity]. right; left.
    now apply length_zero_iff_nil. }
  assert (Hdeps : v_dependencies vertex <> []).
  { intros Hnil. rewrite Hnil in Hlen. now apply Hlen. }
  unfold bind, gets, lift, now, throw, ret; simpl.
  pose proof (checkDependencies_throws g vertex (v_dependencies vertex)) as Hcd.
  fold g.
  destruct (checkDependencies g vertex (v_dependencies vertex)) as [[]|e] eqn:Hc;
    simpl in *.
  2: { split; [intros _ | reflexivity].
       destruct (proj1 Hcd eq_refl) as [Hm|Hl]; auto. }
  destruct (Z.gtb_spec (v_timestamp vertex) (Date_now (ticks w))) as [Hgt|Hle]; simpl.
  { split; [intros _ | reflexivity]. do 4 right. left. lia. }
  destruct (_checkWriterPermission (this w) (v_peerId vertex) (v_dependencies vertex))
    as [[|]|e] eqn:Hperm; simpl.
  - split; [discriminate|].
    intros [Hx|[Hx|[Hx|[Hx|[Hx|Hx]]]]]; try congruence; try lia.
    + assert (false = true) by (apply Hcd; auto). discriminate.
    + assert (false = true) by (apply Hcd; auto). discriminate.
  - split; [intros _ | reflexivity]. do 5 right. discriminate.
  - split; [intros _ | reflexivity]. do 5 right. discriminate.
Qed.

(** ** Merge: what the two loops collect *)

Section MergeLoops.
Context `{Platform}.

(** One turn of either loop, with the [try] opened up. *)
Lemma mergeLoopWithDrp_cons vertex rest missing newVertices w :
  mergeLoopWithDrp (vertex :: rest) missing newVertices w =
  if skipped (this w) vertex then mergeLoopWithDrp rest missing newVertices w
  else match admitWithDrp vertex w with
       | (Ok _, w1) => mergeLoopWithDrp rest missing (newVertices ++ [vertex]) w1
       | (Err _, w1) => mergeLoopWithDrp rest (missing ++ [v_hash vertex]) newVertices w1
       end.
Proof.
  cbn [mergeLoopWithDrp]. unfold bind at 1. unfold gets at 1. cbn [this].
  destruct (skipped (this w) vertex); [reflexivity|].
  unfold bind at 1, try_catch, bind at 1, ret.
  destruct (admitWithDrp vertex w) as [[[]|e] w1]; reflexivity.
Qed.

Lemma mergeLoopWithoutDrp_cons vertex rest missing w :
  mergeLoopWithoutDrp (vertex :: rest) missing w =
  if skipped (this w) vertex then mergeLoopWithoutDrp rest missing w
  else match admitWithoutDrp vertex w with
       | (Ok _, w1) => mergeLoopWithoutDrp rest missing w1
       | (Err _, w1) => mergeLoopWithoutDrp rest (missing ++ [v_hash vertex]) w1
       end.
Proof.
  cbn [mergeLoopWithoutDrp]. unfold bind at 1. unfold gets at 1. cbn [this].
  destruct (skipped (this w) vertex); [reflexivity|].
  unfold bind at 1, try_catch, bind at 1, ret.
  destruct (admitWithoutDrp vertex w) as [[[]|e] w1]; reflexivity.
Qed.



(** What the claim says a merge loop does, in the claim's words: a vertex
    with no operation or already in the graph is passed over; a vertex
    whose [try] body throws puts its hash on the missing list and the loop
    goes on from the world the throw left; any other vertex is admitted. *)
Inductive Collected (body : Vertex -> M unit)
  : World -> list Vertex -> list Hash -> World -> Prop :=
| Collected_done w : Collected body w [] [] w
| Collected_skipped w vertex rest missing w' :
    skipped (this w) vertex = true ->
    Collected body w rest missing w' ->
    Collected body w (vertex :: rest) missing w'
| Collected_admitted w vertex rest missing w1 w' :
    skipped (this w) vertex = false ->
    body vertex w = (Ok tt, w1) ->
    Collected body w1 rest missing w' ->
    Collected body w (vertex :: rest) missing w'
| Collected_failed w vertex rest missing e w1 w' :
    skipped (this w) vertex = false ->
    body vertex w = (Err e, w1) ->
    Collected body w1 rest missing w' ->
    Collected body w (vertex :: rest) (v_hash vertex :: missing) w'.

Lemma mergeLoopWithDrp_collects vertices :
  forall missing0 newVertices0 w,
  exists missing newVertices w',
    mergeLoopWithDrp vertices missing0 newVertices0 w
      = (Ok (missing0 ++ missing, newVertices), w')
    /\ Collected admitWithDrp w vertices missing w'.
Proof.
  induction vertices as [|vertex rest IH]; intros missing0 newVertices0 w.
  - exists [], newVertices0, w. rewrite app_nil_r. split; [reflexivity | constructor].
  - rewrite mergeLoopWithDrp_cons.
    destruct (skipped (this w) vertex) eqn:Hskip.
    + destruct (IH missing0 newVertices0 w) as (m & n & w' & Heq & Hc).
      exists m, n, w'. split; [exact Heq | now apply Collected_skipped].
    + destruct (admitWithDrp vertex w) as [[[]|e] w1] eqn:Hbody.
      * destruct (IH missing0 (newVertices0 ++ [vertex]) w1) as (m & n & w' & Heq & Hc).
        exists m, n, w'. split; [exact Heq | eapply Collected_admitted; eauto].
      * destruct (IH (missing0 ++ [v_hash vertex]) newVertices0 w1)
          as (m & n & w' & Heq & Hc).
        exists (v_hash vertex :: m), n, w'. split.
        -- rewrite Heq, <- app_assoc. reflexivity.
        -- eapply Collected_failed; eauto.
Qed.

Lemma mergeLoopWithoutDrp_collects vertices :
  forall missing0 w,
  exists missing w',
    mergeLoopWithoutDrp vertices missing0 w = (Ok (missing0 ++ missing), w')
    /\ Collected admitWithoutDrp w vertices missing w'.
Proof.
  induction vertices as [|vertex rest IH]; intros missing0 w.
  - exists [], w. rewrite app_nil_r. split; [reflexivity | constructor].
  - rewrite mergeLoopWithoutDrp_cons.
    destruct (skipped (this w) vertex) eqn:Hskip.
    + destruct (IH missing0 w) as (m & w' & Heq & Hc).
      exists m, w'. split; [exact Heq | now apply Collected_skipped].
    + destruct (admitWithoutDrp vertex w) as [[[]|e] w1] eqn:Hbody.
      * destruct (IH missing0 w1) as (m & w' & Heq & Hc).
        exists m, w'. split; [exact Heq | eapply Collected_admitted; eauto].
      * destruct (IH (missing0 ++ [v_hash vertex]) w1) as (m & w' & Heq & Hc).
        exists (v_hash vertex :: m), w'. split.
        -- rewrite Heq, <- app_assoc. reflexivity.
        -- eapply Collected_failed; eauto.
Qed.

(** The statements of [_mergeWithDrp] between its loop and [_notify]. *)
Definition refreshLive : M unit :=
  let! o := gets (fun o => o) in
  modify (set_vertices (HashGraph.getAllVertices (hashGraph o))) ;;
  _updateObjectACLState ;;
  _updateDRPState.

Lemma _mergeWithDrp_steps vertices w :
  _mergeWithDrp vertices w =
  match mergeLoopWithDrp vertices [] [] w with
  | (Ok (missing, newVertices), w1) =>
      match refreshLive w1 with
      | (Ok _, w2) =>
          match _notify "merge" newVertices w2 with
          | (_, w3) => (Ok ((length missing =? 0)%nat, missing), w3)
          end
      | (Err e, w2) => (Err e, w2)
      end
  | (Err e, w1) => (Err e, w1)
  end.
Proof.
  unfold _mergeWithDrp, bind at 1.
  destruct (mergeLoopWithDrp vertices [] [] w) as [[[missing newVertices]|e] w1];
    [|reflexivity].
  unfold refreshLive, bind, gets, modify, ret, _notify. cbn [this].
  repeat match goal with
         | |- context [match ?x with _ => _ end] =>
             lazymatch x with
             | context [match _ with _ => _ end] => fail
             | _ => destruct x as [[[]|?] ?] eqn:?
             end
         end; try reflexivity.
Qed.

Lemma merge_by_mode batch w :
  merge batch w
  = match drp (this w) with
    | Some _ => _mergeWithDrp batch w
    | None => _mergeWithoutDrp batch w
    end.
Proof.
  unfold merge, bind, gets. cbn [this]. now destruct (drp (this w)).
Qed.

Lemma length_eqb_0_nil {A} (l : list A) : (length l =? 0)%nat = true <-> l = [].
Proof. destruct l; simpl; split; congruence. Qed.

End MergeLoops.


(** ** What a computation may change

    [steps R m]: from any world, [m] ends (returning or throwing) in a
    world related to the start by [R]. For a preorder [R] the property
    follows the structure of the code. *)

Section Steps.
Context (R : World -> World -> Prop) `{!PreOrder R}.

Definition steps {A} (m : M A) : Prop := forall w, R w (snd (m w)).

Lemma steps_ret {A} (a : A) : steps (ret a).
Proof. intros w. reflexivity. Qed.

Lemma steps_throw {A} (e : Error) : steps (@throw A e).
Proof. intros w. reflexivity. Qed.

Lemma steps_lift {A} (r : Result A) : steps (lift r).
Proof. intros w. reflexivity. Qed.

Lemma steps_gets {A} (f : t -> A) : steps (gets f).
Proof. intros w. reflexivity. Qed.

Lemma steps_bind {A B} (m : M A) (k : A -> M B) :
  steps m -> (forall a, steps (k a)) -> steps (bind m k).
Proof.
  intros Hm Hk w. unfold bind. specialize (Hm w).
  destruct (m w) as [[a|e] w1]; cbn in *; [|exact Hm].
  etransitivity; [exact Hm | apply Hk].
Qed.

Lemma steps_try_catch {A} (body : M A) (handler : Error -> M A) :
  steps body -> (forall e, steps (handler e)) -> steps (try_catch body handler).
Proof.
  intros Hb Hh w. unfold try_catch. specialize (Hb w).
  destruct (body w) as [[a|e] w1]; cbn in *; [exact Hb|].
  etransitivity; [exact Hb | apply Hh].
Qed.

Lemma steps_modify (f : t -> t) :
  (forall w, R w (mkWorld (f (this w)) (ticks w) (delivered w) (logged w))) ->
  steps (modify f).
Proof. intros Hf w. apply Hf. Qed.

End Steps.

(** The computations that only read the object. *)
Definition same_object (w w' : World) : Prop := this w' = this w.

#[local] Instance same_object_preorder : PreOrder same_object.
Proof. split; [intros w; reflexivity | intros a b c; unfold same_object; congruence]. Qed.

(** The computations that leave the graph alone. *)
Definition same_graph (w w' : World) : Prop :=
  hashGraph (this w') = hashGraph (this w).

#[local] Instance same_graph_preorder : PreOrder same_graph.
Proof. split; [intros w; reflexivity | intros a b c; unfold same_graph; congruence]. Qed.

(** The computations that change nothing of the object but its graph, and
    notify nobody. *)
Definition graph_only (w w' : World) : Prop :=
  this w' = set_hashGraph (hashGraph (this w')) (this w)
  /\ delivered w' = delivered w.

#[local] Instance graph_only_preorder : PreOrder graph_only.
Proof.
  split.
  - intros [[] ? ? ?]; split; reflexivity.
  - intros a b c [Hab Hab'] [Hbc Hbc']. split; [|congruence].
    rewrite Hbc, Hab. reflexivity.
Qed.

(** The vertices of the graph stay. *)
Definition graph_grows (w w' : World) : Prop :=
  forall h, HashGraph.has (hashGraph (this w)) h = true ->
            HashGraph.has (hashGraph (this w')) h = true.

#[local] Instance graph_grows_preorder : PreOrder graph_grows.
Proof. split; [intros w h; auto | intros a b c Hab Hbc h Hh; auto]. Qed.

(** The frame of a computation follows its structure: binds, branches and
    the primitive steps. *)
Ltac frame_step :=
  match goal with
  | |- PreOrder _ => typeclasses eauto
  | |- forall _, steps _ _ => intros ?
  | |- steps _ (bind _ _) => apply steps_bind
  | |- steps _ (try_catch _ _) => apply steps_try_catch
  | |- steps _ (ret _) => apply steps_ret
  | |- steps _ (throw _) => apply steps_throw
  | |- steps _ (lift _) => apply steps_lift
  | |- steps _ (gets _) => apply steps_gets
  | |- steps _ (if ?c then _ else _) => destruct c
  | |- steps _ (match ?c with _ => _ end) => destruct c
  | |- steps _ (let (_, _) := ?c in _) => destruct c
  end.

Ltac frame_prim solve_R :=
  match goal with
  | |- steps _ (modify _) => apply steps_modify; intros ?; solve_R
  | |- steps _ now => intros ?; solve_R
  | |- steps _ (_notify _ _) => intros ?; solve_R
  | |- steps _ (log_error _) => intros ?; solve_R
  end.

Ltac frame solve_R :=
  unfold validateVertex, _setObjectACLState, _setDRPState,
    _initializeFinalityState, graph_addVertex, _updateDRPState,
    _updateObjectACLState;
  repeat first [frame_step | frame_prim solve_R].

Section Frames.
Context `{Platform}.

(** Insertion in the vertex map. *)
Lemma get_set_eq vs h v : HashGraph.get (HashGraph.set vs h v) h = Some v.
Proof.
  induction vs as [|[k x] rest IH]; simpl.
  - now rewrite String.eqb_refl.
  - destruct (String.eqb k h) eqn:E; simpl; rewrite E; auto.
Qed.

Lemma get_set_ne vs h v h' :
  h <> h' -> HashGraph.get (HashGraph.set vs h v) h' = HashGraph.get vs h'.
Proof.
  intros Hne. induction vs as [|[k x] rest IH]; simpl.
  - destruct (String.eqb_spec h h'); congruence.
  - destruct (String.eqb_spec k h) as [->|Hk]; simpl.
    + destruct (String.eqb_spec h h'); congruence.
    + destruct (String.eqb_spec k h'); auto.
Qed.

Lemma has_link g v h :
  HashGraph.has (HashGraph.link g v) h = true <->
  h = v_hash v \/ HashGraph.has g h = true.
Proof.
  unfold HashGraph.has, HashGraph.link; cbn [HashGraph.vertices].
  destruct (String.eqb_spec (v_hash v) h) as [<-|Hne].
  - rewrite get_set_eq. split; auto.
  - rewrite get_set_ne by assumption. split; [auto | intros [->|]; [congruence|auto]].
Qed.

Lemma addVertex_Ok g v g' :
  HashGraph.addVertex g v = Ok g' ->
  g' = HashGraph.link g v /\ HashGraph.has g (v_hash v) = false.
Proof.
  unfold HashGraph.addVertex.
  destruct (HashGraph.has g (v_hash v)); [discriminate|].
  destruct (forallb _ _); [|discriminate]. intros [= <-]. auto.
Qed.

End Frames.

(** ** Local application *)

Section CallFn.
Context `{Platform}.

Ltac solve_same_graph := unfold same_graph; cbn; reflexivity.

(** What [callFn] does once the vertex is on the frontier leaves the
    graph as it is, whether it returns or throws. *)
Lemma callFn_after_vertex_same_graph vertex drpType post (isACL : bool) (res : Value) :
  steps same_graph
    ((if String.eqb drpType DrpType.DRP then
        _setObjectACLState vertex None None ;;
        _setDRPState vertex None (Some (_getDRPState post))
      else
        _setObjectACLState vertex None (Some (_getDRPState post)) ;;
        _setDRPState vertex None None) ;;
     _initializeFinalityState (v_hash vertex) ;;
     modify (fun o => set_vertices (vertices o ++ [vertex]) o) ;;
     _notify "callFn" [vertex] ;;
     (if negb isACL then
        let! o := gets (fun o => o) in
        match DRPObject.drp o with
        | Some live => modify (set_drp (Some (Object_assign live post)))
        | None => throw (TypeError "Cannot convert undefined or null to object")
        end
      else modify (fun o => set_acl (Object_assign (acl o) post) o)) ;;
     ret res).
Proof. frame solve_same_graph. Qed.

Lemma stateChanged_spec pre post :
  stateChanged pre post = true <->
  exists key, In key (keys pre)
              /\ deepEqual (getProp pre key) (getProp post key) = false.
Proof.
  unfold stateChanged. rewrite existsb_exists.
  split; intros (key & Hin & Hk); exists key; split; auto.
  - now apply negb_true_iff.
  - now apply negb_true_iff.
Qed.

Lemma callFn_unchanged fn args drpType w pre res post :
  preImage (this w) drpType = Ok pre ->
  _applyOperation (cloneDeep pre) (mkOperation drpType fn args) = Ok (res, post) ->
  stateChanged pre post = false ->
  callFn fn args drpType w = (Ok res, w).
Proof.
  intros Hpre Happly Hsame.
  unfold callFn, bind at 1, gets at 1. cbn [this].
  unfold bind at 1, lift at 1. rewrite Hpre, Happly, Hsame. reflexivity.
Qed.

Lemma callFn_no_preimage fn args drpType w e :
  preImage (this w) drpType = Err e -> callFn fn args drpType w = (Err e, w).
Proof.
  intros Hpre.
  unfold callFn, bind at 1, gets at 1. cbn [this].
  unfold bind at 1, lift at 1. now rewrite Hpre.
Qed.

Lemma callFn_throws fn args drpType w pre e :
  preImage (this w) drpType = Ok pre ->
  _applyOperation (cloneDeep pre) (mkOperation drpType fn args) = Err e ->
  callFn fn args drpType w
  = (Ok VUndefined, mkWorld (this w) (ticks w) (delivered w) (logged w ++ [e])).
Proof.
  intros Hpre Happly.
  unfold callFn, bind at 1, gets at 1. cbn [this].
  unfold bind at 1, lift at 1. rewrite Hpre, Happly. reflexivity.
Qed.

Lemma callFn_changed_graph fn args drpType w pre res post :
  preImage (this w) drpType = Ok pre ->
  _applyOperation (cloneDeep pre) (mkOperation drpType fn args) = Ok (res, post) ->
  stateChanged pre post = true ->
  hashGraph (this (snd (callFn fn args drpType w)))
  = HashGraph.addToFrontier (hashGraph (this w))
      (localVertex (this w) fn args drpType (Date_now (ticks w))).
Proof.
  intros Hpre Happly Hchanged.
  unfold callFn, bind at 1, gets at 1. cbn [this].
  unfold bind at 1, lift at 1. rewrite Hpre, Happly, Hchanged. cbn [negb].
  unfold bind at 1, now at 1. cbn [this ticks].
  unfold bind at 1, modify at 1. cbn [this ticks delivered logged].
  match goal with
  | |- hashGraph (this (snd (?rest ?w2))) = _ =>
      transitivity (hashGraph (this w2)); [|reflexivity];
      apply (callFn_after_vertex_same_graph _ _ _ _ _ w2)
  end.
Qed.

End CallFn.

(** The reading of C4 as it is worded: an attribute of the post-operation
    clone that is not deep-equal to the attribute of the same name of the
    pre-operation object. *)
Definition attribute_of_clone_differs (pre post : Value) : bool :=
  existsb (fun key => negb (deepEqual (getProp post key) (getProp pre key)))
          (keys post).

(** C4, as amended. [callFn] puts a new vertex in the graph exactly when
    the operation applies to the clone of the pre-image without throwing
    and some attribute of the pre-operation object is not deep-equal to
    the attribute of the same name of the clone after the operation; when
    all of them are deep-equal the call returns the result of the
    operation and the world (graph, vertices list, caches and the rest) is
    as before. The comparison runs over the attributes the pre-image
    has. *)
Theorem callFn_vertex_iff_state_changed `{Platform}
    (fn : string) (args : Value) (drpType : string) (w : World) :
  let vertex := localVertex (this w) fn args drpType (Date_now (ticks w)) in
  let applied pre :=
    _applyOperation (cloneDeep pre) (mkOperation drpType fn args) in
  HashGraph.has (hashGraph (this w)) (v_hash vertex) = false ->
  (HashGraph.has (hashGraph (this (snd (callFn fn args drpType w)))) (v_hash vertex)
     = true
   <-> exists pre res post,
         preImage (this w) drpType = Ok pre
         /\ applied pre = Ok (res, post)
         /\ exists key, In key (keys pre)
                        /\ deepEqual (getProp pre key) (getProp post key) = false)
  /\ (forall pre res post,
        preImage (this w) drpType = Ok pre ->
        applied pre = Ok (res, post) ->
        (exists key, In key (keys pre)
                     /\ deepEqual (getProp pre key) (getProp post key) = false) ->
        hashGraph (this (snd (callFn fn args drpType w)))
        = HashGraph.addToFrontier (hashGraph (this w)) vertex)
  /\ (forall pre res post,
        preImage (this w) drpType = Ok pre ->
        applied pre = Ok (res, post) ->
        (forall key, In key (keys pre) ->
                     deepEqual (getProp pre key) (getProp post key) = true) ->
        callFn fn args drpType w = (Ok res, w)).
Proof.
  intros vertex applied Hfresh. subst applied. cbv beta.
  split; [|split].
  - destruct (preImage (this w) drpType) as [pre|e] eqn:Hpre.
    2: { rewrite (callFn_no_preimage _ _ _ _ _ Hpre). cbn [snd]. rewrite Hfresh.
         split; [discriminate | intros (? & ? & ? & [=] & _)]. }
    destruct (_applyOperation (cloneDeep pre) (mkOperation drpType fn args))
      as [[res post]|e] eqn:Happly.
    2: { rewrite (callFn_throws _ _ _ _ _ _ Hpre Happly). cbn [snd this].
         rewrite Hfresh.
         split; [discriminate | intros (? & ? & ? & [= <-] & Hx & _)].
         rewrite Happly in Hx. discriminate. }
    destruct (stateChanged pre post) eqn:Hchanged.
    + rewrite (callFn_changed_graph _ _ _ _ _ _ _ Hpre Happly Hchanged).
      fold vertex. unfold HashGraph.addToFrontier. split.
      * intros _. exists pre, res, post. repeat split; auto.
        now apply stateChanged_spec.
      * intros _. apply has_link. now left.
    + rewrite (callFn_unchanged _ _ _ _ _ _ _ Hpre Happly Hchanged).
      cbn [snd]. rewrite Hfresh. split; [discriminate|].
      intros (pre' & res' & post' & [= <-] & Hx & Hkey).
      rewrite Happly in Hx. injection Hx as <- <-.
      apply stateChanged_spec in Hkey. congruence.
  - intros pre res post Hpre Happly Hkey. apply stateChanged_spec in Hkey.
    now rewrite (callFn_changed_graph _ _ _ _ _ _ _ Hpre Happly Hkey).
  - intros pre res post Hpre Happly Hall.
    apply (callFn_unchanged _ _ _ _ _ _ _ Hpre Happly).
    destruct (stateChanged pre post) eqn:Hchanged; [|reflexivity].
    apply stateChanged_spec in Hchanged as (key & Hin & Hk).
    rewrite (Hall key Hin) in Hk. discriminate.
Qed.

(** C5. When applying the operation to the clone of the pre-image throws,
    [callFn] returns [undefined] and leaves the object as it was: the
    hash graph, the vertices list, both state caches and the finality
    store are unchanged, the clock is not read, nothing is delivered to
    the subscribers, and the error is logged. *)
Theorem callFn_throwing_operation_is_noop `{Platform}
    (fn : string) (args : Value) (drpType : string) (w : World)
    (pre : Value) (e : Error) :
  preImage (this w) drpType = Ok pre ->
  _applyOperation (cloneDeep pre) (mkOperation drpType fn args) = Err e ->
  fst (callFn fn args drpType w) = Ok VUndefined
  /\ this (snd (callFn fn args drpType w)) = this w
  /\ delivered (snd (callFn fn args drpType w)) = delivered w
  /\ ticks (snd (callFn fn args drpType w)) = ticks w
  /\ logged (snd (callFn fn args drpType w)) = logged w ++ [e].
Proof.
  intros Hpre Happly.
  rewrite (callFn_throws fn args drpType w pre e Hpre Happly).
  repeat split.
Qed.

(** ** The writer check *)

(** The check as C6 words it: [is_writer] asked of the ACL reconstructed
    at the dependencies. *)
Definition writer_at_deps `{Platform} (o : t) (peer : string) (deps : list Hash)
  : Result bool :=
  let? acl := _computeObjectACL o deps None None in
  Ok (query_isWriter acl peer).

(** C6, as amended. With a user DRP registered the check asks [is_writer]
    of the ACL reconstructed at the dependencies; with none it asks the
    live ACL object, whatever the dependencies, the graph and the caches
    are. *)
Theorem _checkWriterPermission_by_mode `{Platform}
    (o : t) (peer : string) (deps : list Hash) :
  (is_Some (drp o) ->
     _checkWriterPermission o peer deps = writer_at_deps o peer deps)
  /\ (drp o = None ->
        _checkWriterPermission o peer deps = Ok (query_isWriter (acl o) peer)
        /\ forall deps',
             _checkWriterPermission o peer deps'
             = _checkWriterPermission o peer deps).
Proof.
  unfold _checkWriterPermission, writer_at_deps.
  split.
  - intros [live Hlive]. now rewrite Hlive.
  - intros Hnone. rewrite Hnone. split; reflexivity.
Qed.

(** ** Construction *)

(** C9, as amended. The constructor fails, with the construction error,
    exactly when neither an ACL nor a public credential is supplied; it
    accepts one of them and it accepts both. A supplied ACL is used as it
    is; without one, the ACL is built permissionless with the creator's
    credential as its only admin. *)
Theorem constructor_needs_acl_or_credential `{Platform}
    (options : Options) (random : string) :
  (constructor options random = Err ConstructionError <->
     o_acl options = None /\ o_publicCredential options = None)
  /\ (isErr (constructor options random) = true <->
        o_acl options = None /\ o_publicCredential options = None)
  /\ (forall supplied, o_acl options = Some supplied ->
        exists o, constructor options random = Ok o /\ acl o = supplied)
  /\ (forall credential,
        o_acl options = None -> o_publicCredential options = Some credential ->
        exists o,
          constructor options random = Ok o
          /\ acl o = newObjectACL
                       (mkACLOptions [(o_peerId options, credential)] true)).
Proof.
  unfold constructor.
  destruct (o_acl options) as [a|], (o_publicCredential options) as [c|]; cbn.
  all: repeat split; try discriminate; try tauto; try congruence.
  all: try (intros [? ?]; discriminate).
  all: try (intros ? [= <-]; eexists; split; reflexivity).
  all: try (intros ? _ [= <-]; eexists; split; reflexivity).
  all: try (intros ? ?; discriminate).
Qed.

(** ** One vertex through the [try] body of a merge loop *)

(** Validation reads the clock and nothing else. *)
Definition only_clock (w w' : World) : Prop :=
  this w' = this w /\ delivered w' = delivered w /\ logged w' = logged w.

#[local] Instance only_clock_preorder : PreOrder only_clock.
Proof.
  split; [intros w; repeat split|].
  intros a b c (? & ? & ?) (? & ? & ?). repeat split; congruence.
Qed.

(** The caches only grow. *)
Definition caches_grow (w w' : World) : Prop :=
  (forall h, is_Some (drpStates (this w) !! h) -> is_Some (drpStates (this w') !! h))
  /\ (forall h, is_Some (aclStates (this w) !! h) -> is_Some (aclStates (this w') !! h)).

#[local] Instance caches_grow_preorder : PreOrder caches_grow.
Proof.
  split; [intros w; split; auto|].
  intros a b c [? ?] [? ?]. split; auto.
Qed.

Section Admit.
Context `{Platform}.

Lemma validateVertex_only_clock vertex : steps only_clock (validateVertex vertex).
Proof. frame ltac:(repeat split). Qed.

Lemma _setObjectACLState_run vertex pre drpState w :
  _setObjectACLState vertex pre drpState w =
  match match drpState with
        | Some s => Ok s
        | None => _computeObjectACLState (this w) (v_dependencies vertex) pre
                    (v_operation vertex)
        end with
  | Ok state =>
      (Ok tt,
       mkWorld (set_aclStates (<[v_hash vertex := state]> (aclStates (this w))) (this w))
         (ticks w) (delivered w) (logged w))
  | Err e => (Err e, w)
  end.
Proof.
  unfold _setObjectACLState, bind, gets, lift, modify. cbn [this].
  destruct drpState; [reflexivity|].
  destruct (_computeObjectACLState _ _ _ _); reflexivity.
Qed.

Lemma _setDRPState_run vertex pre drpState w :
  _setDRPState vertex pre drpState w =
  match match drpState with
        | Some s => Ok s
        | None => _computeDRPState (this w) (v_dependencies vertex) pre
                    (v_operation vertex)
        end with
  | Ok state =>
      (Ok tt,
       mkWorld (set_drpStates (<[v_hash vertex := state]> (drpStates (this w))) (this w))
         (ticks w) (delivered w) (logged w))
  | Err e => (Err e, w)
  end.
Proof.
  unfold _setDRPState, bind, gets, lift, modify. cbn [this].
  destruct drpState; [reflexivity|].
  destruct (_computeDRPState _ _ _ _); reflexivity.
Qed.

Lemma graph_addVertex_run vertex w :
  graph_addVertex vertex w =
  match HashGraph.addVertex (hashGraph (this w)) vertex with
  | Ok g =>
      (Ok tt, mkWorld (set_hashGraph g (this w)) (ticks w) (delivered w) (logged w))
  | Err e => (Err e, w)
  end.
Proof.
  unfold graph_addVertex, bind, gets, lift, modify. cbn [this].
  destruct (HashGraph.addVertex _ _); reflexivity.
Qed.

(** Finality initialisation never throws and writes the finality store
    only. *)
Lemma _initializeFinalityState_run hash w :
  exists store,
    _initializeFinalityState hash w =
    (Ok tt, mkWorld (set_finalityStore store (this w)) (ticks w) (delivered w) (logged w)).
Proof.
  unfold _initializeFinalityState, bind, gets, modify, ret. cbn [this].
  destruct (aclStates (this w) !! hash).
  - eexists. reflexivity.
  - exists (finalityStore (this w)). destruct w as [[] ? ? ?]. reflexivity.
Qed.

Lemma vertex_eta (v : Vertex) :
  mkVertex (v_hash v) (v_peerId v) (v_operation v) (v_dependencies v)
    (v_timestamp v) (v_signature v) = v.
Proof. now destruct v. Qed.

(** Without a DRP: the vertex is linked in the graph or nothing changes
    but the clock. *)
Lemma admitWithoutDrp_world vertex w :
  delivered (snd (admitWithoutDrp vertex w)) = delivered w
  /\ match fst (admitWithoutDrp vertex w) with
     | Ok _ =>
         this (snd (admitWithoutDrp vertex w))
         = set_hashGraph (HashGraph.link (hashGraph (this w)) vertex) (this w)
         /\ HashGraph.has (hashGraph (this w)) (v_hash vertex) = false
     | Err _ => this (snd (admitWithoutDrp vertex w)) = this w
     end.
Proof.
  destruct (admitWithoutDrp vertex w) as [r w'] eqn:Hrun. cbn [fst snd].
  revert Hrun. unfold admitWithoutDrp, bind. rewrite vertex_eta.
  pose proof (validateVertex_only_clock vertex w) as (Hthis & Hdel & _).
  destruct (validateVertex vertex w) as [[[]|e] w1]; cbn [fst snd] in *;
    [|intros [= <- <-]; auto].
  rewrite graph_addVertex_run, Hthis.
  destruct (HashGraph.addVertex (hashGraph (this w)) vertex) as [g|e] eqn:Hadd;
    intros [= <- <-]; cbn [this delivered]; [|auto].
  apply addVertex_Ok in Hadd as [-> Hfresh]. auto.
Qed.

Ltac solve_caches_grow :=
  split; intros h Hh; cbn;
  try assumption;
  match goal with
  | |- is_Some (<[?k := _]> _ !! h) =>
      destruct (decide (k = h)) as [->|];
      [rewrite lookup_insert_eq; eauto | rewrite lookup_insert_ne; assumption]
  end.

Lemma admitWithDrp_caches_grow vertex : steps caches_grow (admitWithDrp vertex).
Proof.
  unfold admitWithDrp, graph_addVertex. frame solve_caches_grow.
Qed.

(** With a DRP: when the body returns, the vertex is linked in the graph
    and both caches hold a state at its hash; when it throws, the graph is
    as it was. *)
Lemma admitWithDrp_graph vertex w :
  match fst (admitWithDrp vertex w) with
  | Ok _ =>
      hashGraph (this (snd (admitWithDrp vertex w)))
      = HashGraph.link (hashGraph (this w)) vertex
      /\ HashGraph.has (hashGraph (this w)) (v_hash vertex) = false
      /\ is_Some (drpStates (this (snd (admitWithDrp vertex w))) !! v_hash vertex)
      /\ is_Some (aclStates (this (snd (admitWithDrp vertex w))) !! v_hash vertex)
  | Err _ =>
      hashGraph (this (snd (admitWithDrp vertex w))) = hashGraph (this w)
  end.
Proof.
  destruct (admitWithDrp vertex w) as [r w'] eqn:Hrun. cbn [fst snd].
  revert Hrun. unfold admitWithDrp. unfold bind at 1.
  pose proof (validateVertex_only_clock vertex w) as (Hthis & _ & _).
  destruct (validateVertex vertex w) as [[[]|e] w1]; cbn [fst snd] in *;
    [|intros [= <- <-]; now rewrite Hthis].
  unfold bind at 1, gets at 1. cbn [this].
  unfold bind at 1, lift at 1.
  rewrite <- Hthis.
  destruct (computeLCA (hashGraph (this w1)) (v_dependencies vertex)) as [pre|e];
    [|intros [= <- <-]; reflexivity].
  destruct (v_operation vertex) as [operation|] eqn:Hop;
    [|intros [= <- <-]; reflexivity].
  unfold bind at 1.
  destruct (String.eqb (drpType operation) DrpType.DRP).
  - unfold bind at 1, lift at 1.
    destruct (_computeDRP (this w1) (v_dependencies vertex) (Some pre) (Some operation))
      as [drp|e]; [|intros [= <- <-]; reflexivity].
    unfold bind at 1. rewrite _setObjectACLState_run, Hop.
    destruct (_computeObjectACLState (this w1) (v_dependencies vertex) (Some pre)
                (Some operation)) as [aclState|e]; [|intros [= <- <-]; reflexivity].
    rewrite _setDRPState_run. cbn [this ticks delivered logged].
    unfold bind at 1. rewrite graph_addVertex_run. cbn [this ticks delivered logged].
    cbn [set_drpStates set_aclStates hashGraph].
    destruct (HashGraph.addVertex (hashGraph (this w1)) vertex) as [g|e] eqn:Hadd;
      [|intros [= <- <-]; reflexivity].
    apply addVertex_Ok in Hadd as [-> Hfresh].
    match goal with
    | |- context [_initializeFinalityState ?h ?w2] =>
        destruct (_initializeFinalityState_run h w2) as [store ->]
    end.
    intros [= <- <-]. cbn. rewrite !lookup_insert_eq. eauto.
  - unfold bind at 1, lift at 1.
    destruct (_computeObjectACL (this w1) (v_dependencies vertex) (Some pre) (Some operation))
      as [acl|e]; [|intros [= <- <-]; reflexivity].
    unfold bind at 1. rewrite _setObjectACLState_run. cbn [this ticks delivered logged].
    rewrite _setDRPState_run, Hop. cbn [this ticks delivered logged].
    cbn [set_aclStates drpStates hashGraph].
    destruct (_computeDRPState _ (v_dependencies vertex) (Some pre) (Some operation))
      as [drpState|e]; [|intros [= <- <-]; reflexivity].
    unfold bind at 1. rewrite graph_addVertex_run. cbn [this ticks delivered logged].
    cbn [set_drpStates set_aclStates hashGraph].
    destruct (HashGraph.addVertex (hashGraph (this w1)) vertex) as [g|e] eqn:Hadd;
      [|intros [= <- <-]; reflexivity].
    apply addVertex_Ok in Hadd as [-> Hfresh].
    match goal with
    | |- context [_initializeFinalityState ?h ?w2] =>
        destruct (_initializeFinalityState_run h w2) as [store ->]
    end.
    intros [= <- <-]. cbn. rewrite !lookup_insert_eq. eauto.
Qed.

End Admit.

(** ** Merging without a DRP *)

Section WithoutDrp.
Context `{Platform}.

Lemma skipped_present o vertex :
  skipped o vertex = true -> is_Some (v_operation vertex) ->
  HashGraph.has (hashGraph o) (v_hash vertex) = true.
Proof.
  unfold skipped. intros Hs [op Hop]. rewrite Hop in Hs.
  rewrite bool_decide_eq_true_2 in Hs by eauto. exact Hs.
Qed.

Lemma checkDependencies_Ok g vertex deps :
  checkDependencies g vertex deps = Ok tt ->
  forallb (HashGraph.has g) deps = true.
Proof.
  induction deps as [|dep rest IH]; simpl; [reflexivity|].
  unfold HashGraph.has at 1.
  destruct (HashGraph.get (HashGraph.vertices g) dep); [|discriminate].
  destruct (_ >? _)%Z; [discriminate|]. exact IH.
Qed.

(** What a successful validation has checked. *)
Lemma validateVertex_Ok vertex w :
  fst (validateVertex vertex w) = Ok tt ->
  forallb (HashGraph.has (hashGraph (this w))) (v_dependencies vertex) = true.
Proof.
  unfold validateVertex.
  destruct (negb _); [discriminate|].
  destruct (_ =? _)%nat; [discriminate|].
  unfold bind, gets, lift. cbn [this].
  destruct (checkDependencies _ _ _) as [[]|e] eqn:Hc; [|discriminate].
  intros _. now apply checkDependencies_Ok in Hc.
Qed.

(** A vertex that reaches the [try] and passes validation is admitted:
    the graph cannot refuse it. *)
Lemma validated_is_admitted vertex w :
  skipped (this w) vertex = false ->
  fst (validateVertex vertex w) = Ok tt ->
  fst (admitWithoutDrp vertex w) = Ok tt
  /\ hashGraph (this (snd (admitWithoutDrp vertex w)))
     = HashGraph.link (hashGraph (this w)) vertex.
Proof.
  intros Hskip Hvalid.
  pose proof (validateVertex_Ok vertex w Hvalid) as Hdeps.
  apply orb_false_iff in Hskip as [_ Hfresh].
  pose proof (validateVertex_only_clock vertex w) as (Hthis & _ & _).
  unfold admitWithoutDrp, bind. rewrite vertex_eta.
  destruct (validateVertex vertex w) as [[[]|e] w1]; cbn [fst snd] in *;
    [|discriminate].
  rewrite graph_addVertex_run, Hthis. unfold HashGraph.addVertex.
  rewrite Hfresh, Hdeps. cbn. auto.
Qed.

Lemma Collected_without_drp w vertices missing w' :
  Collected admitWithoutDrp w vertices missing w' ->
  graph_only w w' /\ graph_grows w w'
  /\ (forall vertex,
        In vertex vertices -> is_Some (v_operation vertex) ->
        ~ In (v_hash vertex) missing ->
        HashGraph.has (hashGraph (this w')) (v_hash vertex) = true).
Proof.
  induction 1 as [w|w vertex rest missing w' Hskip _ (IHo & IHg & IHv)
                 |w vertex rest missing w1 w' Hskip Hbody _ (IHo & IHg & IHv)
                 |w vertex rest missing e w1 w' Hskip Hbody _ (IHo & IHg & IHv)].
  - split; [reflexivity|]. split; [reflexivity|]. intros ? [].
  - split; [exact IHo|]. split; [exact IHg|].
    intros v [<-|Hin] Hop Hnot; [|auto].
    apply IHg. now apply skipped_present.
  - pose proof (admitWithoutDrp_world vertex w) as [Hdel Hw].
    rewrite Hbody in Hdel, Hw. cbn [fst snd] in *. destruct Hw as [Hw Hfresh].
    assert (Hstep : graph_only w w1).
    { split; [|exact Hdel]. rewrite Hw. now destruct (this w). }
    assert (Hgrow : graph_grows w w1).
    { intros h Hh. rewrite Hw. cbn. apply has_link. auto. }
    split; [etransitivity; eauto|]. split; [etransitivity; eauto|].
    intros v [<-|Hin] Hop Hnot; [|auto].
    apply IHg. rewrite Hw. cbn. apply has_link. auto.
  - pose proof (admitWithoutDrp_world vertex w) as [Hdel Hw].
    rewrite Hbody in Hdel, Hw. cbn [fst snd] in *.
    assert (Hstep : graph_only w w1).
    { split; [|exact Hdel]. rewrite Hw. now destruct (this w). }
    assert (Hgrow : graph_grows w w1).
    { intros h Hh. now rewrite Hw. }
    split; [etransitivity; eauto|]. split; [etransitivity; eauto|].
    intros v [<-|Hin] Hop Hnot.
    + exfalso. apply Hnot. now left.
    + apply IHv; auto. intros Hm. apply Hnot. now right.
Qed.

End WithoutDrp.

(** ** The state caches cover the graph *)

(** Every vertex of the graph has a state in both caches. *)
Definition caches_cover (o : t) : Prop :=
  forall h, HashGraph.has (hashGraph o) h = true ->
            is_Some (drpStates o !! h) /\ is_Some (aclStates o !! h).

(** The graph and both caches stay. *)
Definition same_stores (w w' : World) : Prop :=
  hashGraph (this w') = hashGraph (this w)
  /\ drpStates (this w') = drpStates (this w)
  /\ aclStates (this w') = aclStates (this w).

#[local] Instance same_stores_preorder : PreOrder same_stores.
Proof.
  split; [intros w; repeat split|].
  intros a b c (? & ? & ?) (? & ? & ?). repeat split; congruence.
Qed.

Section Cover.
Context `{Platform}.

Ltac solve_same_stores := repeat split.

Lemma refreshLive_same_stores : steps same_stores refreshLive.
Proof. unfold refreshLive. frame solve_same_stores. Qed.

Lemma _notify_same_object origin vs : steps same_object (_notify origin vs).
Proof. intros w. reflexivity. Qed.

(** A vertex the graph did not hold before and holds after. *)
Definition admittedBy (w w' : World) (h : Hash) : Prop :=
  HashGraph.has (hashGraph (this w)) h = false
  /\ HashGraph.has (hashGraph (this w')) h = true.

(** Both caches hold a state at the hash. *)
Definition cachedAt (o : t) (h : Hash) : Prop :=
  is_Some (drpStates o !! h) /\ is_Some (aclStates o !! h).

Lemma same_stores_cached w w' h :
  same_stores w w' -> cachedAt (this w) h -> cachedAt (this w') h.
Proof. intros (_ & Hd & Ha). unfold cachedAt. now rewrite Hd, Ha. Qed.

Lemma caches_grow_cached w w' h :
  caches_grow w w' -> cachedAt (this w) h -> cachedAt (this w') h.
Proof. intros [Hd Ha] [? ?]. split; auto. Qed.

(** Over the loop with a DRP the caches only grow, and every vertex the
    loop adds to the graph has its state in both when it is added. *)
Lemma Collected_with_drp_cached w batch missing w' :
  Collected admitWithDrp w batch missing w' ->
  caches_grow w w'
  /\ forall h, admittedBy w w' h -> cachedAt (this w') h.
Proof.
  induction 1 as [w|w vertex rest missing w' Hskip _ IH
                 |w vertex rest missing w1 w' Hskip Hbody _ [IHgrow IH]
                 |w vertex rest missing e w1 w' Hskip Hbody _ [IHgrow IH]].
  - split; [reflexivity|]. intros h [Hout Hin]. congruence.
  - exact IH.
  - pose proof (admitWithDrp_graph vertex w) as Hg.
    pose proof (admitWithDrp_caches_grow vertex w) as Hgrow.
    rewrite Hbody in Hg, Hgrow. cbn [fst snd] in Hg, Hgrow.
    destruct Hg as (Hg & _ & Hds & Has).
    split; [etransitivity; eauto|].
    intros h [Hout Hin].
    destruct (HashGraph.has (hashGraph (this w1)) h) eqn:Hmid.
    + rewrite Hg in Hmid. apply has_link in Hmid as [->|Hold]; [|congruence].
      apply (caches_grow_cached w1 w'); [exact IHgrow | split; assumption].
    + apply IH. split; assumption.
  - pose proof (admitWithDrp_graph vertex w) as Hg.
    pose proof (admitWithDrp_caches_grow vertex w) as Hgrow.
    rewrite Hbody in Hg, Hgrow. cbn [fst snd] in Hg, Hgrow.
    split; [etransitivity; eauto|].
    intros h [Hout Hin]. apply IH. split; [now rewrite Hg | exact Hin].
Qed.

Lemma _mergeWithDrp_cached batch w h :
  admittedBy w (snd (_mergeWithDrp batch w)) h ->
  cachedAt (this (snd (_mergeWithDrp batch w))) h.
Proof.
  rewrite _mergeWithDrp_steps.
  destruct (mergeLoopWithDrp_collects batch [] [] w)
    as (missing & newVertices & w1 & Heq & Hcol).
  rewrite Heq. cbn [app].
  apply Collected_with_drp_cached in Hcol as [_ Hcached].
  pose proof (refreshLive_same_stores w1) as Hr.
  assert (Hend : forall w2, same_stores w1 w2 ->
                   admittedBy w w2 h -> cachedAt (this w2) h).
  { intros w2 Hs [Hout Hin].
    apply (same_stores_cached w1 w2 h Hs). apply Hcached.
    split; [exact Hout|]. destruct Hs as (Hg & _). now rewrite <- Hg. }
  destruct (refreshLive w1) as [[[]|e] w2]; cbn [fst snd] in *.
  - pose proof (_notify_same_object "merge" newVertices w2) as Hn.
    destruct (_notify "merge" newVertices w2) as [r w3]. cbn [snd] in *.
    unfold same_object in Hn. unfold admittedBy, cachedAt. rewrite Hn.
    now apply Hend.
  - now apply Hend.
Qed.

(** The constructor starts from a covered graph: the root, with a state in
    both caches. *)
Lemma constructor_cover options random o :
  constructor options random = Ok o -> caches_cover o.
Proof.
  unfold constructor.
  destruct (o_acl options), (o_publicCredential options); try discriminate;
    intros [= <-] h; cbn; unfold HashGraph.has; cbn;
    destruct (String.eqb_spec rootHash h) as [<-|]; try discriminate;
    intros _; rewrite !lookup_singleton_eq; eauto.
Qed.

(** Once the vertex is on the frontier and both caches are written, the
    rest of [callFn] keeps them. *)
Lemma callFn_tail_same_stores vertex post (isACL : bool) (res : Value) :
  steps same_stores
    (_initializeFinalityState (v_hash vertex) ;;
     modify (fun o => set_vertices (vertices o ++ [vertex]) o) ;;
     _notify "callFn" [vertex] ;;
     (if negb isACL then
        let! o := gets (fun o => o) in
        match DRPObject.drp o with
        | Some live => modify (set_drp (Some (Object_assign live post)))
        | None => throw (TypeError "Cannot convert undefined or null to object")
        end
      else modify (fun o => set_acl (Object_assign (acl o) post) o)) ;;
     ret res).
Proof. frame solve_same_stores. Qed.

Lemma insert_cached (o : t) vertex (dState aState : DRPState) h :
  HashGraph.has (hashGraph o) h = false ->
  HashGraph.has (HashGraph.addToFrontier (hashGraph o) vertex) h = true ->
  is_Some (<[v_hash vertex := dState]> (drpStates o) !! h)
  /\ is_Some (<[v_hash vertex := aState]> (aclStates o) !! h).
Proof.
  intros Hout Hin. unfold HashGraph.addToFrontier in Hin.
  apply has_link in Hin as [->|Hold]; [|congruence].
  rewrite !lookup_insert_eq. eauto.
Qed.

Lemma callFn_cached fn args drpType w h :
  isErr (fst (callFn fn args drpType w)) = false ->
  admittedBy w (snd (callFn fn args drpType w)) h ->
  cachedAt (this (snd (callFn fn args drpType w))) h.
Proof.
  destruct (preImage (this w) drpType) as [pre|e] eqn:Hpre.
  2: { unfold callFn, bind at 1, gets at 1. cbn [this].
       unfold bind at 1, lift at 1. rewrite Hpre. discriminate. }
  destruct (_applyOperation (cloneDeep pre) (mkOperation drpType fn args))
    as [[res post]|e] eqn:Happly.
  2: { rewrite (callFn_throws _ _ _ _ _ _ Hpre Happly). intros _ [Hout Hin].
       cbn [snd this] in Hin. congruence. }
  destruct (stateChanged pre post) eqn:Hchanged.
  2: { rewrite (callFn_unchanged _ _ _ _ _ _ _ Hpre Happly Hchanged).
       intros _ [Hout Hin]. cbn [snd] in Hin. congruence. }
  destruct (callFn fn args drpType w) as [r w'] eqn:Hrun. cbn [fst snd].
  revert Hrun.
  unfold callFn, bind at 1, gets at 1. cbn [this].
  unfold bind at 1, lift at 1. rewrite Hpre, Happly, Hchanged. cbn [negb].
  unfold bind at 1, now at 1. cbn [this ticks].
  unfold bind at 1, modify at 1. cbn [this ticks delivered logged].
  set (vertex := localVertex (this w) fn args drpType (Date_now (ticks w))).
  unfold bind at 1.
  destruct (String.eqb drpType DrpType.DRP).
  - unfold bind at 1. rewrite _setObjectACLState_run.
    cbn [this ticks delivered logged].
    destruct (_computeObjectACLState _ (v_dependencies vertex) None (v_operation vertex))
      as [aState|e]; [|intros [= <- <-]; discriminate].
    rewrite _setDRPState_run. cbn [this ticks delivered logged].
    match goal with
    | |- ?tail ?w2 = _ -> _ =>
        pose proof (callFn_tail_same_stores vertex post
                      (String.eqb drpType DrpType.ACL) res w2) as Hs
    end.
    intros Hrun. rewrite Hrun in Hs. cbn [snd] in Hs. intros _ [Hout Hin].
    eapply same_stores_cached; [exact Hs|].
    destruct Hs as (Hg & _). rewrite Hg in Hin. cbn in Hin |- *.
    now apply (insert_cached (this w) vertex).
  - unfold bind at 1. rewrite _setObjectACLState_run.
    cbn [this ticks delivered logged].
    rewrite _setDRPState_run. cbn [this ticks delivered logged].
    destruct (_computeDRPState _ (v_dependencies vertex) None (v_operation vertex))
      as [dState|e]; [|intros [= <- <-]; discriminate].
    match goal with
    | |- ?tail ?w2 = _ -> _ =>
        pose proof (callFn_tail_same_stores vertex post
                      (String.eqb drpType DrpType.ACL) res w2) as Hs
    end.
    intros Hrun. rewrite Hrun in Hs. cbn [snd] in Hs. intros _ [Hout Hin].
    eapply same_stores_cached; [exact Hs|].
    destruct Hs as (Hg & _). rewrite Hg in Hin. cbn in Hin |- *.
    now apply (insert_cached (this w) vertex).
Qed.

(** Without a DRP a merge leaves the graph the only thing changed. *)
Lemma _mergeWithoutDrp_same_caches batch w :
  drpStates (this (snd (_mergeWithoutDrp batch w))) = drpStates (this w)
  /\ aclStates (this (snd (_mergeWithoutDrp batch w))) = aclStates (this w).
Proof.
  destruct (mergeLoopWithoutDrp_collects batch [] w) as (missing & w' & Heq & Hc).
  unfold _mergeWithoutDrp, bind. rewrite Heq. cbn [app snd ret].
  apply Collected_without_drp in Hc as ((Hobj & _) & _).
  rewrite Hobj. cbn. split; reflexivity.
Qed.

End Cover.

(** C7, as amended. On an object with a user DRP, every vertex that a
    merge adds to the graph, whether the merge returns or throws after
    its loop, has a state at its hash in [drpStates] and in [aclStates]
    when the merge ends; so has every vertex added by a local call that
    returns. Nothing is assumed of the graph and the caches before the
    call. Without a DRP a merge leaves both caches as they were: the
    vertices it admits get no entry. *)
Theorem caches_cover_with_drp `{Platform} (w : World) :
  (is_Some (drp (this w)) ->
   forall batch h,
     admittedBy w (snd (merge batch w)) h ->
     cachedAt (this (snd (merge batch w))) h)
  /\ (forall fn args drpType h,
        isErr (fst (callFn fn args drpType w)) = false ->
        admittedBy w (snd (callFn fn args drpType w)) h ->
        cachedAt (this (snd (callFn fn args drpType w))) h)
  /\ (drp (this w) = None ->
      forall batch,
        drpStates (this (snd (merge batch w))) = drpStates (this w)
        /\ aclStates (this (snd (merge batch w))) = aclStates (this w)).
Proof.
  split; [|split].
  - intros [live Hlive] batch h. rewrite merge_by_mode, Hlive.
    apply _mergeWithDrp_cached.
  - intros fn args drpType h. apply callFn_cached.
  - intros Hnone batch. rewrite merge_by_mode, Hnone.
    apply _mergeWithoutDrp_same_caches.
Qed.

(** The theorem at work on the object with a counter: the child and its
    parent, merged in this order of the batch, are in the graph with a
    state in both caches. *)
Lemma caches_cover_with_drp_witness :
  let w := Demo.world Demo.withDrp [] in
  let w' := snd (@merge Demo.platform [Demo.parent; Demo.child] w) in
  is_Some (drp (this w))
  /\ admittedBy w w' (v_hash Demo.child)
  /\ cachedAt (this w') (v_hash Demo.child).
Proof.
  intros w w'.
  assert (Hdrp : is_Some (drp (this w))) by (eexists; reflexivity).
  assert (Hadmitted : admittedBy w w' (v_hash Demo.child))
    by (split; vm_compute; reflexivity).
  split; [exact Hdrp|]. split; [exact Hadmitted|].
  exact (proj1 (@caches_cover_with_drp Demo.platform w) Hdrp
           [Demo.parent; Demo.child] (v_hash Demo.child) Hadmitted).
Defined.

(** ** Writing a state back twice *)

Section Refresh.
Context `{Platform}.

(** An entry is written exactly when its key is an own property that does
    not hold a function: what an object inherits is a method. *)
Lemma writable_own fields key :
  inObject (VObj fields) key
  && negb (bool_decide (is_Some (lookupMethod (VObj fields) key)))
  = match getOwn fields key with
    | Some x => negb (is_function x)
    | None => false
    end.
Proof.
  unfold inObject, lookupMethod, readProp. cbn [ownProp].
  destruct (getOwn fields key) as [x|].
  - destruct x; reflexivity.
  - destruct (inherited (VObj fields) key) as [v|] eqn:Hin; cbn; [|reflexivity].
    apply inherited_method in Hin. destruct v; try discriminate. reflexivity.
Qed.

Definition refreshFields (fields : list (string * Value)) (state : DRPState)
  : list (string * Value) :=
  fold_left
    (fun fs entry =>
       if match getOwn fs (fst entry) with
          | Some x => negb (is_function x)
          | None => false
          end
       then setOwn fs (fst entry) (snd entry)
       else fs)
    state fields.

Lemma refresh_object fields state :
  refresh (VObj fields) state = VObj (refreshFields fields state).
Proof.
  unfold refresh, refreshFields. revert fields.
  induction state as [|entry rest IH]; intros fields; [reflexivity|].
  cbn [fold_left]. rewrite writable_own.
  destruct (getOwn fields (fst entry)) as [x|]; [|apply IH].
  destruct (negb (is_function x)); apply IH.
Qed.

Lemma refresh_other current state :
  (forall fields, current <> VObj fields) -> refresh current state = current.
Proof.
  intros Hno. unfold refresh.
  induction state as [|entry rest IH]; [reflexivity|].
  cbn [fold_left].
  replace (inObject current (fst entry)) with false; [exact IH|].
  destruct current; try reflexivity. now destruct (Hno fields).
Qed.

(** One property through the write-back loop: a function stays, anything
    else takes the value written. *)
Definition cell (x : Value) (written : list Value) : Value :=
  fold_left (fun x v => if is_function x then x else v) written x.

Definition written_at (key : string) (state : DRPState) : list Value :=
  map snd (List.filter (fun entry => String.eqb key (fst entry)) state).

Definition written_elsewhere (key : string) (state : DRPState) : DRPState :=
  List.filter (fun entry => negb (String.eqb key (fst entry))) state.

Lemma cell_function x written : is_function x = true -> cell x written = x.
Proof.
  intros Hf. unfold cell. induction written as [|v rest IH]; [reflexivity|].
  cbn [fold_left]. now rewrite Hf.
Qed.


Lemma refreshFields_nil state : refreshFields [] state = [].
Proof.
  unfold refreshFields. induction state as [|entry rest IH]; [reflexivity|exact IH].
Qed.

(** The loop works property by property: the entries of the first key go
    to the first property, the others to the rest of the object. *)
Lemma refreshFields_cons key x rest state :
  refreshFields ((key, x) :: rest) state
  = (key, cell x (written_at key state))
    :: refreshFields rest (written_elsewhere key state).
Proof.
  unfold refreshFields, cell, written_at, written_elsewhere.
  revert x rest.
  induction state as [|[k v] more IH]; intros x rest; [reflexivity|].
  cbn [fold_left List.filter fst snd getOwn setOwn map].
  destruct (String.eqb key k) eqn:Hk; cbn [negb map fold_left].
  - destruct (is_function x); cbn [negb]; apply IH.
  - cbn [fold_left fst snd].
    destruct (getOwn rest k) as [y|]; [destruct (negb (is_function y))|];
      apply IH.
Qed.



End Refresh.

(** ** Merging the same batch again *)

Section MergeTwice.
Context `{Platform}.

(** What the reconstructions read of the object. *)
Lemma _computeObjectACL_ext o o' deps pre op :
  hashGraph o' = hashGraph o -> aclStates o' = aclStates o ->
  originalObjectACL o' = originalObjectACL o ->
  _computeObjectACL o' deps pre op = _computeObjectACL o deps pre op.
Proof. intros Hg Ha Ho. unfold _computeObjectACL. now rewrite Hg, Ha, Ho. Qed.

Lemma _computeDRP_ext o o' deps pre op live live' :
  drp o = Some live -> drp o' = Some live' ->
  hashGraph o' = hashGraph o -> drpStates o' = drpStates o ->
  originalDRP o' = originalDRP o ->
  _computeDRP o' deps pre op = _computeDRP o deps pre op.
Proof.
  intros Hl Hl' Hg Hd Ho. unfold _computeDRP. now rewrite Hl, Hl', Hg, Hd, Ho.
Qed.

(** The refresh of [_mergeWithDrp] as a function of the object. *)
Definition refreshObject (o : t) : Result t :=
  let o1 := set_vertices (HashGraph.getAllVertices (hashGraph o)) o in
  let? aclState :=
    _computeObjectACLState o1 (HashGraph.getFrontier (hashGraph o1)) None None in
  let o2 := set_acl (refresh (acl o1) aclState) o1 in
  match drp o2 with
  | None => Err DRPOrHashgraphUndefined
  | Some live =>
      let? drpState :=
        _computeDRPState o2 (HashGraph.getFrontier (hashGraph o2)) None None in
      Ok (set_drp (Some (refresh live drpState)) o2)
  end.

Lemma refreshLive_run w :
  match refreshObject (this w) with
  | Ok o' => refreshLive w = (Ok tt, mkWorld o' (ticks w) (delivered w) (logged w))
  | Err e => fst (refreshLive w) = Err e
  end.
Proof.
  unfold refreshObject, refreshLive, _updateObjectACLState, _updateDRPState.
  unfold bind, gets, modify, lift, throw. cbn [this ticks delivered logged].
  destruct (_computeObjectACLState _ _ None None) as [aclState|e];
    cbn [rbind fst this]; [|reflexivity].
  destruct (drp (this w)) as [live|] eqn:Hlive; cbn [set_acl set_vertices drp];
    rewrite ?Hlive; [|reflexivity].
  destruct (_computeDRPState _ _ None None) as [drpState|e];
    cbn [rbind fst]; reflexivity.
Qed.

Lemma refreshObject_Ok o o' :
  refreshObject o = Ok o' ->
  exists aclState live drpState,
    _computeObjectACLState o (HashGraph.getFrontier (hashGraph o)) None None
      = Ok aclState
    /\ drp o = Some live
    /\ _computeDRPState o (HashGraph.getFrontier (hashGraph o)) None None
       = Ok drpState
    /\ o' = mk (objectId o) (peerId o) (HashGraph.getAllVertices (hashGraph o))
              (refresh (acl o) aclState) (Some (refresh live drpState))
              (hashGraph o) (drpStates o) (aclStates o) (originalDRP o)
              (originalObjectACL o) (finalityStore o) (subscriptions o).
Proof.
  unfold refreshObject. cbn zeta.
  unfold _computeObjectACLState, _computeDRPState.
  rewrite (_computeObjectACL_ext o (set_vertices _ o)) by reflexivity.
  cbn [set_vertices set_acl set_drp hashGraph acl drp].
  destruct (_computeObjectACL o _ None None) as [a|e]; cbn [rbind]; [|intros [=]].
  destruct (drp o) as [live|] eqn:Hlive; [|intros [=]].
  match goal with
  | |- context [_computeDRP ?o2 _ None None] =>
      rewrite (_computeDRP_ext o o2 _ None None live live)
        by (assumption || reflexivity)
  end.
  destruct (_computeDRP o _ None None) as [d|e]; cbn [rbind]; [|intros [=]].
  intros [= <-]. do 3 eexists. repeat split; reflexivity.
Qed.






Lemma admitWithDrp_grows vertex w : graph_grows w (snd (admitWithDrp vertex w)).
Proof.
  pose proof (admitWithDrp_graph vertex w) as Hg. intros h Hh.
  destruct (fst (admitWithDrp vertex w)).
  - destruct Hg as [-> _]. apply has_link. auto.
  - now rewrite Hg.
Qed.


Lemma admitWithoutDrp_grows vertex w :
  graph_grows w (snd (admitWithoutDrp vertex w)).
Proof.
  pose proof (admitWithoutDrp_world vertex w) as [_ Hw]. intros h Hh.
  destruct (fst (admitWithoutDrp vertex w)).
  - destruct Hw as [-> _]. cbn. apply has_link. auto.
  - now rewrite Hw.
Qed.






End MergeTwice.


(** ** Reading and writing attributes *)

Section Attributes.

Lemma getOwn_setOwn_eq fields key v : getOwn (setOwn fields key v) key = Some v.
Proof.
  induction fields as [|[k x] rest IH]; simpl.
  - now rewrite String.eqb_refl.
  - destruct (String.eqb k key) eqn:E; simpl; rewrite E; auto.
Qed.

Lemma getOwn_setOwn_ne fields key v key' :
  key <> key' -> getOwn (setOwn fields key v) key' = getOwn fields key'.
Proof.
  intros Hne. induction fields as [|[k x] rest IH]; simpl.
  - destruct (String.eqb_spec key key'); congruence.
  - destruct (String.eqb_spec k key) as [->|Hk]; simpl.
    + destruct (String.eqb_spec key key'); congruence.
    + destruct (String.eqb_spec k key'); auto.
Qed.

(** Writing the value a property already has changes nothing. *)
Lemma setOwn_same fields key v : getOwn fields key = Some v -> setOwn fields key v = fields.
Proof.
  induction fields as [|[k x] rest IH]; simpl; [discriminate|].
  destruct (String.eqb k key).
  - now intros [= ->].
  - intros Hg. now rewrite IH.
Qed.

Lemma getOwn_In fields key : In key (map fst fields) -> is_Some (getOwn fields key).
Proof.
  induction fields as [|[k x] rest IH]; simpl; [intros []|].
  destruct (String.eqb_spec k key) as [->|Hne]; [eauto|].
  intros [Heq|Hin]; [congruence | auto].
Qed.

(** A key the state does not mention keeps its value. *)
Lemma assignState_get_out fields state key :
  ~ In key (map fst state) ->
  getProp (assignState (VObj fields) state) key = getProp (VObj fields) key.
Proof.
  unfold assignState. revert fields.
  induction state as [|[k v] rest IH]; intros fields Hnot; [reflexivity|].
  cbn [fold_left fst snd setProp]. rewrite IH by (simpl in Hnot; tauto).
  cbn [getProp]. rewrite getOwn_setOwn_ne; [reflexivity|].
  simpl in Hnot. tauto.
Qed.

(** A key whose entries all carry the same value reads that value. *)
Lemma assignState_get_in fields state key v :
  (forall entry, In entry state -> fst entry = key -> snd entry = v) ->
  getOwn fields key = Some v \/ In key (map fst state) ->
  getProp (assignState (VObj fields) state) key = v.
Proof.
  unfold assignState. revert fields.
  induction state as [|[k x] rest IH]; intros fields Hall Hsome.
  - destruct Hsome as [Hg|[]]. cbn. now rewrite Hg.
  - cbn [fold_left fst snd setProp].
    apply IH; [intros entry Hin; apply Hall; now right|].
    destruct (String.eqb_spec k key) as [->|Hne].
    + left. rewrite getOwn_setOwn_eq. f_equal.
      apply (Hall (key, x)); [now left | reflexivity].
    + rewrite getOwn_setOwn_ne by assumption.
      destruct Hsome as [Hg|[Heq|Hin]]; [now left | now destruct Hne | now right].
Qed.

Lemma _getDRPState_keys obj : map fst (_getDRPState obj) = keys obj.
Proof.
  unfold _getDRPState, DRPStateEntry_create. rewrite map_map. cbn. apply map_id.
Qed.

(** An entry holds the attribute, [undefined] where the attribute is
    [null]. *)
Lemma _getDRPState_entry obj entry :
  In entry (_getDRPState obj) -> snd entry = nullish (getProp obj (fst entry)).
Proof.
  unfold _getDRPState, DRPStateEntry_create. rewrite in_map_iff.
  intros (k & <- & _). reflexivity.
Qed.

Lemma nullish_idempotent v : nullish (nullish v) = nullish v.
Proof. now destruct v. Qed.

Lemma nullish_not_null v : v <> VNull -> nullish v = v.
Proof. intros Hv. destruct v; try reflexivity. now destruct Hv. Qed.

(** Loading the snapshot of an object: its attributes, over those of the
    object loaded on. *)
Lemma load_snapshot_in fields obj key :
  In key (keys obj) ->
  getProp (assignState (VObj fields) (_getDRPState obj)) key
  = nullish (getProp obj key).
Proof.
  intros Hin. apply assignState_get_in.
  - intros entry He <-. now apply _getDRPState_entry.
  - right. now rewrite _getDRPState_keys.
Qed.

Lemma load_snapshot_out fields obj key :
  ~ In key (keys obj) ->
  getProp (assignState (VObj fields) (_getDRPState obj)) key
  = getProp (VObj fields) key.
Proof.
  intros Hnot. apply assignState_get_out. now rewrite _getDRPState_keys.
Qed.

Lemma clone_entries (state : DRPState) :
  map (fun e => (fst e, cloneDeep (snd e))) state = state.
Proof.
  unfold cloneDeep. induction state as [|[k v] rest IH]; [reflexivity|].
  cbn. now rewrite IH.
Qed.

End Attributes.

(** ** Reconstruction at a single head *)

(** Put a known cache entry in place of the lookup the goal branches on. *)
Ltac fetched H :=
  match goal with
  | |- context [match ?x with Some _ => _ | None => _ end] =>
      match type of H with
      | _ = ?entry => replace x with entry by (symmetry; exact H)
      end
  end.

Section SingleHead.
Context `{Platform}.

(** With one dependency there is nothing to linearise: the state cached
    at the dependency is laid over the original object. *)
Lemma _computeDRP_single o live original (head : Hash) state :
  drp o = Some live -> originalDRP o = Some original ->
  drpStates o !! head = Some state ->
  _computeDRP o [head] None None = Ok (assignState original state).
Proof.
  intros Hlive Horig Hstate. unfold _computeDRP, computeLCA.
  rewrite Hlive, Horig. cbv beta iota delta [rbind]. fetched Hstate. rewrite clone_entries. reflexivity.
Qed.

Lemma _computeObjectACL_single o (head : Hash) state :
  aclStates o !! head = Some state ->
  _computeObjectACL o [head] None None
  = Ok (assignState (originalObjectACL o) state).
Proof.
  intros Hstate. unfold _computeObjectACL, computeLCA.
  cbv beta iota delta [rbind]. fetched Hstate. rewrite clone_entries. reflexivity.
Qed.

(** An operation of the other kind is not applied. *)
Lemma _computeDRP_single_other o live original (head : Hash) state op :
  drp o = Some live -> originalDRP o = Some original ->
  drpStates o !! head = Some state ->
  String.eqb (drpType op) DrpType.DRP = false ->
  _computeDRP o [head] None (Some op) = Ok (assignState original state).
Proof.
  intros Hlive Horig Hstate Hop. unfold _computeDRP, computeLCA.
  rewrite Hlive, Horig. cbv beta iota delta [rbind]. fetched Hstate. rewrite clone_entries, Hop.
  reflexivity.
Qed.

Lemma _computeObjectACL_single_other o (head : Hash) state op :
  aclStates o !! head = Some state ->
  String.eqb (drpType op) DrpType.ACL = false ->
  _computeObjectACL o [head] None (Some op)
  = Ok (assignState (originalObjectACL o) state).
Proof.
  intros Hstate Hop. unfold _computeObjectACL, computeLCA.
  cbv beta iota delta [rbind]. fetched Hstate. rewrite clone_entries, Hop. reflexivity.
Qed.

End SingleHead.

(** X2. The state of a DRP through the round trip of a cache: when the
    snapshot [_getDRPState obj] is the state cached at a vertex, the DRP
    reconstructed with that vertex as only dependency reads, at every
    attribute of [obj], the value [obj] has there, but [undefined] where
    [obj] holds [null] (a state entry is created with
    [value ?? undefined]), and at any other attribute the value of the
    original DRP. An attribute that is not [null] is read back as it
    was. No operation is replayed and the hash graph is not consulted. *)
Theorem _computeDRP_reads_back_snapshot `{Platform}
    (o : t) (live : Value) (original : list (string * Value)) (head : Hash)
    (obj : Value) :
  drp o = Some live ->
  originalDRP o = Some (VObj original) ->
  drpStates o !! head = Some (_getDRPState obj) ->
  exists rebuilt,
    _computeDRP o [head] None None = Ok rebuilt
    /\ (forall key, In key (keys obj) ->
                    getProp rebuilt key = nullish (getProp obj key))
    /\ (forall key, In key (keys obj) -> getProp obj key <> VNull ->
                    getProp rebuilt key = getProp obj key)
    /\ (forall key, ~ In key (keys obj) ->
                    getProp rebuilt key = getProp (VObj original) key).
Proof.
  intros Hlive Horig Hstate.
  exists (assignState (VObj original) (_getDRPState obj)).
  split; [now apply (_computeDRP_single o live)|].
  split; [intros key Hkey; now apply load_snapshot_in|].
  split; [|intros key Hkey; now apply load_snapshot_out].
  intros key Hkey Hnot. rewrite load_snapshot_in by assumption.
  now apply nullish_not_null.
Qed.

(** ** The errors of [_applyOperation] *)

Section ApplyErrors.
Context `{Platform}.

(** One step along a dotted name. *)
Lemma applyPath_step opType target part part' rest value :
  applyPath opType target (part :: part' :: rest) value
  = if truthy (readProp target part) then
      let? (result, next') :=
        applyPath opType (readProp target part) (part' :: rest) value in
      Ok (result, putBack target part (readProp target part) next')
    else Err (InvalidOperationType opType).
Proof. reflexivity. Qed.

End ApplyErrors.

(** X1. [_applyOperation] throws one of its own three errors, each naming
    the operation type: "Invalid operation type" only for a dotted name,
    when a name on the way to the method reads a falsy value;
    "is not a function" when the last name is not a method; and whatever
    the method throws, or the failure to spread a value that is not
    iterable, wrapped in "Error while applying operation". The error of a
    method never escapes unwrapped. *)
Theorem _applyOperation_throws_own_errors `{Platform}
    (drp : Value) (operation : Operation) (e : Error) :
  _applyOperation drp operation = Err e ->
  (e = InvalidOperationType (opType operation)
   /\ (2 <= length (split_dots (opType operation)))%nat)
  \/ e = NotAFunction (opType operation)
  \/ exists cause, e = ApplyingOperation (opType operation) cause.
Proof.
  unfold _applyOperation.
  generalize (split_dots (opType operation)) as typeParts.
  generalize (opType operation) as name. generalize (value operation) as args.
  intros args name typeParts. revert drp e.
  induction typeParts as [|part rest IH]; intros target e.
  - cbn. intros [= <-]. auto.
  - destruct rest as [|part' rest'].
    + cbn. destruct (lookupMethod target part) as [method|];
        [|intros [= <-]; auto].
      destruct (rbind _ _); [discriminate|]. intros [= <-]. eauto.
    + rewrite applyPath_step.
      destruct (truthy (readProp target part));
        [|intros [= <-]; left; cbn; split; [reflexivity|lia]].
      destruct (applyPath name (readProp target part) (part' :: rest') args)
        as [[result next]|e'] eqn:Hrec; [cbn; intros [=]|].
      cbn. intros [= <-].
      destruct (IH _ _ Hrec) as [[-> _]|Hother]; [|auto].
      left. split; [reflexivity | cbn; lia].
Qed.

(** ** The states at the root *)

Section Root.
Context `{Platform}.

(** Entries that repeat what the object holds change nothing. *)
Lemma assignState_same fields state :
  (forall entry, In entry state -> getOwn fields (fst entry) = Some (snd entry)) ->
  assignState (VObj fields) state = VObj fields.
Proof.
  unfold assignState. induction state as [|[k v] rest IH]; intros Hall; [reflexivity|].
  cbn [fold_left fst snd setProp].
  rewrite (setOwn_same fields k v) by (apply (Hall (k, v)); now left).
  apply IH. intros entry Hin. apply Hall. now right.
Qed.

Lemma keys_setOwn fields key v :
  In key (map fst fields) -> map fst (setOwn fields key v) = map fst fields.
Proof.
  induction fields as [|[k x] rest IH]; simpl; [intros []|].
  destruct (String.eqb_spec k key) as [->|Hne]; [reflexivity|].
  intros [Heq|Hin]; [congruence|]. simpl. now rewrite IH.
Qed.

(** Entries at keys the object has leave its keys as they are. *)
Lemma assignState_keys fields state :
  (forall entry, In entry state -> In (fst entry) (map fst fields)) ->
  keys (assignState (VObj fields) state) = map fst fields.
Proof.
  unfold assignState. revert fields.
  induction state as [|[k v] rest IH]; intros fields Hall; [reflexivity|].
  cbn [fold_left fst snd setProp].
  assert (Hk : In k (map fst fields)) by (apply (Hall (k, v)); now left).
  rewrite IH; [now apply keys_setOwn|].
  intros entry Hin. rewrite keys_setOwn by exact Hk. apply Hall. now right.
Qed.

(** An entry of the root snapshot is made from an own property that does
    not hold a function. *)
Lemma rootEntries_own fields (names : list string) entry :
  In entry
     (omap (fun key =>
              let v := getProp (VObj fields) key in
              if is_function v then None
              else Some (DRPStateEntry_create key (cloneDeep v))) names) ->
  (forall key, In key names -> In key (map fst fields)) ->
  exists x,
    getOwn fields (fst entry) = Some x
    /\ snd entry = nullish x
    /\ is_function x = false
    /\ In (fst entry) names.
Proof.
  induction names as [|key rest IH]; [intros []|].
  intros Hin Hnames. cbn [omap list_omap] in Hin. cbv zeta in Hin.
  destruct (is_function (getProp (VObj fields) key)) eqn:Hfun.
  - destruct IH as (x & ? & ? & ? & ?); [exact Hin | intros; apply Hnames; now right|].
    exists x. repeat split; auto. now right.
  - destruct Hin as [<-|Hin].
    + unfold DRPStateEntry_create, cloneDeep. cbn [fst snd].
      destruct (getOwn_In fields key) as [x Hx]; [apply Hnames; now left|].
      cbn [getProp] in *. rewrite Hx in *. cbn [default] in *.
      exists x. repeat split; auto. now left.
    + destruct IH as (x & ? & ? & ? & ?); [exact Hin | intros; apply Hnames; now right|].
      exists x. repeat split; auto. now right.
Qed.

(** Every own property that does not hold a function has its entry. *)
Lemma rootEntries_complete obj (names : list string) key :
  In key names -> is_function (getProp obj key) = false ->
  In key
     (map fst
        (omap (fun key =>
                 let v := getProp obj key in
                 if is_function v then None
                 else Some (DRPStateEntry_create key (cloneDeep v))) names)).
Proof.
  intros Hin Hfun. induction names as [|name rest IH]; [destruct Hin|].
  cbn [omap list_omap]. cbv zeta.
  destruct Hin as [->|Hin].
  - rewrite Hfun. now left.
  - destruct (is_function (getProp obj name)); [auto | right; auto].
Qed.

Lemma is_function_nullish v : is_function (nullish v) = is_function v.
Proof. now destruct v. Qed.

Lemma nullish_function v : is_function v = true -> nullish v = v.
Proof. now destruct v. Qed.

(** The root snapshot of an object holds no function. *)
Lemma rootState_no_function obj entry :
  In entry (rootState obj) -> is_function (snd entry) = false.
Proof.
  destruct obj as [| | | | | |fields|]; try (intros []).
  unfold rootState. cbn [keys]. intros Hin.
  destruct (rootEntries_own fields (map fst fields) entry Hin) as (x & _ & -> & ? & _);
    [auto|].
  now rewrite is_function_nullish.
Qed.

(** An object that holds [null] in no attribute. *)
Definition noNull (obj : Value) : Prop := forall key, getProp obj key <> VNull.

(** Laid over the object it was taken from, the root snapshot gives the
    object back with [undefined] where it held [null]: the same keys, and
    at every key the value the object has, [null] apart. *)
Lemma assignState_rootState_keys obj : keys (assignState obj (rootState obj)) = keys obj.
Proof.
  destruct obj as [| | | | | |fields|]; try reflexivity.
  apply assignState_keys. intros entry Hin.
  unfold rootState in Hin. cbn [keys] in Hin.
  destruct (rootEntries_own fields (map fst fields) entry Hin) as (_ & _ & _ & _ & ?);
    auto.
Qed.

Lemma assignState_rootState_get obj key :
  getProp (assignState obj (rootState obj)) key = nullish (getProp obj key).
Proof.
  destruct obj as [| | | | | |fields|]; try reflexivity.
  destruct (in_dec string_dec key (map fst (rootState (VObj fields)))) as [Hin|Hout].
  - apply assignState_get_in; [|now right].
    intros entry He <-. unfold rootState in He. cbn [keys] in He.
    destruct (rootEntries_own fields (map fst fields) entry He) as (x & Hx & -> & _);
      [auto|].
    cbn [getProp]. now rewrite Hx.
  - rewrite assignState_get_out by exact Hout.
    destruct (is_function (getProp (VObj fields) key)) eqn:Hfun;
      [now rewrite nullish_function|].
    destruct (in_dec string_dec key (map fst fields)) as [Hown|Hnone].
    + destruct Hout. unfold rootState. cbn [keys].
      now apply rootEntries_complete.
    + cbn [getProp].
      destruct (getOwn fields key) as [x|] eqn:Hx; [|reflexivity].
      destruct Hnone. clear - Hx.
      induction fields as [|[k y] rest IH]; simpl in *; [discriminate|].
      destruct (String.eqb_spec k key); [now left | right; auto].
Qed.

Lemma assignState_rootState obj : noNull obj -> assignState obj (rootState obj) = obj.
Proof.
  intros Hnone.
  destruct obj as [| | | | | |fields|]; try reflexivity.
  apply assignState_same. intros entry Hin.
  unfold rootState in Hin. cbn [keys] in Hin.
  destruct (rootEntries_own fields (map fst fields) entry Hin) as (x & Hx & -> & _);
    [auto|].
  rewrite Hx. f_equal. symmetry. apply nullish_not_null.
  specialize (Hnone (fst entry)). cbn [getProp] in Hnone. now rewrite Hx in Hnone.
Qed.

(** What a reconstruction from the root snapshot of [given] yields. *)
Definition givenBack (given pre : Value) : Prop :=
  keys pre = keys given
  /\ (forall key, getProp pre key = nullish (getProp given key))
  /\ (noNull given -> pre = given).

Lemma givenBack_rootState obj : givenBack obj (assignState obj (rootState obj)).
Proof.
  split; [apply assignState_rootState_keys|].
  split; [apply assignState_rootState_get | apply assignState_rootState].
Qed.

Lemma constructor_Ok options random o :
  constructor options random = Ok o ->
  exists objAcl,
    o = mk (default (SHA256.sha256_hex (o_peerId options +:+ random)) (o_id options))
           (o_peerId options) [rootVertex] objAcl (o_drp options)
           (HashGraph.create rootVertex)
           {[ rootHash := rootState (default (VObj []) (o_drp options)) ]}
           {[ rootHash := rootState objAcl ]}
           (o_drp options) objAcl ∅ []
    /\ objAcl = match o_acl options with
                | Some a => a
                | None =>
                    newObjectACL
                      (mkACLOptions
                         [(o_peerId options,
                           default VUndefined (o_publicCredential options))] true)
                end.
Proof.
  unfold constructor.
  destruct (o_acl options) as [a|], (o_publicCredential options) as [c|];
    try discriminate; intros [= <-]; eexists; split; try reflexivity;
    unfold cloneDeep; destruct (o_drp options); reflexivity.
Qed.

Lemma getFrontier_create root : HashGraph.getFrontier (HashGraph.create root) = [v_hash root].
Proof. reflexivity. Qed.

End Root.

(** X3. What a new object reconstructs. Right after construction the
    frontier is the root, and the pre-image of a local call is, for the
    ACL, the ACL the object holds (the one supplied or the default one)
    and, for the DRP, the DRP supplied, in this sense: the same keys, and
    at every attribute the value given, but [undefined] where [null] was
    given, because the root snapshot is made of entries created with
    [value ?? undefined]; an object given without any [null] attribute is
    the pre-image itself. Without a DRP the pre-image of a DRP call is the
    error "DRP is undefined". The snapshots [_setRootStates] stores at the
    root hold no function. *)
Theorem constructor_reconstructs_given_state `{Platform}
    (options : Options) (random : string) (o : t) :
  constructor options random = Ok o ->
  (exists pre, preImage o DrpType.ACL = Ok pre /\ givenBack (acl o) pre)
  /\ originalObjectACL o = acl o
  /\ match o_drp options with
     | Some given =>
         drp o = Some given
         /\ exists pre, preImage o DrpType.DRP = Ok pre /\ givenBack given pre
     | None => drp o = None /\ preImage o DrpType.DRP = Err DRPUndefined
     end
  /\ (forall state entry,
        aclStates o !! rootHash = Some state \/ drpStates o !! rootHash = Some state ->
        In entry state -> is_function (snd entry) = false).
Proof.
  intros Hctor. apply constructor_Ok in Hctor as (objAcl & -> & _).
  unfold preImage. cbn [hashGraph acl originalObjectACL drp aclStates drpStates].
  rewrite getFrontier_create. cbn [v_hash rootVertex].
  split; [|split; [reflexivity|split]].
  - rewrite String.eqb_refl.
    rewrite (_computeObjectACL_single _ rootHash (rootState objAcl))
      by (cbn; apply lookup_singleton_eq).
    cbn [originalObjectACL]. eexists. split; [reflexivity|].
    apply givenBack_rootState.
  - destruct (o_drp options) as [given|]; (split; [reflexivity|]).
    + change (String.eqb DrpType.DRP DrpType.ACL) with false. cbv iota.
      rewrite (_computeDRP_single _ given given rootHash (rootState given));
        try reflexivity; [|cbn; apply lookup_singleton_eq].
      eexists. split; [reflexivity|]. apply givenBack_rootState.
    + reflexivity.
  - intros state entry [Hs|Hs] Hin;
      rewrite lookup_singleton_eq in Hs; injection Hs as <-;
      now apply rootState_no_function in Hin.
Qed.

(** ** A local call that changes the state, step by step *)

Section LocalRun.
Context `{Platform}.

(** The finality store after [_initializeFinalityState hash]. *)
Definition finalityAt (o : t) (hash : Hash) : FinalityStore.t :=
  match aclStates o !! hash with
  | Some fetchedState =>
      FinalityStore.initializeState (finalityStore o) hash
        (query_getFinalitySigners
           (assignState (cloneDeep (originalObjectACL o))
              (map (fun e => (fst e, cloneDeep (snd e))) fetchedState)))
  | None => finalityStore o
  end.

Lemma _initializeFinalityState_eq hash w :
  _initializeFinalityState hash w
  = (Ok tt,
     mkWorld (set_finalityStore (finalityAt (this w) hash) (this w))
       (ticks w) (delivered w) (logged w)).
Proof.
  unfold _initializeFinalityState, finalityAt, bind, gets, modify, ret. cbn [this].
  destruct (aclStates (this w) !! hash); [reflexivity|].
  destruct w as [[] ? ? ?]. reflexivity.
Qed.

(** The two cache writes of [callFn], with the object as a throw of the
    second one leaves it. *)
Definition writeCaches (o : t) (vertex : Vertex) (post : Value) (drpType : string)
  : Result unit * t :=
  if String.eqb drpType DrpType.DRP then
    match _computeObjectACLState o (v_dependencies vertex) None (v_operation vertex) with
    | Ok aclState =>
        (Ok tt,
         set_drpStates (<[v_hash vertex := _getDRPState post]> (drpStates o))
           (set_aclStates (<[v_hash vertex := aclState]> (aclStates o)) o))
    | Err e => (Err e, o)
    end
  else
    let o' :=
      set_aclStates (<[v_hash vertex := _getDRPState post]> (aclStates o)) o in
    match _computeDRPState o' (v_dependencies vertex) None (v_operation vertex) with
    | Ok drpState =>
        (Ok tt, set_drpStates (<[v_hash vertex := drpState]> (drpStates o')) o')
    | Err e => (Err e, o')
    end.

(** What follows the cache writes: the finality state, the vertices
    list, and after the subscribers the live object. *)
Definition settle (o : t) (vertex : Vertex) : t :=
  set_vertices (vertices o ++ [vertex])
    (set_finalityStore (finalityAt o (v_hash vertex)) o).

Definition callFnNotice (o : t) (vertex : Vertex) : list Notification :=
  map (fun cb => mkNotification cb "callFn" [vertex]) (subscriptions o).

Lemma callFn_changed_run fn args drpType w pre res post :
  preImage (this w) drpType = Ok pre ->
  _applyOperation (cloneDeep pre) (mkOperation drpType fn args) = Ok (res, post) ->
  stateChanged pre post = true ->
  let vertex := localVertex (this w) fn args drpType (Date_now (ticks w)) in
  let o1 :=
    set_hashGraph (HashGraph.addToFrontier (hashGraph (this w)) vertex) (this w) in
  callFn fn args drpType w =
  match writeCaches o1 vertex post drpType with
  | (Err e, o2) => (Err e, mkWorld o2 (S (ticks w)) (delivered w) (logged w))
  | (Ok _, o2) =>
      let o3 := settle o2 vertex in
      let delivered' := delivered w ++ callFnNotice o3 vertex in
      if String.eqb drpType DrpType.ACL then
        (Ok res,
         mkWorld (set_acl (Object_assign (acl o3) post) o3) (S (ticks w))
           delivered' (logged w))
      else
        match drp o3 with
        | Some live =>
            (Ok res,
             mkWorld (set_drp (Some (Object_assign live post)) o3) (S (ticks w))
               delivered' (logged w))
        | None =>
            (Err (TypeError "Cannot convert undefined or null to object"),
             mkWorld o3 (S (ticks w)) delivered' (logged w))
        end
  end.
Proof.
  intros Hpre Happly Hchanged vertex o1.
  unfold callFn, bind at 1, gets at 1. cbn [this].
  unfold bind at 1, lift at 1. rewrite Hpre, Happly, Hchanged. cbn [negb].
  unfold bind at 1, now at 1. cbn [this ticks].
  unfold bind at 1, modify at 1. cbn [this ticks delivered logged].
  fold vertex. fold o1. clearbody o1 vertex.
  unfold writeCaches. unfold bind at 1.
  destruct (String.eqb drpType DrpType.DRP).
  - unfold bind at 1. rewrite _setObjectACLState_run. cbn [this ticks delivered logged].
    destruct (_computeObjectACLState o1 (v_dependencies vertex) None (v_operation vertex))
      as [aclState|e]; [|reflexivity].
    rewrite _setDRPState_run. cbn [this ticks delivered logged].
    unfold bind at 1. rewrite _initializeFinalityState_eq.
    cbn [this ticks delivered logged].
    unfold bind, modify, _notify, gets, ret, throw. cbn [this ticks delivered logged].
    destruct (String.eqb drpType DrpType.ACL); cbn [negb]; [reflexivity|].
    unfold settle.
    cbn [this drp set_vertices set_finalityStore set_drpStates set_aclStates].
    destruct (drp o1); reflexivity.
  - unfold bind at 1. rewrite _setObjectACLState_run. cbn [this ticks delivered logged].
    rewrite _setDRPState_run. cbn [this ticks delivered logged]. cbv zeta.
    destruct (_computeDRPState _ (v_dependencies vertex) None (v_operation vertex))
      as [drpState|e]; [|reflexivity].
    unfold bind at 1. rewrite _initializeFinalityState_eq.
    cbn [this ticks delivered logged].
    unfold bind, modify, _notify, gets, ret, throw. cbn [this ticks delivered logged].
    destruct (String.eqb drpType DrpType.ACL); cbn [negb]; [reflexivity|].
    unfold settle.
    cbn [this drp set_vertices set_finalityStore set_drpStates set_aclStates].
    destruct (drp o1); reflexivity.
Qed.

End LocalRun.

(** Read the fields of the object a local call leaves. *)
Ltac local_fields :=
  cbn [this ticks delivered logged objectId peerId vertices acl drp hashGraph
         drpStates aclStates originalDRP originalObjectACL finalityStore
         subscriptions set_vertices set_acl set_drp set_hashGraph set_drpStates
         set_aclStates set_finalityStore set_subscriptions].

(** X6. A local call that created a vertex and returned. The call returns
    what the operation returned; the clock is read once and nothing is
    logged. The new vertex is linked below the frontier and appended to
    the vertices list, and every subscriber, in the order of
    subscription, receives one "callFn" notification carrying that
    vertex. The snapshot of the post-operation object is cached at the
    vertex for the kind of the call, a state is cached at the vertex for
    the other kind, and the live object of the kind of the call is the
    old one with the post-operation object assigned over it; the other
    live object and the originals are as they were. *)
Theorem callFn_returning_with_vertex `{Platform}
    (fn : string) (args : Value) (drpType : string) (w : World)
    (pre res post r : Value) (w' : World) :
  preImage (this w) drpType = Ok pre ->
  _applyOperation (cloneDeep pre) (mkOperation drpType fn args) = Ok (res, post) ->
  stateChanged pre post = true ->
  callFn fn args drpType w = (Ok r, w') ->
  let vertex := localVertex (this w) fn args drpType (Date_now (ticks w)) in
  r = res
  /\ ticks w' = S (ticks w)
  /\ logged w' = logged w
  /\ delivered w'
     = delivered w
       ++ map (fun cb => mkNotification cb "callFn" [vertex]) (subscriptions (this w))
  /\ vertices (this w') = vertices (this w) ++ [vertex]
  /\ hashGraph (this w') = HashGraph.addToFrontier (hashGraph (this w)) vertex
  /\ subscriptions (this w') = subscriptions (this w)
  /\ originalDRP (this w') = originalDRP (this w)
  /\ originalObjectACL (this w') = originalObjectACL (this w)
  /\ (if String.eqb drpType DrpType.ACL then
        acl (this w') = Object_assign (acl (this w)) post
        /\ drp (this w') = drp (this w)
      else
        acl (this w') = acl (this w)
        /\ exists live,
             drp (this w) = Some live
             /\ drp (this w') = Some (Object_assign live post))
  /\ (if String.eqb drpType DrpType.DRP then
        drpStates (this w')
        = <[v_hash vertex := _getDRPState post]> (drpStates (this w))
        /\ exists aclState,
             aclStates (this w') = <[v_hash vertex := aclState]> (aclStates (this w))
      else
        aclStates (this w')
        = <[v_hash vertex := _getDRPState post]> (aclStates (this w))
        /\ exists drpState,
             drpStates (this w') = <[v_hash vertex := drpState]> (drpStates (this w))).
Proof.
  intros Hpre Happly Hchanged Hrun vertex.
  rewrite (callFn_changed_run fn args drpType w pre res post Hpre Happly Hchanged)
    in Hrun.
  cbv zeta in Hrun. fold vertex in Hrun. clearbody vertex. revert Hrun.
  unfold writeCaches, settle, callFnNotice.
  destruct (String.eqb drpType DrpType.DRP) eqn:Hdrp.
  - destruct (_computeObjectACLState _ (v_dependencies vertex) None (v_operation vertex))
      as [aclState|e]; [|intros [=]].
    cbn [drp subscriptions vertices set_vertices set_finalityStore set_drpStates
           set_aclStates set_hashGraph].
    destruct (String.eqb drpType DrpType.ACL).
    + intros [= <- <-]. local_fields.
      do 9 (split; [reflexivity|]). split; [split; reflexivity|].
      split; [reflexivity | now exists aclState].
    + destruct (drp (this w)) as [live|] eqn:Hlive; intros [= <- <-]. local_fields.
      do 9 (split; [reflexivity|]).
      split; [|split; [reflexivity | now exists aclState]].
      split; [reflexivity|]. exists live. split; reflexivity.
  - cbv zeta.
    destruct (_computeDRPState _ (v_dependencies vertex) None (v_operation vertex))
      as [drpState|e]; [|intros [=]].
    cbn [drp subscriptions vertices set_vertices set_finalityStore set_drpStates
           set_aclStates set_hashGraph].
    destruct (String.eqb drpType DrpType.ACL).
    + intros [= <- <-]. local_fields.
      do 9 (split; [reflexivity|]). split; [split; reflexivity|].
      split; [reflexivity | now exists drpState].
    + destruct (drp (this w)) as [live|] eqn:Hlive; intros [= <- <-]. local_fields.
      do 9 (split; [reflexivity|]).
      split; [|split; [reflexivity | now exists drpState]].
      split; [reflexivity|]. exists live. split; reflexivity.
Qed.

(** X7. Without a user DRP no local call can create a vertex and return. A
    call of the DRP kind throws "DRP is undefined" before anything is
    done. A call of the ACL kind whose operation changes the state throws
    the same error after the clock was read, the vertex linked below the
    frontier and the ACL snapshot cached at it: the DRP cache, the live
    ACL, the vertices list and the finality store are left as they were
    and no subscriber is notified. *)
Theorem callFn_without_drp_throws `{Platform}
    (fn : string) (args : Value) (w : World) (pre res post : Value) :
  drp (this w) = None ->
  preImage (this w) DrpType.ACL = Ok pre ->
  _applyOperation (cloneDeep pre) (mkOperation DrpType.ACL fn args) = Ok (res, post) ->
  stateChanged pre post = true ->
  let vertex := localVertex (this w) fn args DrpType.ACL (Date_now (ticks w)) in
  (forall fn' args', callFn fn' args' DrpType.DRP w = (Err DRPUndefined, w))
  /\ exists w',
       callFn fn args DrpType.ACL w = (Err DRPUndefined, w')
       /\ hashGraph (this w') = HashGraph.addToFrontier (hashGraph (this w)) vertex
       /\ aclStates (this w')
          = <[v_hash vertex := _getDRPState post]> (aclStates (this w))
       /\ drpStates (this w') = drpStates (this w)
       /\ acl (this w') = acl (this w)
       /\ vertices (this w') = vertices (this w)
       /\ finalityStore (this w') = finalityStore (this w)
       /\ delivered w' = delivered w
       /\ logged w' = logged w
       /\ ticks w' = S (ticks w).
Proof.
  intros Hnone Hpre Happly Hchanged vertex. split.
  - intros fn' args'. apply callFn_no_preimage.
    unfold preImage. change (String.eqb DrpType.DRP DrpType.ACL) with false.
    cbv iota. unfold _computeDRP. now rewrite Hnone.
  - rewrite (callFn_changed_run fn args DrpType.ACL w pre res post Hpre Happly Hchanged).
    cbv zeta. fold vertex. unfold writeCaches.
    change (String.eqb DrpType.ACL DrpType.DRP) with false. cbv iota zeta.
    unfold _computeDRPState at 1, _computeDRP at 1.
    cbn [drp set_aclStates set_hashGraph]. rewrite Hnone. cbn [rbind].
    eexists. split; [reflexivity|]. local_fields.
    do 8 (split; [reflexivity|]). reflexivity.
Qed.

(** ** Local calls on a single head *)

(** The object has a DRP, and its frontier is one vertex at which both
    caches hold a state. *)
Definition single_head (o : t) : Prop :=
  is_Some (drp o) /\ is_Some (originalDRP o)
  /\ exists head : Hash,
       HashGraph.getFrontier (hashGraph o) = [head]
       /\ is_Some (drpStates o !! head) /\ is_Some (aclStates o !! head).

Section SingleHeadCalls.
Context `{Platform}.

Lemma In_insert_sorted h x l :
  In h (HashGraph.insert_sorted x l) <-> h = x \/ In h l.
Proof.
  induction l as [|y rest IH]; cbn; [intuition congruence|].
  destruct (String.leb x y); cbn; [intuition congruence|].
  rewrite IH. intuition congruence.
Qed.

Lemma In_getFrontier g h :
  In h (HashGraph.getFrontier g) <-> In h (HashGraph.frontier g).
Proof.
  unfold HashGraph.getFrontier.
  induction (HashGraph.frontier g) as [|x rest IH]; cbn; [tauto|].
  rewrite In_insert_sorted, IH. intuition congruence.
Qed.

Lemma elem_In h l : HashGraph.elem h l = true <-> In h l.
Proof.
  unfold HashGraph.elem. rewrite existsb_exists. split.
  - intros (x & Hin & Heq). apply String.eqb_eq in Heq. now subst.
  - intros Hin. exists h. split; [exact Hin | apply String.eqb_refl].
Qed.

(** A vertex linked below the whole frontier is the frontier. *)
Lemma getFrontier_link_below g v :
  v_dependencies v = HashGraph.getFrontier g ->
  HashGraph.getFrontier (HashGraph.link g v) = [v_hash v].
Proof.
  intros Hdeps. unfold HashGraph.getFrontier at 1, HashGraph.link.
  cbn [HashGraph.frontier]. rewrite Hdeps.
  replace (List.filter _ (HashGraph.frontier g)) with (@nil Hash); [reflexivity|].
  symmetry.
  assert (Hall : forall h, In h (HashGraph.frontier g) ->
                           In h (HashGraph.getFrontier g))
    by (intros h; apply In_getFrontier).
  revert Hall. generalize (HashGraph.getFrontier g) as deps.
  induction (HashGraph.frontier g) as [|x rest IH]; intros deps Hall; [reflexivity|].
  cbn. replace (HashGraph.elem x deps) with true.
  - cbn. apply IH. intros h Hh. apply Hall. now right.
  - symmetry. apply elem_In. apply Hall. now left.
Qed.

Lemma constructor_single_head options random o :
  constructor options random = Ok o -> is_Some (o_drp options) -> single_head o.
Proof.
  intros Hctor [given Hgiven]. apply constructor_Ok in Hctor as (objAcl & -> & _).
  rewrite Hgiven. unfold single_head. cbn.
  split; [eauto|]. split; [eauto|]. exists rootHash.
  split; [reflexivity|]. rewrite !lookup_singleton_eq. eauto.
Qed.

Lemma single_head_preImage o drpType :
  single_head o -> exists pre, preImage o drpType = Ok pre.
Proof.
  intros ([live Hlive] & [original Horig] & head & Hfront & [ds Hds] & [as_ Has]).
  unfold preImage. rewrite Hfront.
  destruct (String.eqb drpType DrpType.ACL).
  - rewrite (_computeObjectACL_single o head as_ Has). eauto.
  - rewrite (_computeDRP_single o live original head ds Hlive Horig Hds). eauto.
Qed.

Lemma single_head_after (o o' : t) vertex :
  v_dependencies vertex = HashGraph.getFrontier (hashGraph o) ->
  hashGraph o' = HashGraph.addToFrontier (hashGraph o) vertex ->
  is_Some (drp o') -> is_Some (originalDRP o') ->
  is_Some (drpStates o' !! v_hash vertex) ->
  is_Some (aclStates o' !! v_hash vertex) ->
  single_head o'.
Proof.
  intros Hdeps Hgraph Hlive Horig Hds Has.
  split; [exact Hlive|]. split; [exact Horig|]. exists (v_hash vertex).
  rewrite Hgraph. split; [now apply getFrontier_link_below | auto].
Qed.

Lemma callFn_single_head fn args drpType w :
  single_head (this w) ->
  isErr (fst (callFn fn args drpType w)) = false
  /\ single_head (this (snd (callFn fn args drpType w))).
Proof.
  intros Hsingle.
  destruct (single_head_preImage (this w) drpType Hsingle) as [pre Hpre].
  destruct (_applyOperation (cloneDeep pre) (mkOperation drpType fn args))
    as [[res post]|e] eqn:Happly.
  2: { rewrite (callFn_throws _ _ _ _ _ _ Hpre Happly). cbn. auto. }
  destruct (stateChanged pre post) eqn:Hchanged.
  2: { rewrite (callFn_unchanged _ _ _ _ _ _ _ Hpre Happly Hchanged). cbn. auto. }
  rewrite (callFn_changed_run fn args drpType w pre res post Hpre Happly Hchanged).
  cbv zeta.
  set (vertex := localVertex (this w) fn args drpType (Date_now (ticks w))).
  destruct Hsingle
    as ([live Hlive] & [original Horig] & head & Hfront & [ds Hds] & [as_ Has]).
  assert (Hdeps : v_dependencies vertex = [head]) by exact Hfront.
  assert (Hop : v_operation vertex = Some (mkOperation drpType fn args))
    by reflexivity.
  clearbody vertex. unfold writeCaches, settle. rewrite Hdeps, Hop.
  assert (Hafter : forall o' : t,
             hashGraph o' = HashGraph.addToFrontier (hashGraph (this w)) vertex ->
             is_Some (drp o') -> originalDRP o' = originalDRP (this w) ->
             is_Some (drpStates o' !! v_hash vertex) ->
             is_Some (aclStates o' !! v_hash vertex) ->
             single_head o').
  { intros o' Hg Hl Ho Hd Ha. apply (single_head_after (this w) o' vertex); auto.
    - now rewrite Hfront.
    - rewrite Ho, Horig. eauto. }
  destruct (String.eqb drpType DrpType.DRP) eqn:Hkind.
  - apply String.eqb_eq in Hkind. subst drpType.
    unfold _computeObjectACLState.
    rewrite (_computeObjectACL_single_other _ head as_) by (reflexivity || exact Has).
    cbn [rbind]. change (String.eqb DrpType.DRP DrpType.ACL) with false. cbv iota.
    cbn [drp set_vertices set_finalityStore set_drpStates set_aclStates
           set_hashGraph].
    rewrite Hlive. cbn [fst snd isErr this]. split; [reflexivity|].
    apply Hafter; local_fields; rewrite ?lookup_insert_eq; eauto.
  - cbv zeta. unfold _computeDRPState.
    rewrite (_computeDRP_single_other _ live original head ds)
      by (reflexivity || assumption).
    cbn [rbind].
    cbn [drp set_vertices set_finalityStore set_drpStates set_aclStates
           set_hashGraph].
    rewrite Hlive.
    destruct (String.eqb drpType DrpType.ACL); cbn [fst snd isErr this];
      (split; [reflexivity|]);
      apply Hafter; local_fields; rewrite ?Hlive, ?lookup_insert_eq; eauto.
Qed.

End SingleHeadCalls.

(** X8. An object with a DRP that is only written by local calls never sees
    one of them throw. The constructor leaves the object on a single
    head, the root, with a state in both caches; from a single head
    every local call returns, whatever the method and the arguments
    (the error of an operation is logged, not thrown), and leaves the
    object on a single head again: the new vertex when one was created,
    the same head otherwise. No lowest common ancestor is computed on the
    way. *)
Theorem callFn_never_throws_on_single_head `{Platform} :
  (forall options random o,
     constructor options random = Ok o -> is_Some (o_drp options) -> single_head o)
  /\ (forall fn args drpType w,
        single_head (this w) ->
        isErr (fst (callFn fn args drpType w)) = false
        /\ single_head (this (snd (callFn fn args drpType w)))).
Proof.
  split; [apply constructor_single_head | apply callFn_single_head].
Qed.

(** ** Validation reads, and reads the clock once *)

Section ValidationRuns.
Context `{Platform}.

(** The rules checked before the clock is read. *)
Definition structureOk (g : HashGraph.t) (vertex : Vertex) : bool :=
  String.eqb (v_hash vertex)
    (computeHash (v_peerId vertex) (v_operation vertex) (v_dependencies vertex)
       (v_timestamp vertex))
  && negb (length (v_dependencies vertex) =? 0)%nat
  && negb (isErr (checkDependencies g vertex (v_dependencies vertex))).

Lemma validateVertex_world vertex w :
  snd (validateVertex vertex w)
  = mkWorld (this w)
      (if structureOk (hashGraph (this w)) vertex then S (ticks w) else ticks w)
      (delivered w) (logged w).
Proof.
  unfold validateVertex, structureOk.
  destruct (String.eqb _ _); cbn [negb andb]; [|now destruct w].
  destruct (_ =? _)%nat; cbn [negb andb]; [now destruct w|].
  unfold bind, gets, lift, now, throw, ret. cbn [this].
  destruct (checkDependencies _ _ _) as [[]|e]; cbn [isErr negb]; [|now destruct w].
  destruct (_ >? _)%Z; [reflexivity|].
  destruct (_checkWriterPermission _ _ _) as [[|]|e]; reflexivity.
Qed.

Lemma validateVertex_Ok_structure vertex w :
  fst (validateVertex vertex w) = Ok tt ->
  structureOk (hashGraph (this w)) vertex = true
  /\ (v_timestamp vertex <= Date_now (ticks w))%Z
  /\ _checkWriterPermission (this w) (v_peerId vertex) (v_dependencies vertex)
     = Ok true.
Proof.
  unfold validateVertex, structureOk.
  destruct (String.eqb _ _); cbn [negb andb]; [|discriminate].
  destruct (_ =? _)%nat; cbn [negb andb]; [discriminate|].
  unfold bind, gets, lift, now, throw, ret. cbn [this].
  destruct (checkDependencies _ _ _) as [[]|e]; cbn [isErr negb]; [|discriminate].
  destruct (Z.gtb_spec (v_timestamp vertex) (Date_now (ticks w))); [discriminate|].
  destruct (_checkWriterPermission _ _ _) as [[|]|e]; cbn; try discriminate.
  intros _. repeat split. lia.
Qed.

Lemma validateVertex_Ok_world vertex w :
  fst (validateVertex vertex w) = Ok tt ->
  snd (validateVertex vertex w)
  = mkWorld (this w) (S (ticks w)) (delivered w) (logged w).
Proof.
  intros Hok. rewrite validateVertex_world.
  now destruct (validateVertex_Ok_structure vertex w Hok) as [-> _].
Qed.

End ValidationRuns.

(** X5. [validateVertex] only reads. Whether it returns or throws, the object
    (graph, caches, live objects, vertices list, finality store), the
    notifications delivered and the log are as before. The clock is read
    once when the hash, the dependency list and every dependency pass
    their rules, and not at all when one of them fails: a vertex rejected
    for its structure costs no clock reading. *)
Theorem validateVertex_only_reads `{Platform} (vertex : Vertex) (w : World) :
  let w' := snd (validateVertex vertex w) in
  this w' = this w
  /\ delivered w' = delivered w
  /\ logged w' = logged w
  /\ ticks w'
     = if structureOk (hashGraph (this w)) vertex then S (ticks w) else ticks w.
Proof.
  cbv zeta. rewrite validateVertex_world. repeat split.
Qed.

(** ** What a merge puts in the graph *)

(** The structural rules of [validateVertex], read in a graph. *)
Definition valid_in (g : HashGraph.t) (v : Vertex) : Prop :=
  v_hash v
  = computeHash (v_peerId v) (v_operation v) (v_dependencies v) (v_timestamp v)
  /\ v_dependencies v <> []
  /\ forall dep, In dep (v_dependencies v) ->
       exists depVertex,
         HashGraph.get (HashGraph.vertices g) dep = Some depVertex
         /\ (v_timestamp depVertex <= v_timestamp v)%Z.

(** Every vertex of the first graph is, unchanged, in the second. *)
Definition extends (g g' : HashGraph.t) : Prop :=
  forall h v, HashGraph.get (HashGraph.vertices g) h = Some v ->
              HashGraph.get (HashGraph.vertices g') h = Some v.

(** The vertices a run over [batch] has added are valid vertices of the
    batch, stored under their own hash. *)
Definition sound (batch : list Vertex) (g g' : HashGraph.t) : Prop :=
  extends g g'
  /\ forall h v,
       HashGraph.get (HashGraph.vertices g') h = Some v ->
       HashGraph.get (HashGraph.vertices g) h = Some v
       \/ (HashGraph.get (HashGraph.vertices g) h = None
           /\ In v batch /\ h = v_hash v /\ is_Some (v_operation v)
           /\ valid_in g' v).

(** What the [try] body of a merge loop does to the graph. *)
Definition admits `{Platform} (body : Vertex -> M unit) : Prop :=
  forall vertex w,
    match body vertex w with
    | (Ok _, w1) =>
        fst (validateVertex vertex w) = Ok tt
        /\ hashGraph (this w1) = HashGraph.link (hashGraph (this w)) vertex
        /\ HashGraph.has (hashGraph (this w)) (v_hash vertex) = false
    | (Err _, w1) => hashGraph (this w1) = hashGraph (this w)
    end.

Section MergeSound.
Context `{Platform}.

Lemma checkDependencies_Ok_each g vertex deps :
  checkDependencies g vertex deps = Ok tt ->
  forall dep, In dep deps ->
    exists depVertex,
      HashGraph.get (HashGraph.vertices g) dep = Some depVertex
      /\ (v_timestamp depVertex <= v_timestamp vertex)%Z.
Proof.
  induction deps as [|d rest IH]; cbn; [intros _ ? []|].
  destruct (HashGraph.get (HashGraph.vertices g) d) as [dv|] eqn:Hget; [|discriminate].
  destruct (Z.gtb_spec (v_timestamp dv) (v_timestamp vertex)); [discriminate|].
  intros Hrest dep [<-|Hin]; [exists dv; split; [exact Hget | lia] | auto].
Qed.

Lemma validateVertex_Ok_valid vertex w :
  fst (validateVertex vertex w) = Ok tt -> valid_in (hashGraph (this w)) vertex.
Proof.
  intros Hok. apply validateVertex_Ok_structure in Hok as [Hs _].
  unfold structureOk in Hs.
  apply andb_true_iff in Hs as [Hs Hdeps]. apply andb_true_iff in Hs as [Hhash Hlen].
  split; [now apply String.eqb_eq|]. split.
  - intros Hnil. rewrite Hnil in Hlen. discriminate.
  - apply checkDependencies_Ok_each.
    destruct (checkDependencies _ _ _) as [[]|e]; [reflexivity | discriminate].
Qed.

Lemma extends_refl g : extends g g.
Proof. intros h v. auto. Qed.

Lemma extends_trans g1 g2 g3 : extends g1 g2 -> extends g2 g3 -> extends g1 g3.
Proof. intros H12 H23 h v Hv. auto. Qed.

Lemma extends_link g v :
  HashGraph.has g (v_hash v) = false -> extends g (HashGraph.link g v).
Proof.
  intros Hfresh h x Hx. unfold HashGraph.link. cbn [HashGraph.vertices].
  rewrite get_set_ne; [exact Hx|].
  intros <-. unfold HashGraph.has in Hfresh. now rewrite Hx in Hfresh.
Qed.

Lemma get_link g v h x :
  HashGraph.get (HashGraph.vertices (HashGraph.link g v)) h = Some x ->
  (h = v_hash v /\ x = v) \/ HashGraph.get (HashGraph.vertices g) h = Some x.
Proof.
  unfold HashGraph.link. cbn [HashGraph.vertices].
  destruct (String.eqb_spec (v_hash v) h) as [<-|Hne].
  - rewrite get_set_eq. intros [= <-]. now left.
  - rewrite get_set_ne by assumption. now right.
Qed.

Lemma valid_in_extends g g' v : extends g g' -> valid_in g v -> valid_in g' v.
Proof.
  intros Hext (Hhash & Hdeps & Heach). split; [exact Hhash|]. split; [exact Hdeps|].
  intros dep Hin. destruct (Heach dep Hin) as (dv & Hget & Hts). eauto.
Qed.

Lemma sound_refl batch g : sound batch g g.
Proof. split; [apply extends_refl | intros h v Hv; now left]. Qed.

Lemma sound_trans batch g1 g2 g3 :
  sound batch g1 g2 -> sound batch g2 g3 -> sound batch g1 g3.
Proof.
  intros [He12 Hn12] [He23 Hn23]. split; [eapply extends_trans; eauto|].
  intros h v Hv. destruct (Hn23 h v Hv) as [Hold|(Hnone & Hin & Hh & Hop & Hvalid)].
  - destruct (Hn12 h v Hold) as [Hold'|(Hnone & Hin & Hh & Hop & Hvalid)];
      [now left|].
    right. refine (conj _ (conj _ (conj _ (conj _ _)))); auto.
    now apply (valid_in_extends g2).
  - right. refine (conj _ (conj _ (conj _ (conj _ _)))); auto.
    destruct (HashGraph.get (HashGraph.vertices g1) h) as [x|] eqn:Hx; [|reflexivity].
    apply He12 in Hx. congruence.
Qed.

(** One admitted vertex. *)
Lemma sound_link batch g v :
  In v batch -> is_Some (v_operation v) ->
  HashGraph.has g (v_hash v) = false -> valid_in g v ->
  sound batch g (HashGraph.link g v).
Proof.
  intros Hin Hop Hfresh Hvalid.
  pose proof (extends_link g v Hfresh) as Hext. split; [exact Hext|].
  intros h x Hx. apply get_link in Hx as [[-> ->]|Hold]; [|now left].
  right. refine (conj _ (conj _ (conj _ (conj _ _)))); auto.
  - unfold HashGraph.has in Hfresh.
    now destruct (HashGraph.get (HashGraph.vertices g) (v_hash v)).
  - now apply (valid_in_extends g).
Qed.

Lemma skipped_false o vertex :
  skipped o vertex = false ->
  is_Some (v_operation vertex) /\ HashGraph.has (hashGraph o) (v_hash vertex) = false.
Proof.
  unfold skipped. intros Hs. apply orb_false_iff in Hs as [Hop Hfresh].
  split; [|exact Hfresh].
  apply negb_false_iff, bool_decide_eq_true in Hop. exact Hop.
Qed.

Lemma Collected_sound body batch w vertices missing w' :
  admits body ->
  Collected body w vertices missing w' ->
  (forall v, In v vertices -> In v batch) ->
  sound batch (hashGraph (this w)) (hashGraph (this w')).
Proof.
  intros Hbody.
  induction 1 as [w|w vertex rest missing w' Hskip _ IH
                 |w vertex rest missing w1 w' Hskip Hrun _ IH
                 |w vertex rest missing e w1 w' Hskip Hrun _ IH];
    intros Hbatch.
  - apply sound_refl.
  - apply IH. intros v Hv. apply Hbatch. now right.
  - specialize (Hbody vertex w). rewrite Hrun in Hbody.
    destruct Hbody as (Hvalid & Hgraph & Hfresh).
    apply skipped_false in Hskip as [Hop _].
    eapply sound_trans; [|apply IH; intros v Hv; apply Hbatch; now right].
    rewrite Hgraph. apply sound_link; auto.
    + apply Hbatch. now left.
    + now apply validateVertex_Ok_valid.
  - specialize (Hbody vertex w). rewrite Hrun in Hbody. rewrite <- Hbody.
    apply IH. intros v Hv. apply Hbatch. now right.
Qed.

Lemma admitWithDrp_validated vertex w w1 :
  admitWithDrp vertex w = (Ok tt, w1) -> fst (validateVertex vertex w) = Ok tt.
Proof.
  unfold admitWithDrp, bind at 1.
  destruct (validateVertex vertex w) as [[[]|e] w0]; [reflexivity | discriminate].
Qed.

Lemma admitWithoutDrp_validated vertex w w1 :
  admitWithoutDrp vertex w = (Ok tt, w1) -> fst (validateVertex vertex w) = Ok tt.
Proof.
  unfold admitWithoutDrp, bind at 1.
  destruct (validateVertex vertex w) as [[[]|e] w0]; [reflexivity | discriminate].
Qed.

Lemma admitWithDrp_admits : admits admitWithDrp.
Proof.
  intros vertex w. pose proof (admitWithDrp_graph vertex w) as Hg.
  destruct (admitWithDrp vertex w) as [[[]|e] w1] eqn:Hrun; cbn [fst snd] in Hg.
  - destruct Hg as (Hlink & Hfresh & _). split; [|auto].
    now apply (admitWithDrp_validated vertex w w1).
  - exact Hg.
Qed.

Lemma admitWithoutDrp_admits : admits admitWithoutDrp.
Proof.
  intros vertex w. pose proof (admitWithoutDrp_world vertex w) as [_ Hg].
  destruct (admitWithoutDrp vertex w) as [[[]|e] w1] eqn:Hrun; cbn [fst snd] in Hg.
  - destruct Hg as [Hthis Hfresh]. split; [|split; [|exact Hfresh]].
    + now apply (admitWithoutDrp_validated vertex w w1).
    + now rewrite Hthis.
  - now rewrite Hg.
Qed.

(** After its loop a merge leaves the graph alone. *)
Lemma merge_graph_is_loop_graph batch w :
  exists missing w1,
    Collected (match drp (this w) with
               | Some _ => admitWithDrp
               | None => admitWithoutDrp
               end) w batch missing w1
    /\ hashGraph (this (snd (merge batch w))) = hashGraph (this w1)
    /\ match fst (merge batch w) with
       | Ok (_, reported) => reported = missing
       | Err _ => True
       end.
Proof.
  rewrite merge_by_mode.
  destruct (drp (this w)) as [live|].
  - destruct (mergeLoopWithDrp_collects batch [] [] w)
      as (missing & newVertices & w1 & Heq & Hc).
    exists missing, w1. split; [exact Hc|].
    rewrite _mergeWithDrp_steps, Heq. cbn [app].
    pose proof (refreshLive_same_stores w1) as (Hg & _ & _).
    destruct (refreshLive w1) as [[[]|e] w2]; cbn [fst snd] in *; [|auto].
    unfold _notify. cbn [fst snd this]. auto.
  - destruct (mergeLoopWithoutDrp_collects batch [] w) as (missing & w1 & Heq & Hc).
    exists missing, w1. split; [exact Hc|].
    unfold _mergeWithoutDrp, bind. rewrite Heq. cbn. auto.
Qed.

(** The hashes a loop reports belong to vertices of the batch that carry
    an operation and were not in the graph the loop started from. *)
Lemma Collected_missing body w vertices missing w' :
  (forall vertex w0, graph_grows w0 (snd (body vertex w0))) ->
  Collected body w vertices missing w' ->
  forall h, In h missing ->
    exists vertex,
      In vertex vertices /\ v_hash vertex = h /\ is_Some (v_operation vertex)
      /\ HashGraph.has (hashGraph (this w)) h = false.
Proof.
  intros Hgrows.
  induction 1 as [w|w vertex rest missing w' Hskip _ IH
                 |w vertex rest missing w1 w' Hskip Hrun _ IH
                 |w vertex rest missing e w1 w' Hskip Hrun _ IH];
    intros h Hin.
  - destruct Hin.
  - destruct (IH h Hin) as (v & Hv & Hh & Hop & Hfresh).
    exists v. repeat split; auto. now right.
  - destruct (IH h Hin) as (v & Hv & Hh & Hop & Hfresh).
    exists v. repeat split; auto; [now right|].
    pose proof (Hgrows vertex w h) as Hg. rewrite Hrun in Hg. cbn [snd] in Hg.
    destruct (HashGraph.has (hashGraph (this w)) h); [|reflexivity].
    rewrite Hg in Hfresh; [discriminate | reflexivity].
  - destruct Hin as [<-|Hin].
    + apply skipped_false in Hskip as [Hop Hfresh].
      exists vertex. repeat split; auto. now left.
    + destruct (IH h Hin) as (v & Hv & Hh & Hop & Hfresh).
      exists v. repeat split; auto; [now right|].
      pose proof (Hgrows vertex w h) as Hg. rewrite Hrun in Hg. cbn [snd] in Hg.
      destruct (HashGraph.has (hashGraph (this w)) h); [|reflexivity].
      rewrite Hg in Hfresh; [discriminate | reflexivity].
Qed.

End MergeSound.

(** X9. A merge only ever adds valid vertices of its batch. Whatever the
    batch and whether the merge returns or throws, every vertex of the
    graph before is still there, unchanged, and every vertex of the graph
    after that was not there before is a vertex of the batch, stored
    under its own hash, which carries an operation, whose hash is the one
    [computeHash] gives for its content, which has at least one
    dependency, and each of whose dependencies is in the graph after the
    merge with a timestamp not later than its own. In particular a
    vertex without dependencies, such as a forged root, is never
    added. *)
Theorem merge_adds_only_valid_vertices `{Platform} (batch : list Vertex) (w : World) :
  let g := hashGraph (this w) in
  let g' := hashGraph (this (snd (merge batch w))) in
  (forall h v, HashGraph.get (HashGraph.vertices g) h = Some v ->
               HashGraph.get (HashGraph.vertices g') h = Some v)
  /\ (forall h v,
        HashGraph.get (HashGraph.vertices g') h = Some v ->
        HashGraph.get (HashGraph.vertices g) h = Some v
        \/ (HashGraph.get (HashGraph.vertices g) h = None
            /\ In v batch /\ h = v_hash v /\ is_Some (v_operation v)
            /\ valid_in g' v)).
Proof.
  cbv zeta.
  destruct (merge_graph_is_loop_graph batch w) as (missing & w1 & Hc & -> & _).
  apply (Collected_sound _ batch) in Hc; [exact Hc | | auto].
  destruct (drp (this w)); [apply admitWithDrp_admits | apply admitWithoutDrp_admits].
Qed.

(** X10. What a merge reports missing. Every hash in the list a merge returns
    is the hash of a vertex of the batch that carries an operation and
    was not in the graph when the merge started; a vertex already in the
    graph, or one without operation, is never reported. The flag
    returned is true exactly when the list is empty. *)
Theorem merge_reports_only_new_batch_vertices `{Platform}
    (batch : list Vertex) (w : World) (merged : bool) (missing : list Hash)
    (w' : World) :
  merge batch w = (Ok (merged, missing), w') ->
  (forall h, In h missing ->
     exists vertex,
       In vertex batch /\ v_hash vertex = h /\ is_Some (v_operation vertex)
       /\ HashGraph.has (hashGraph (this w)) h = false)
  /\ (merged = true <-> missing = []).
Proof.
  intros Hrun. split.
  - destruct (merge_graph_is_loop_graph batch w) as (missing' & w1 & Hc & _ & Hrep).
    rewrite Hrun in Hrep. cbn [fst] in Hrep. subst missing'.
    refine (Collected_missing _ _ _ _ _ _ Hc).
    destruct (drp (this w)); [apply admitWithDrp_grows | apply admitWithoutDrp_grows].
  - revert Hrun. rewrite merge_by_mode.
    destruct (drp (this w)) as [live|].
    + rewrite _mergeWithDrp_steps.
      destruct (mergeLoopWithDrp batch [] [] w) as [[[m n]|e] w1]; [|discriminate].
      destruct (refreshLive w1) as [[[]|e] w2]; [|discriminate].
      destruct (_notify "merge" n w2) as [r w3].
      intros [= <- <- <-]. apply length_eqb_0_nil.
    + unfold _mergeWithoutDrp, bind at 1.
      destruct (mergeLoopWithoutDrp batch [] w) as [[m|e] w1]; [|discriminate].
      cbn. intros [= <- <- <-]. apply length_eqb_0_nil.
Qed.

(** ** What a merge tells the subscribers *)

(** The computations that notify nobody and leave the subscriptions. *)
Definition quiet (w w' : World) : Prop :=
  subscriptions (this w') = subscriptions (this w) /\ delivered w' = delivered w.

#[local] Instance quiet_preorder : PreOrder quiet.
Proof.
  split; [intros w; split; reflexivity|].
  intros a b c [? ?] [? ?]. split; congruence.
Qed.

(** [vertices] is the list the graph gives. *)
Definition mirrors (o : t) : Prop :=
  vertices o = HashGraph.getAllVertices (hashGraph o).

Section Notify.
Context `{Platform}.




(** A new key of the vertex map goes to its end. *)
Lemma set_fresh vs h v :
  HashGraph.get vs h = None -> HashGraph.set vs h v = vs ++ [(h, v)].
Proof.
  induction vs as [|[k x] rest IH]; cbn; [reflexivity|].
  destruct (String.eqb k h); [discriminate|]. intros Hn. now rewrite IH.
Qed.

Lemma getAllVertices_link g v :
  HashGraph.has g (v_hash v) = false ->
  HashGraph.getAllVertices (HashGraph.link g v) = HashGraph.getAllVertices g ++ [v].
Proof.
  unfold HashGraph.has, HashGraph.getAllVertices, HashGraph.link.
  cbn [HashGraph.vertices]. intros Hfresh.
  rewrite set_fresh by (now destruct (HashGraph.get _ _)).
  now rewrite map_app.
Qed.


End Notify.


(** X12. The vertices list follows the graph on the local path too. The
    constructor sets the list to the vertices of the graph, the root
    alone; and when the list is the list of the graph, a local call that
    returns leaves it so, provided the hash of the vertex it would create
    is not yet in the graph: the vertex pushed on the list is the one
    linked in the graph, at the end of both. *)
Theorem vertices_list_follows_graph `{Platform} :
  (forall options random o, constructor options random = Ok o -> mirrors o)
  /\ (forall fn args drpType w r w',
        mirrors (this w) ->
        HashGraph.has (hashGraph (this w))
          (v_hash (localVertex (this w) fn args drpType (Date_now (ticks w))))
        = false ->
        callFn fn args drpType w = (Ok r, w') ->
        mirrors (this w')).
Proof.
  split.
  - intros options random o Hctor.
    apply constructor_Ok in Hctor as (objAcl & -> & _). reflexivity.
  - intros fn args drpType w r w' Hmirror Hfresh Hrun.
    destruct (preImage (this w) drpType) as [pre|e] eqn:Hpre.
    2: { rewrite (callFn_no_preimage _ _ _ _ _ Hpre) in Hrun. discriminate. }
    destruct (_applyOperation (cloneDeep pre) (mkOperation drpType fn args))
      as [[res post]|e] eqn:Happly.
    2: { rewrite (callFn_throws _ _ _ _ _ _ Hpre Happly) in Hrun.
         injection Hrun as _ <-. exact Hmirror. }
    destruct (stateChanged pre post) eqn:Hchanged.
    2: { rewrite (callFn_unchanged _ _ _ _ _ _ _ Hpre Happly Hchanged) in Hrun.
         injection Hrun as _ <-. exact Hmirror. }
    rewrite (callFn_changed_run fn args drpType w pre res post Hpre Happly Hchanged)
      in Hrun.
    cbv zeta in Hrun. revert Hrun. unfold writeCaches.
    set (vertex := localVertex (this w) fn args drpType (Date_now (ticks w))) in *.
    assert (Hgoal : vertices (this w) ++ [vertex]
                    = HashGraph.getAllVertices
                        (HashGraph.addToFrontier (hashGraph (this w)) vertex)).
    { unfold HashGraph.addToFrontier. rewrite getAllVertices_link by exact Hfresh.
      now rewrite Hmirror. }
    destruct (String.eqb drpType DrpType.DRP).
    + destruct (_computeObjectACLState _ _ _ _); [|intros [=]].
      unfold settle. cbn [drp set_vertices set_finalityStore set_drpStates
                            set_aclStates set_hashGraph].
      destruct (String.eqb drpType DrpType.ACL); [|destruct (drp (this w))];
        intros [= _ <-]; exact Hgoal.
    + cbv zeta. destruct (_computeDRPState _ _ _ _); [|intros [=]].
      unfold settle. cbn [drp set_vertices set_finalityStore set_drpStates
                            set_aclStates set_hashGraph].
      destruct (String.eqb drpType DrpType.ACL); [|destruct (drp (this w))];
        intros [= _ <-]; exact Hgoal.
Qed.

(** ** What a merge writes back to the live objects *)

(** The attributes the write-back loop overwrites: the own attributes of
    the live object that do not hold a function and that the rebuilt
    object has as well. *)
Definition written (current rebuilt : Value) (key : string) : bool :=
  match current with
  | VObj fields =>
      match getOwn fields key with
      | Some x => negb (is_function x)
      | None => false
      end
  | _ => false
  end
  && existsb (String.eqb key) (keys rebuilt).

(** The computations that leave the live objects and the originals. *)
Definition same_live (w w' : World) : Prop :=
  acl (this w') = acl (this w) /\ drp (this w') = drp (this w)
  /\ originalDRP (this w') = originalDRP (this w)
  /\ originalObjectACL (this w') = originalObjectACL (this w).

#[local] Instance same_live_preorder : PreOrder same_live.
Proof.
  split; [intros w; repeat split|].
  intros a b c (? & ? & ? & ?) (? & ? & ? & ?). repeat split; congruence.
Qed.

Section WriteBack.
Context `{Platform}.

Lemma written_at_elsewhere key key' state :
  key <> key' ->
  written_at key' (written_elsewhere key state) = written_at key' state.
Proof.
  intros Hne. unfold written_at, written_elsewhere. f_equal.
  induction state as [|[k v] rest IH]; [reflexivity|].
  cbn [List.filter fst].
  destruct (String.eqb_spec key k) as [<-|Hk]; cbn [negb].
  - destruct (String.eqb_spec key' key); [congruence | exact IH].
  - cbn [List.filter fst]. now rewrite IH.
Qed.

(** The loop, read attribute by attribute. *)
Lemma getOwn_refreshFields fields :
  forall state key,
    getOwn (refreshFields fields state) key
    = match getOwn fields key with
      | Some x => Some (cell x (written_at key state))
      | None => None
      end.
Proof.
  induction fields as [|[k x] rest IH]; intros state key.
  - now rewrite refreshFields_nil.
  - rewrite refreshFields_cons. cbn [getOwn].
    destruct (String.eqb_spec k key) as [->|Hne]; [reflexivity|].
    now rewrite IH, written_at_elsewhere.
Qed.

Lemma keys_refreshFields fields :
  forall state, map fst (refreshFields fields state) = map fst fields.
Proof.
  induction fields as [|[k x] rest IH]; intros state.
  - now rewrite refreshFields_nil.
  - rewrite refreshFields_cons. cbn. now rewrite IH.
Qed.

Lemma keys_refresh current state : keys (refresh current state) = keys current.
Proof.
  destruct current as [| | | | | |fields|];
    try (now rewrite refresh_other by (intros ?; discriminate)).
  rewrite refresh_object. cbn. apply keys_refreshFields.
Qed.

Lemma cell_same v written :
  (forall y, In y written -> y = v) -> cell v written = v.
Proof.
  unfold cell. induction written as [|y rest IH]; intros Hall; [reflexivity|].
  cbn [fold_left]. rewrite (Hall y) by now left.
  destruct (is_function v); apply IH; intros z Hz; apply Hall; now right.
Qed.

Lemma cell_written x v written :
  is_function x = false -> written <> [] ->
  (forall y, In y written -> y = v) -> cell x written = v.
Proof.
  intros Hx Hne Hall. destruct written as [|y rest]; [congruence|].
  unfold cell. cbn [fold_left]. rewrite Hx, (Hall y) by now left.
  apply cell_same. intros z Hz. apply Hall. now right.
Qed.

(** What a snapshot writes at one key. *)
Lemma written_at_snapshot obj key y :
  In y (written_at key (_getDRPState obj)) -> y = nullish (getProp obj key).
Proof.
  unfold written_at. rewrite in_map_iff. intros ([k v] & <- & Hin).
  apply filter_In in Hin as [Hin Hk]. cbn in *.
  apply String.eqb_eq in Hk. subst k.
  now apply _getDRPState_entry in Hin.
Qed.

Lemma written_at_snapshot_nil obj key :
  written_at key (_getDRPState obj) = [] <->
  existsb (String.eqb key) (keys obj) = false.
Proof.
  unfold written_at, _getDRPState, DRPStateEntry_create.
  induction (keys obj) as [|k rest IH]; cbn; [tauto|].
  destruct (String.eqb key k); cbn; [split; discriminate | exact IH].
Qed.

(** The write-back of a snapshot, attribute by attribute. *)
Lemma refresh_snapshot current rebuilt key :
  getProp (refresh current (_getDRPState rebuilt)) key
  = if written current rebuilt key then nullish (getProp rebuilt key)
    else getProp current key.
Proof.
  destruct current as [| | | | | |fields|];
    try (now rewrite refresh_other by (intros ?; discriminate)).
  rewrite refresh_object. unfold written. cbn [getProp].
  rewrite getOwn_refreshFields.
  destruct (getOwn fields key) as [x|]; [|reflexivity]. cbn [default].
  destruct (is_function x) eqn:Hx; cbn [negb andb].
  - now apply cell_function.
  - destruct (existsb (String.eqb key) (keys rebuilt)) eqn:Hin.
    + apply cell_written; [exact Hx | | apply written_at_snapshot].
      intros Hnil. apply written_at_snapshot_nil in Hnil. congruence.
    + apply written_at_snapshot_nil in Hin. now rewrite Hin.
Qed.

Lemma mergeLoopWithDrp_steps (R : World -> World -> Prop) `{!PreOrder R} :
  (forall vertex, steps R (admitWithDrp vertex)) ->
  forall batch missing newVertices,
    steps R (mergeLoopWithDrp batch missing newVertices).
Proof.
  intros Hbody batch.
  induction batch as [|vertex rest IH]; intros missing newVertices.
  - now apply steps_ret.
  - cbn [mergeLoopWithDrp]. repeat first [apply IH | apply Hbody | frame_step].
Qed.

Ltac solve_same_live := repeat split.

Lemma admitWithDrp_same_live vertex : steps same_live (admitWithDrp vertex).
Proof. unfold admitWithDrp, graph_addVertex. frame solve_same_live. Qed.

Lemma _computeDRPState_Ok o deps pre op state :
  _computeDRPState o deps pre op = Ok state ->
  exists rebuilt, _computeDRP o deps pre op = Ok rebuilt /\ state = _getDRPState rebuilt.
Proof.
  unfold _computeDRPState. destruct (_computeDRP o deps pre op) as [d|e]; cbn.
  - intros [= <-]. eauto.
  - discriminate.
Qed.

Lemma _computeObjectACLState_Ok o deps pre op state :
  _computeObjectACLState o deps pre op = Ok state ->
  exists rebuilt,
    _computeObjectACL o deps pre op = Ok rebuilt /\ state = _getDRPState rebuilt.
Proof.
  unfold _computeObjectACLState. destruct (_computeObjectACL o deps pre op) as [d|e]; cbn.
  - intros [= <-]. eauto.
  - discriminate.
Qed.

End WriteBack.

(** X13. With a user DRP, a merge that returns leaves the live DRP and the
    live ACL in step with the state at the frontier. Both objects keep
    their attributes, names and order; each of their own attributes that
    does not hold a function, and that the object rebuilt at the frontier
    of the graph after the merge has too, takes the value the snapshot of
    the rebuilt object holds there: the value of the rebuilt object, but
    [undefined] where the rebuilt object holds [null]; every other
    attribute, the methods among them, is as it was before the merge. *)
Theorem merge_writes_back_frontier_state `{Platform}
    (batch : list Vertex) (w : World) (live : Value)
    (result : bool * list Hash) (w' : World) :
  drp (this w) = Some live ->
  merge batch w = (Ok result, w') ->
  let frontier := HashGraph.getFrontier (hashGraph (this w')) in
  exists rebuiltACL rebuiltDRP live',
    _computeObjectACL (this w') frontier None None = Ok rebuiltACL
    /\ _computeDRP (this w') frontier None None = Ok rebuiltDRP
    /\ drp (this w') = Some live'
    /\ keys live' = keys live
    /\ keys (acl (this w')) = keys (acl (this w))
    /\ (forall key,
          getProp live' key
          = if written live rebuiltDRP key then nullish (getProp rebuiltDRP key)
            else getProp live key)
    /\ (forall key,
          getProp (acl (this w')) key
          = if written (acl (this w)) rebuiltACL key
            then nullish (getProp rebuiltACL key)
            else getProp (acl (this w)) key).
Proof.
  intros Hlive Hrun frontier. subst frontier. revert Hrun.
  rewrite merge_by_mode, Hlive, _mergeWithDrp_steps.
  pose proof (mergeLoopWithDrp_steps same_live admitWithDrp_same_live batch [] [] w)
    as (Hacl & Hdrp & _ & _).
  destruct (mergeLoopWithDrp batch [] [] w) as [[[missing newVertices]|e] w1];
    [|discriminate].
  cbn [snd] in Hacl, Hdrp.
  pose proof (refreshLive_run w1) as Hrefresh.
  destruct (refreshObject (this w1)) as [o'|e] eqn:Hobj.
  2: { destruct (refreshLive w1) as [[[]|e'] w2]; cbn [fst] in Hrefresh;
         discriminate. }
  rewrite Hrefresh. cbn [_notify]. intros [= _ <-]. cbn [this].
  apply refreshObject_Ok in Hobj
    as (aclState & live1 & drpState & HaclState & Hlive1 & HdrpState & ->).
  apply _computeObjectACLState_Ok in HaclState as (rebuiltACL & HrebuiltACL & ->).
  apply _computeDRPState_Ok in HdrpState as (rebuiltDRP & HrebuiltDRP & ->).
  rewrite Hdrp, Hlive in Hlive1. injection Hlive1 as <-.
  exists rebuiltACL, rebuiltDRP, (refresh live (_getDRPState rebuiltDRP)).
  cbn [hashGraph drp acl]. rewrite Hacl.
  split; [|split; [|split; [reflexivity|]]].
  - rewrite <- HrebuiltACL. now apply _computeObjectACL_ext.
  - rewrite <- HrebuiltDRP.
    apply (_computeDRP_ext (this w1) _ _ None None live
             (refresh live (_getDRPState rebuiltDRP))); try reflexivity.
    now rewrite Hdrp.
  - split; [apply keys_refresh|]. split; [apply keys_refresh|].
    split; intros key; apply refresh_snapshot.
Qed.

(** ** Finality states *)

(** The entries of the finality store stay as they are. *)
Definition finality_kept (w w' : World) : Prop :=
  forall h s, finalityStore (this w) !! h = Some s ->
              finalityStore (this w') !! h = Some s.

#[local] Instance finality_kept_preorder : PreOrder finality_kept.
Proof. split; [intros w h s; auto | intros a b c Hab Hbc h s Hs; auto]. Qed.

Section Finality.
Context `{Platform}.

Lemma initializeState_kept store (hash : Hash) sgn (h : Hash) s :
  store !! h = Some s ->
  FinalityStore.initializeState store hash sgn !! h = Some s.
Proof.
  intros Hs. unfold FinalityStore.initializeState.
  destruct (store !! hash) eqn:Hhash; [exact Hs|].
  unfold FinalityStore.t in *.
  rewrite lookup_insert_ne; [exact Hs|]. intros <-. congruence.
Qed.

Lemma initializeState_Some store (hash : Hash) sgn :
  is_Some (FinalityStore.initializeState store hash sgn !! hash).
Proof.
  unfold FinalityStore.initializeState.
  destruct (store !! hash) eqn:Hhash; [rewrite Hhash; eauto|].
  unfold FinalityStore.t in *.
  rewrite lookup_insert_eq. eauto.
Qed.

Lemma finalityAt_Some o (hash : Hash) :
  is_Some (aclStates o !! hash) -> is_Some (finalityAt o hash !! hash).
Proof.
  intros [state Hstate]. unfold finalityAt. fetched Hstate.
  apply initializeState_Some.
Qed.

(** The [try] body of [_mergeWithDrp] when it returns: the world it
    leaves. *)
Lemma admitWithDrp_Ok vertex w w1 :
  admitWithDrp vertex w = (Ok tt, w1) ->
  exists drpState aclState,
    let o2 :=
      set_hashGraph (HashGraph.link (hashGraph (this w)) vertex)
        (set_drpStates (<[v_hash vertex := drpState]> (drpStates (this w)))
           (set_aclStates (<[v_hash vertex := aclState]> (aclStates (this w)))
              (this w))) in
    w1 = mkWorld (set_finalityStore (finalityAt o2 (v_hash vertex)) o2)
           (S (ticks w)) (delivered w) (logged w).
Proof.
  unfold admitWithDrp. unfold bind at 1.
  destruct (validateVertex vertex w) as [[[]|e] w0] eqn:Hv; [|intros [=]].
  assert (Hok : fst (validateVertex vertex w) = Ok tt) by now rewrite Hv.
  pose proof (validateVertex_Ok_world vertex w Hok) as Hw0.
  rewrite Hv in Hw0. cbn [snd] in Hw0. subst w0.
  unfold bind at 1, gets at 1. cbn [this].
  unfold bind at 1, lift at 1.
  destruct (computeLCA (hashGraph (this w)) (v_dependencies vertex)) as [pre|e];
    [|intros [=]].
  destruct (v_operation vertex) as [operation|] eqn:Hop; [|intros [=]].
  unfold bind at 1.
  destruct (String.eqb (drpType operation) DrpType.DRP).
  - unfold bind at 1, lift at 1.
    destruct (_computeDRP (this w) (v_dependencies vertex) (Some pre) (Some operation))
      as [drp|e]; [|intros [=]].
    unfold bind at 1. rewrite _setObjectACLState_run, Hop.
    cbn [this ticks delivered logged].
    destruct (_computeObjectACLState (this w) (v_dependencies vertex) (Some pre)
                (Some operation)) as [aclState|e]; [|intros [=]].
    rewrite _setDRPState_run. cbn [this ticks delivered logged].
    unfold bind at 1. rewrite graph_addVertex_run. cbn [this ticks delivered logged].
    cbn [set_drpStates set_aclStates hashGraph].
    destruct (HashGraph.addVertex (hashGraph (this w)) vertex) as [g|e] eqn:Hadd;
      [|intros [=]].
    apply addVertex_Ok in Hadd as [-> Hfresh].
    rewrite _initializeFinalityState_eq. cbn [this ticks delivered logged].
    intros [= <-]. exists (_getDRPState drp), aclState. reflexivity.
  - unfold bind at 1, lift at 1.
    destruct (_computeObjectACL (this w) (v_dependencies vertex) (Some pre)
                (Some operation)) as [acl|e]; [|intros [=]].
    unfold bind at 1. rewrite _setObjectACLState_run. cbn [this ticks delivered logged].
    rewrite _setDRPState_run, Hop. cbn [this ticks delivered logged].
    cbn [set_aclStates drpStates hashGraph].
    destruct (_computeDRPState _ (v_dependencies vertex) (Some pre) (Some operation))
      as [drpState|e]; [|intros [=]].
    unfold bind at 1. rewrite graph_addVertex_run. cbn [this ticks delivered logged].
    cbn [set_drpStates set_aclStates hashGraph].
    destruct (HashGraph.addVertex (hashGraph (this w)) vertex) as [g|e] eqn:Hadd;
      [|intros [=]].
    apply addVertex_Ok in Hadd as [-> Hfresh].
    rewrite _initializeFinalityState_eq. cbn [this ticks delivered logged].
    intros [= <-]. exists drpState, (_getDRPState acl). reflexivity.
Qed.

Ltac solve_finality_kept :=
  intros h s Hs; cbn; try exact Hs; now apply initializeState_kept.

Lemma admitWithDrp_finality_kept vertex : steps finality_kept (admitWithDrp vertex).
Proof. unfold admitWithDrp, graph_addVertex. frame solve_finality_kept. Qed.

Lemma refreshLive_finality_kept : steps finality_kept refreshLive.
Proof. unfold refreshLive. frame solve_finality_kept. Qed.

(** Every vertex the loop of [_mergeWithDrp] adds has a finality state. *)
Lemma Collected_finality w vertices missing w' :
  Collected admitWithDrp w vertices missing w' ->
  forall h,
    HashGraph.has (hashGraph (this w)) h = false ->
    HashGraph.has (hashGraph (this w')) h = true ->
    is_Some (finalityStore (this w') !! h).
Proof.
  induction 1 as [w|w vertex rest missing w' Hskip _ IH
                 |w vertex rest missing w1 w' Hskip Hrun Hrest IH
                 |w vertex rest missing e w1 w' Hskip Hrun _ IH];
    intros h Hbefore Hafter.
  - congruence.
  - now apply IH.
  - destruct (HashGraph.has (hashGraph (this w1)) h) eqn:Hmid; [|now apply IH].
    assert (Hkept : finality_kept w1 w').
    { clear - Hrest. induction Hrest as [w|? ? ? ? ? ? ? IH|? ? ? ? ? ? ? Hrun ? IH
                                        |? ? ? ? ? ? ? ? Hrun ? IH].
      - reflexivity.
      - exact IH.
      - etransitivity; [|exact IH].
        pose proof (admitWithDrp_finality_kept vertex w) as Hk.
        now rewrite Hrun in Hk.
      - etransitivity; [|exact IH].
        pose proof (admitWithDrp_finality_kept vertex w) as Hk.
        now rewrite Hrun in Hk. }
    destruct (admitWithDrp_Ok vertex w w1 Hrun) as (drpState & aclState & Hw1).
    cbv zeta in Hw1. subst w1. cbn in Hmid.
    apply has_link in Hmid as [->|Hold]; [|congruence].
    match goal with
    | |- is_Some (finalityStore (this ?w') !! _) =>
        match type of Hkept with
        | finality_kept ?w1 _ =>
            assert (Hnow : is_Some (finalityStore (this w1) !! v_hash vertex))
        end
    end.
    { cbn. apply finalityAt_Some. cbn. rewrite lookup_insert_eq. eauto. }
    destruct Hnow as [s Hs]. exists s. now apply Hkept.
  - pose proof (admitWithDrp_graph vertex w) as Hg. rewrite Hrun in Hg.
    cbn [fst snd] in Hg. apply IH; [now rewrite Hg | exact Hafter].
Qed.

End Finality.

(** X14. With a user DRP, every vertex a merge adds to the graph has a
    finality state when the merge ends, whether it returns or throws, and
    no finality state that existed before is replaced or removed: the
    signers and the attestations already collected for a vertex survive
    any merge. (The finality store itself is modelled from the
    specification: an entry is created when there is none.) *)
Theorem merge_initialises_finality `{Platform} (batch : list Vertex) (w : World) :
  is_Some (drp (this w)) ->
  let w' := snd (merge batch w) in
  (forall h,
     HashGraph.has (hashGraph (this w)) h = false ->
     HashGraph.has (hashGraph (this w')) h = true ->
     is_Some (finalityStore (this w') !! h))
  /\ (forall h s,
        finalityStore (this w) !! h = Some s ->
        finalityStore (this w') !! h = Some s).
Proof.
  intros [live Hlive]. cbv zeta. rewrite merge_by_mode, Hlive, _mergeWithDrp_steps.
  destruct (mergeLoopWithDrp_collects batch [] [] w)
    as (missing & newVertices & w1 & Heq & Hc).
  pose proof (mergeLoopWithDrp_steps finality_kept admitWithDrp_finality_kept
                batch [] [] w) as Hloop.
  rewrite Heq in *. cbn [app snd] in *.
  pose proof (refreshLive_same_stores w1) as (Hg & _ & _).
  pose proof (refreshLive_finality_kept w1) as Hkept.
  assert (Hend : forall w2 : World,
             hashGraph (this w2) = hashGraph (this w1) ->
             finality_kept w1 w2 ->
             (forall h,
                HashGraph.has (hashGraph (this w)) h = false ->
                HashGraph.has (hashGraph (this w2)) h = true ->
                is_Some (finalityStore (this w2) !! h))
             /\ (forall h s,
                   finalityStore (this w) !! h = Some s ->
                   finalityStore (this w2) !! h = Some s)).
  { intros w2 Hg2 Hk2. split.
    - intros h Hbefore Hafter. rewrite Hg2 in Hafter.
      destruct (Collected_finality _ _ _ _ Hc h Hbefore Hafter) as [s Hs].
      exists s. now apply Hk2.
    - intros h s Hs. apply Hk2. now apply Hloop. }
  destruct (refreshLive w1) as [[[]|e] w2]; cbn [fst snd] in *.
  - unfold _notify. cbn [snd]. apply (Hend (mkWorld (this w2) _ _ _)); assumption.
  - now apply Hend.
Qed.
(** ** What a merge without a DRP admits *)

(** The rules of [validateVertex] for an object without a DRP, read in
    the object [o] for every reading of the clock from the [tick]-th on:
    the hash is the hash of the content, there is a dependency, every
    dependency is in the graph and not later than the vertex, the vertex
    is not later than the clock, and the live ACL answers that the peer
    is a writer. *)
Definition validFrom `{Platform} (o : t) (tick : nat) (v : Vertex) : Prop :=
  valid_in (hashGraph o) v
  /\ (forall k, (tick <= k)%nat -> (v_timestamp v <= Date_now k)%Z)
  /\ query_isWriter (acl o) (v_peerId v) = true.

Section AdmitsWithoutDrp.
Context `{Platform}.

Lemma checkDependencies_each g vertex deps :
  (forall dep, In dep deps ->
     exists depVertex,
       HashGraph.get (HashGraph.vertices g) dep = Some depVertex
       /\ (v_timestamp depVertex <= v_timestamp vertex)%Z) ->
  checkDependencies g vertex deps = Ok tt.
Proof.
  induction deps as [|dep rest IH]; intros Hall; [reflexivity|].
  cbn [checkDependencies].
  destruct (Hall dep) as (depVertex & -> & Hle); [now left|].
  destruct (Z.gtb_spec (v_timestamp depVertex) (v_timestamp vertex)); [lia|].
  apply IH. intros d Hin. apply Hall. now right.
Qed.

(** A vertex that satisfies the rules passes validation. *)
Lemma validFrom_validates vertex w :
  drp (this w) = None ->
  validFrom (this w) (ticks w) vertex ->
  fst (validateVertex vertex w) = Ok tt.
Proof.
  intros Hnone ((Hhash & Hdeps & Heach) & Hclock & Hwriter).
  unfold validateVertex.
  rewrite <- Hhash, String.eqb_refl. cbn [negb].
  destruct (Nat.eqb_spec (length (v_dependencies vertex)) 0) as [Hlen|_].
  { destruct Hdeps. now apply length_zero_iff_nil. }
  unfold bind, gets, lift, now, throw, ret. cbn [this fst snd ticks].
  rewrite (checkDependencies_each _ vertex (v_dependencies vertex) Heach).
  destruct (Z.gtb_spec (v_timestamp vertex) (Date_now (ticks w))) as [Hgt|_].
  { specialize (Hclock (ticks w) (Nat.le_refl _)). lia. }
  unfold _checkWriterPermission. rewrite Hnone, Hwriter. reflexivity.
Qed.

(** One turn of the loop leaves the ACL and the mode as they are, keeps
    what the graph holds and does not turn the clock back. *)
Lemma admitWithoutDrp_keeps vertex w :
  let w1 := snd (admitWithoutDrp vertex w) in
  acl (this w1) = acl (this w)
  /\ drp (this w1) = drp (this w)
  /\ extends (hashGraph (this w)) (hashGraph (this w1))
  /\ (ticks w <= ticks w1)%nat.
Proof.
  cbv zeta.
  pose proof (admitWithoutDrp_world vertex w) as [_ Hw].
  assert (Hticks : (ticks w <= ticks (snd (admitWithoutDrp vertex w)))%nat).
  { unfold admitWithoutDrp, bind.
    pose proof (validateVertex_world vertex w) as Hv.
    destruct (validateVertex vertex w) as [[[]|e] w0]; cbn [snd] in *.
    - rewrite graph_addVertex_run.
      destruct (HashGraph.addVertex _ _); cbn [snd ticks]; rewrite Hv; cbn [ticks];
        destruct (structureOk _ _); lia.
    - rewrite Hv. cbn [ticks]. destruct (structureOk _ _); lia. }
  destruct (fst (admitWithoutDrp vertex w)) as [[]|e].
  - destruct Hw as [-> Hfresh]. cbn [acl drp hashGraph set_hashGraph].
    repeat split; auto. now apply extends_link.
  - rewrite Hw. repeat split; auto. apply extends_refl.
Qed.

Lemma validFrom_keeps (o o' : t) (tick tick' : nat) vertex :
  acl o' = acl o -> extends (hashGraph o) (hashGraph o') -> (tick <= tick')%nat ->
  validFrom o tick vertex -> validFrom o' tick' vertex.
Proof.
  intros Hacl Hext Hle (Hvalid & Hclock & Hwriter).
  split; [now apply (valid_in_extends (hashGraph o))|].
  split; [intros k Hk; apply Hclock; lia | now rewrite Hacl].
Qed.

(** The loop admits what satisfies the rules and reports only what does
    not. *)
Lemma Collected_without_drp_admits w batch missing w' :
  Collected admitWithoutDrp w batch missing w' ->
  drp (this w) = None ->
  (forall vertex,
     In vertex batch -> is_Some (v_operation vertex) ->
     validFrom (this w) (ticks w) vertex ->
     HashGraph.has (hashGraph (this w')) (v_hash vertex) = true)
  /\ (forall h,
        In h missing ->
        exists vertex,
          In vertex batch /\ v_hash vertex = h
          /\ ~ validFrom (this w) (ticks w) vertex).
Proof.
  induction 1 as [w|w vertex rest missing w' Hskip Hrest IH
                 |w vertex rest missing w1 w' Hskip Hbody Hrest IH
                 |w vertex rest missing e w1 w' Hskip Hbody Hrest IH];
    intros Hnone.
  - split; [intros ? [] | intros ? []].
  - destruct (IH Hnone) as [IHin IHmiss]. split.
    + intros v [<-|Hin] Hop Hvalid; [|auto].
      apply Collected_without_drp in Hrest as (_ & Hgrows & _).
      apply Hgrows. now apply skipped_present.
    + intros h Hh. destruct (IHmiss h Hh) as (v & Hin & Heq & Hnot).
      exists v. split; [now right | auto].
  - pose proof (admitWithoutDrp_keeps vertex w) as (Hacl & Hdrp & Hext & Hticks).
    pose proof (admitWithoutDrp_world vertex w) as [_ Hw].
    rewrite Hbody in Hacl, Hdrp, Hext, Hticks, Hw. cbn [fst snd] in *.
    destruct Hw as [Hw _].
    destruct IH as [IHin IHmiss]; [congruence|]. split.
    + intros v [<-|Hin] Hop Hvalid.
      * apply Collected_without_drp in Hrest as (_ & Hgrows & _).
        apply Hgrows. rewrite Hw. cbn. apply has_link. now left.
      * apply IHin; auto. now apply (validFrom_keeps (this w) _ (ticks w)).
    + intros h Hh. destruct (IHmiss h Hh) as (v & Hin & Heq & Hnot).
      exists v. split; [now right|]. split; [exact Heq|].
      intros Hvalid. apply Hnot.
      now apply (validFrom_keeps (this w) _ (ticks w)).
  - pose proof (admitWithoutDrp_keeps vertex w) as (Hacl & Hdrp & Hext & Hticks).
    rewrite Hbody in Hacl, Hdrp, Hext, Hticks. cbn [fst snd] in *.
    destruct IH as [IHin IHmiss]; [congruence|].
    assert (Hfails : ~ validFrom (this w) (ticks w) vertex).
    { intros Hvalid.
      pose proof (validFrom_validates vertex w Hnone Hvalid) as Hok.
      destruct (validated_is_admitted vertex w Hskip Hok) as [Hadmit _].
      rewrite Hbody in Hadmit. discriminate. }
    split.
    + intros v [<-|Hin] Hop Hvalid; [now destruct Hfails|].
      apply IHin; auto. now apply (validFrom_keeps (this w) _ (ticks w)).
    + intros h [<-|Hh].
      * exists vertex. split; [now left | auto].
      * destruct (IHmiss h Hh) as (v & Hin & Heq & Hnot).
        exists v. split; [now right|]. split; [exact Heq|].
        intros Hvalid. apply Hnot.
        now apply (validFrom_keeps (this w) _ (ticks w)).
Qed.

End AdmitsWithoutDrp.

(** C10. With no user DRP registered, [merge] returns its pair and, over
    the whole batch, changes nothing of the object but the graph: no entry
    is written in either state cache, the finality store is not touched,
    the live ACL is not refreshed, the vertices list is left as it was and
    no subscriber is notified. It admits each validated vertex: the run
    is the loop over the batch in which every vertex that reaches the
    [try] and passes validation is added to the graph; every vertex of
    the batch that carries an operation and satisfies the rules of
    validation when the merge starts is in the graph afterwards; only the
    hash of a vertex that does not satisfy them is reported missing; and
    every vertex of the batch that has an operation and is not reported
    missing is in the graph afterwards. *)
Theorem mergeWithoutDrp_admits_only `{Platform} (batch : list Vertex) (w : World) :
  drp (this w) = None ->
  exists merged missing w',
    merge batch w = (Ok (merged, missing), w')
    /\ drpStates (this w') = drpStates (this w)
    /\ aclStates (this w') = aclStates (this w)
    /\ finalityStore (this w') = finalityStore (this w)
    /\ acl (this w') = acl (this w)
    /\ vertices (this w') = vertices (this w)
    /\ delivered w' = delivered w
    /\ Collected admitWithoutDrp w batch missing w'
    /\ (forall vertex,
          In vertex batch -> is_Some (v_operation vertex) ->
          validFrom (this w) (ticks w) vertex ->
          HashGraph.has (hashGraph (this w')) (v_hash vertex) = true)
    /\ (forall h,
          In h missing ->
          exists vertex,
            In vertex batch /\ v_hash vertex = h
            /\ ~ validFrom (this w) (ticks w) vertex)
    /\ (forall vertex,
          In vertex batch -> is_Some (v_operation vertex) ->
          ~ In (v_hash vertex) missing ->
          HashGraph.has (hashGraph (this w')) (v_hash vertex) = true)
    /\ (forall vertex w0,
          skipped (this w0) vertex = false ->
          fst (validateVertex vertex w0) = Ok tt ->
          fst (admitWithoutDrp vertex w0) = Ok tt
          /\ hashGraph (this (snd (admitWithoutDrp vertex w0)))
             = HashGraph.link (hashGraph (this w0)) vertex).
Proof.
  intros Hnone.
  rewrite merge_by_mode, Hnone.
  destruct (mergeLoopWithoutDrp_collects batch [] w) as (missing & w' & Heq & Hc).
  unfold _mergeWithoutDrp, bind at 1. rewrite Heq. cbn [app].
  exists (length missing =? 0)%nat, missing, w'. split; [reflexivity|].
  pose proof (Collected_without_drp_admits _ _ _ _ Hc Hnone) as [Hadmits Honly].
  pose proof Hc as Hrun.
  apply Collected_without_drp in Hc as ((Hobj & Hdel) & _ & Hin).
  rewrite Hobj. cbn [drpStates aclStates finalityStore acl vertices set_hashGraph].
  do 5 (split; [reflexivity|]). split; [exact Hdel|]. split; [exact Hrun|].
  split; [cbn [hashGraph]; exact Hadmits|]. split; [exact Honly|].
  split; [cbn [hashGraph]; exact Hin|].
  intros vertex w0. now apply validated_is_admitted.
Qed.

(** The theorem at work: the grant of p2, which satisfies the rules on
    the object that has no DRP, is in the graph after the merge, and the
    subscriber has not been called. *)
Lemma mergeWithoutDrp_admits_only_witness :
  let w := Demo.world Demo.aclOnly [7%nat] in
  drp (this w) = None
  /\ exists merged missing w',
       @merge Demo.platform [Demo.grant] w = (Ok (merged, missing), w')
       /\ HashGraph.has (hashGraph (this w')) (v_hash Demo.grant) = true
       /\ delivered w' = [].
Proof.
  intros w.
  assert (Hnone : drp (this w) = None) by reflexivity.
  split; [exact Hnone|].
  destruct (@mergeWithoutDrp_admits_only Demo.platform [Demo.grant] w Hnone)
    as (merged & missing & w' & Hrun & _ & _ & _ & _ & _ & Hdel & _ & Hadmits & _).
  exists merged, missing, w'. split; [exact Hrun|]. split; [|exact Hdel].
  apply Hadmits; [now left | eexists; reflexivity|].
  split; [|split].
  - split; [vm_compute; reflexivity|]. split; [discriminate|].
    intros dep [<-|[]]. exists (@rootVertex Demo.platform).
    split; [vm_compute; reflexivity | vm_compute; discriminate].
  - intros k _. change (10 <= 1000 + Z.of_nat k)%Z. lia.
  - vm_compute; reflexivity.
Defined.

(** ** The engine at work on the small platform *)

Section DemoRuns.
#[local] Existing Instance Demo.platform.


(** The call [increment(1)] on the counter at 0 changes [count]: the
    theorem of C4 puts its vertex in the graph. *)
Lemma callFn_vertex_iff_state_changed_witness :
  let w := Demo.world Demo.withDrp [7%nat] in
  let vertex :=
    localVertex (this w) "increment" (VArr [VNum 1]) DrpType.DRP
      (Date_now (ticks w)) in
  HashGraph.has
    (hashGraph (this (snd (callFn "increment" (VArr [VNum 1]) DrpType.DRP w))))
    (v_hash vertex) = true.
Proof.
  intros w vertex.
  assert (Hfresh : HashGraph.has (hashGraph (this w)) (v_hash vertex) = false)
    by (vm_compute; reflexivity).
  destruct (callFn_vertex_iff_state_changed "increment" (VArr [VNum 1])
              DrpType.DRP w Hfresh) as [Hiff _].
  apply Hiff.
  exists (Demo.counter 0), (VNum 1), (Demo.counter 1).
  split; [vm_compute; reflexivity|]. split; [vm_compute; reflexivity|].
  exists "count". split; [now left | vm_compute; reflexivity].
Defined.

(** C4 as stated fails: [tag()] gives the clone an attribute the
    pre-image does not have, so an attribute of the clone is not
    deep-equal to the corresponding one of the pre-image; [callFn] looks
    at the attributes of the pre-image only, finds them equal, and leaves
    the world as it was, without a vertex. *)
Lemma callFn_added_attribute_no_vertex :
  let w := Demo.world Demo.withDrp [7%nat] in
  let post := VObj [("count", VNum 0); ("tag", VBool true)] in
  preImage (this w) DrpType.DRP = Ok (Demo.counter 0)
  /\ _applyOperation (cloneDeep (Demo.counter 0))
       (mkOperation DrpType.DRP "tag" (VArr [])) = Ok (VUndefined, post)
  /\ attribute_of_clone_differs (Demo.counter 0) post = true
  /\ callFn "tag" (VArr []) DrpType.DRP w = (Ok VUndefined, w).
Proof. cbv zeta. repeat apply conj; vm_compute; reflexivity. Qed.

(** The call [fail()] throws on the clone: the theorem of C5 applies. *)
Lemma callFn_throwing_operation_is_noop_witness :
  let w := Demo.world Demo.withDrp [7%nat] in
  fst (callFn "fail" (VArr []) DrpType.DRP w) = Ok VUndefined
  /\ this (snd (callFn "fail" (VArr []) DrpType.DRP w)) = this w
  /\ delivered (snd (callFn "fail" (VArr []) DrpType.DRP w)) = [].
Proof.
  intros w.
  assert (Hpre : preImage (this w) DrpType.DRP = Ok (Demo.counter 0))
    by (vm_compute; reflexivity).
  assert (Happly : _applyOperation (cloneDeep (Demo.counter 0))
                     (mkOperation DrpType.DRP "fail" (VArr []))
                   = Err (ApplyingOperation "fail" (Thrown (VStr "boom"))))
    by (vm_compute; reflexivity).
  destruct (callFn_throwing_operation_is_noop "fail" (VArr []) DrpType.DRP w
              (Demo.counter 0) _ Hpre Happly) as (Hres & Hthis & Hdel & _).
  split; [exact Hres|]. split; [exact Hthis | exact Hdel].
Defined.

(** C6 as stated fails. The object without a DRP merges the grant of p2;
    no state is cached at the grant. A vertex of p3 on top of the grant is
    then checked against the live ACL, which is permissionless and answers
    true, while the ACL cannot be reconstructed at the dependencies of
    that vertex at all; the vertex is admitted. *)
Lemma writer_check_ignores_deps_without_drp :
  let w1 := snd (merge [Demo.grant] (Demo.world Demo.aclOnly [])) in
  drp (this w1) = None
  /\ _checkWriterPermission (this w1) "p3" [v_hash Demo.grant] = Ok true
  /\ writer_at_deps (this w1) "p3" [v_hash Demo.grant] = Err StateUndefined
  /\ fst (merge [Demo.after_grant] w1) = Ok (true, []).
Proof. cbv zeta. repeat apply conj; vm_compute; reflexivity. Qed.

(** C7 as stated fails: without a DRP the grant is admitted to the graph
    and neither cache has an entry at its hash. *)
Lemma admitted_without_cache_entries :
  let w1 := snd (merge [Demo.grant] (Demo.world Demo.aclOnly [])) in
  fst (merge [Demo.grant] (Demo.world Demo.aclOnly [])) = Ok (true, [])
  /\ HashGraph.has (hashGraph (this w1)) (v_hash Demo.grant) = true
  /\ drpStates (this w1) !! v_hash Demo.grant = None
  /\ aclStates (this w1) !! v_hash Demo.grant = None.
Proof. cbv zeta. repeat apply conj; vm_compute; reflexivity. Qed.



(** C9 as stated fails: with both an ACL and a public credential the
    constructor succeeds, and uses the ACL it was given. *)
Lemma constructor_accepts_both :
  let supplied := Demo.objectACL (mkACLOptions [] false) in
  let options :=
    mkOptions "p1" (Some Demo.credential) (Some supplied) None (Some "object-3") in
  isErr (constructor options "0") = false
  /\ (acl <$> match constructor options "0" with
              | Ok o => Some o
              | Err _ => None
              end) = Some supplied.
Proof. cbv zeta. split; vm_compute; reflexivity. Qed.

(** Outside the claims: on the object without a DRP, a local call that
    changes the ACL throws after its vertex is on the frontier, because
    the DRP state of the vertex is computed from a DRP that is not there;
    the vertex is in the graph with no entry in [drpStates]. *)
Lemma callFn_acl_without_drp_throws :
  let w := Demo.world Demo.aclOnly [7%nat] in
  let run := callFn "grant" (VArr [VStr "p9"]) DrpType.ACL w in
  let vertex := localVertex (this w) "grant" (VArr [VStr "p9"]) DrpType.ACL 1000 in
  fst run = Err DRPUndefined
  /\ HashGraph.has (hashGraph (this (snd run))) (v_hash vertex) = true
  /\ drpStates (this (snd run)) !! v_hash vertex = None
  /\ delivered (snd run) = [].
Proof. cbv zeta. repeat apply conj; vm_compute; reflexivity. Qed.

End DemoRuns.

(** ** The state cached at a vertex with one dependency *)

Section SingleParent.
Context `{Platform}.

(** The state at a vertex whose only dependency holds [state]: the
    state laid over the original object, and the operation applied when
    it is of the kind asked for. *)
Definition stateAfter (kind : string) (original : Value) (state : DRPState)
    (op : Operation) : Result DRPState :=
  let base := assignState original state in
  if String.eqb (drpType op) kind then
    let? (_, post) := _applyOperation base op in Ok (_getDRPState post)
  else Ok (_getDRPState base).

(** With one dependency the precomputed ancestor is the dependency. *)
Definition singlePre (dep : Hash) (pre : option LcaAndOperations) : Prop :=
  pre = None \/ pre = Some (dep, []).

Lemma _computeDRPState_single_parent o live original (dep : Hash) state pre op :
  drp o = Some live -> originalDRP o = Some original ->
  drpStates o !! dep = Some state -> singlePre dep pre ->
  _computeDRPState o [dep] pre (Some op) = stateAfter DrpType.DRP original state op.
Proof.
  intros Hlive Horig Hstate Hpre.
  unfold _computeDRPState, _computeDRP, stateAfter, computeLCA.
  rewrite Hlive, Horig.
  destruct Hpre as [->| ->]; cbv beta iota delta [rbind]; fetched Hstate;
    rewrite clone_entries; cbn [replay]; unfold cloneDeep;
    destruct (String.eqb (drpType op) DrpType.DRP); try reflexivity;
    destruct (_applyOperation _ op) as [[r post]|e]; reflexivity.
Qed.

Lemma _computeObjectACLState_single_parent o (dep : Hash) state pre op :
  aclStates o !! dep = Some state -> singlePre dep pre ->
  _computeObjectACLState o [dep] pre (Some op)
  = stateAfter DrpType.ACL (originalObjectACL o) state op.
Proof.
  intros Hstate Hpre.
  unfold _computeObjectACLState, _computeObjectACL, stateAfter, computeLCA.
  destruct Hpre as [->| ->]; cbv beta iota delta [rbind]; fetched Hstate;
    rewrite clone_entries; cbn [replay]; unfold cloneDeep;
    destruct (String.eqb (drpType op) DrpType.ACL); try reflexivity;
    destruct (_applyOperation _ op) as [[r post]|e]; reflexivity.
Qed.

Lemma computeLCA_single g (dep : Hash) pre :
  computeLCA g [dep] = Ok pre -> singlePre dep (Some pre).
Proof. cbn. intros [= <-]. now right. Qed.

Lemma _computeDRPState_ext o o' deps pre op :
  drp o' = drp o -> hashGraph o' = hashGraph o -> drpStates o' = drpStates o ->
  originalDRP o' = originalDRP o ->
  _computeDRPState o' deps pre op = _computeDRPState o deps pre op.
Proof.
  intros Hl Hg Hd Ho. unfold _computeDRPState, _computeDRP.
  now rewrite Hl, Hg, Hd, Ho.
Qed.

(** The states the [try] body of [_mergeWithDrp] caches at the vertex
    it admits: the two reconstructions at its dependencies, with the one
    ancestor computed for both. *)
Lemma admitWithDrp_states vertex w w1 :
  admitWithDrp vertex w = (Ok tt, w1) ->
  exists pre op drpState aclState,
    v_operation vertex = Some op
    /\ computeLCA (hashGraph (this w)) (v_dependencies vertex) = Ok pre
    /\ _computeDRPState (this w) (v_dependencies vertex) (Some pre) (Some op)
       = Ok drpState
    /\ _computeObjectACLState (this w) (v_dependencies vertex) (Some pre) (Some op)
       = Ok aclState
    /\ drpStates (this w1) = <[v_hash vertex := drpState]> (drpStates (this w))
    /\ aclStates (this w1) = <[v_hash vertex := aclState]> (aclStates (this w)).
Proof.
  unfold admitWithDrp. unfold bind at 1.
  destruct (validateVertex vertex w) as [[[]|e] w0] eqn:Hv; [|intros [=]].
  assert (Hok : fst (validateVertex vertex w) = Ok tt) by now rewrite Hv.
  pose proof (validateVertex_Ok_world vertex w Hok) as Hw0.
  rewrite Hv in Hw0. cbn [snd] in Hw0. subst w0.
  unfold bind at 1, gets at 1. cbn [this].
  unfold bind at 1, lift at 1.
  destruct (computeLCA (hashGraph (this w)) (v_dependencies vertex)) as [pre|e];
    [|intros [=]].
  destruct (v_operation vertex) as [operation|] eqn:Hop; [|intros [=]].
  unfold bind at 1.
  destruct (String.eqb (drpType operation) DrpType.DRP).
  - unfold bind at 1, lift at 1.
    destruct (_computeDRP (this w) (v_dependencies vertex) (Some pre) (Some operation))
      as [drp|e] eqn:Hdrp; [|intros [=]].
    unfold bind at 1. rewrite _setObjectACLState_run, Hop.
    cbn [this ticks delivered logged].
    destruct (_computeObjectACLState (this w) (v_dependencies vertex) (Some pre)
                (Some operation)) as [aclState|e] eqn:Hacl; [|intros [=]].
    rewrite _setDRPState_run. cbn [this ticks delivered logged].
    unfold bind at 1. rewrite graph_addVertex_run. cbn [this ticks delivered logged].
    cbn [set_drpStates set_aclStates hashGraph].
    destruct (HashGraph.addVertex (hashGraph (this w)) vertex) as [g|e];
      [|intros [=]].
    rewrite _initializeFinalityState_eq. cbn [this ticks delivered logged].
    intros [= <-]. exists pre, operation, (_getDRPState drp), aclState.
    repeat split; auto. unfold _computeDRPState. now rewrite Hdrp.
  - unfold bind at 1, lift at 1.
    destruct (_computeObjectACL (this w) (v_dependencies vertex) (Some pre)
                (Some operation)) as [acl|e] eqn:Hacl; [|intros [=]].
    unfold bind at 1. rewrite _setObjectACLState_run. cbn [this ticks delivered logged].
    rewrite _setDRPState_run, Hop. cbn [this ticks delivered logged].
    rewrite (_computeDRPState_ext (this w)) by reflexivity.
    cbn [set_aclStates drpStates hashGraph].
    destruct (_computeDRPState (this w) (v_dependencies vertex) (Some pre)
                (Some operation)) as [drpState|e] eqn:HdS; [|intros [=]].
    unfold bind at 1. rewrite graph_addVertex_run. cbn [this ticks delivered logged].
    cbn [set_drpStates set_aclStates hashGraph].
    destruct (HashGraph.addVertex (hashGraph (this w)) vertex) as [g|e];
      [|intros [=]].
    rewrite _initializeFinalityState_eq. cbn [this ticks delivered logged].
    intros [= <-]. exists pre, operation, drpState, (_getDRPState acl).
    repeat split; auto. unfold _computeObjectACLState. now rewrite Hacl.
Qed.

Lemma same_cached (a b : option DRPState) (x : Result DRPState) :
  Ok <$> a = Some x -> Ok <$> b = Some x -> is_Some a /\ b = a.
Proof.
  destruct a as [sa|], b as [sb|]; cbn; try discriminate.
  intros [= <-] [= ->]. eauto.
Qed.

(** The merge path. *)
Lemma admitWithDrp_single_parent vertex w w1 (dep : Hash) op live original
    dState aState :
  admitWithDrp vertex w = (Ok tt, w1) ->
  v_dependencies vertex = [dep] -> v_operation vertex = Some op ->
  drp (this w) = Some live -> originalDRP (this w) = Some original ->
  drpStates (this w) !! dep = Some dState ->
  aclStates (this w) !! dep = Some aState ->
  Ok <$> drpStates (this w1) !! v_hash vertex
  = Some (stateAfter DrpType.DRP original dState op)
  /\ Ok <$> aclStates (this w1) !! v_hash vertex
     = Some (stateAfter DrpType.ACL (originalObjectACL (this w)) aState op).
Proof.
  intros Hrun Hdeps Hop Hlive Horig Hd Ha.
  destruct (admitWithDrp_states vertex w w1 Hrun)
    as (pre & op' & drpState & aclState & Hop' & Hlca & HdS & HaS & -> & ->).
  rewrite Hop in Hop'. injection Hop' as <-. rewrite Hdeps in *.
  apply computeLCA_single in Hlca.
  rewrite (_computeDRPState_single_parent _ live original dep dState) in HdS
    by assumption.
  rewrite (_computeObjectACLState_single_parent _ dep aState) in HaS by assumption.
  rewrite !lookup_insert_eq, HdS, HaS. split; reflexivity.
Qed.

(** The local path. *)
Lemma callFn_single_parent fn args drpType w r w' (dep : Hash) live original
    dState aState :
  drpType = DrpType.DRP \/ drpType = DrpType.ACL ->
  HashGraph.getFrontier (hashGraph (this w)) = [dep] ->
  drp (this w) = Some live -> originalDRP (this w) = Some original ->
  drpStates (this w) !! dep = Some dState ->
  aclStates (this w) !! dep = Some aState ->
  callFn fn args drpType w = (Ok r, w') ->
  let vertex := localVertex (this w) fn args drpType (Date_now (ticks w)) in
  let op := mkOperation drpType fn args in
  HashGraph.has (hashGraph (this w)) (v_hash vertex) = false ->
  HashGraph.has (hashGraph (this w')) (v_hash vertex) = true ->
  Ok <$> drpStates (this w') !! v_hash vertex
  = Some (stateAfter DrpType.DRP original dState op)
  /\ Ok <$> aclStates (this w') !! v_hash vertex
     = Some (stateAfter DrpType.ACL (originalObjectACL (this w)) aState op).
Proof.
  intros Hkind Hfront Hlive Horig Hd Ha Hrun vertex op Hfresh Hafter.
  set (pre := if String.eqb drpType DrpType.ACL
              then assignState (originalObjectACL (this w)) aState
              else assignState original dState).
  assert (Hpre : preImage (this w) drpType = Ok pre).
  { unfold preImage, pre. rewrite Hfront. destruct (String.eqb drpType DrpType.ACL).
    - now apply _computeObjectACL_single.
    - now apply (_computeDRP_single _ live). }
  destruct (_applyOperation (cloneDeep pre) (mkOperation drpType fn args))
    as [[res post]|e] eqn:Happly.
  2: { rewrite (callFn_throws _ _ _ _ _ _ Hpre Happly) in Hrun.
       injection Hrun as _ <-. cbn [this] in Hafter. congruence. }
  destruct (stateChanged pre post) eqn:Hchanged.
  2: { rewrite (callFn_unchanged _ _ _ _ _ _ _ Hpre Happly Hchanged) in Hrun.
       injection Hrun as _ <-. congruence. }
  rewrite (callFn_changed_run fn args drpType w _ res post Hpre Happly Hchanged)
    in Hrun.
  cbv zeta in Hrun. fold vertex in Hrun.
  assert (Hdeps : v_dependencies vertex = [dep]) by exact Hfront.
  assert (Hopv : v_operation vertex = Some op) by reflexivity.
  clearbody vertex. revert Hrun. unfold writeCaches. rewrite Hdeps, Hopv.
  unfold cloneDeep in Happly. subst pre.
  destruct Hkind as [->| ->].
  - change (String.eqb DrpType.DRP DrpType.DRP) with true.
    change (String.eqb DrpType.DRP DrpType.ACL) with false in *. cbv iota in *.
    rewrite (_computeObjectACLState_single_parent _ dep aState None op)
      by (assumption || now left).
    destruct (stateAfter DrpType.ACL _ aState op) as [aS|e] eqn:HaS; [|intros [=]].
    unfold settle. cbn [drp set_vertices set_finalityStore set_drpStates
                          set_aclStates set_hashGraph].
    rewrite Hlive. intros [= _ <-].
    cbn [this drpStates aclStates set_drp set_vertices set_finalityStore
           set_drpStates set_aclStates set_hashGraph].
    rewrite !lookup_insert_eq. split; [|reflexivity].
    unfold stateAfter. subst op. cbn [drpType].
    change (String.eqb DrpType.DRP DrpType.DRP) with true. cbv iota zeta.
    now rewrite Happly.
  - change (String.eqb DrpType.ACL DrpType.DRP) with false.
    change (String.eqb DrpType.ACL DrpType.ACL) with true in *. cbv iota zeta in *.
    rewrite (_computeDRPState_single_parent _ live original dep dState None op)
      by (assumption || now left).
    destruct (stateAfter DrpType.DRP original dState op) as [dS|e] eqn:HdS;
      [|intros [=]].
    intros [= _ <-]. unfold settle.
    cbn [this drpStates aclStates set_acl set_vertices set_finalityStore
           set_drpStates set_aclStates set_hashGraph].
    rewrite !lookup_insert_eq. split; [reflexivity|].
    unfold stateAfter. subst op. cbn [drpType].
    change (String.eqb DrpType.ACL DrpType.ACL) with true. cbv iota zeta.
    now rewrite Happly.
Qed.

End SingleParent.

(** X15. Two replicas agree on the state at a vertex with one dependency.
    Replica A, whose frontier is the single vertex [dep], creates a
    vertex by a local call; replica B, which holds the same original
    objects and caches at [dep] the states A caches there, admits that
    vertex in a merge. Then both replicas cache the same DRP state and
    the same ACL state at the new vertex: the state at [dep] laid over
    the original object, with the operation applied to the object of its
    kind. *)
Theorem replicas_agree_on_single_parent `{Platform}
    (fn : string) (args : Value) (drpType : string)
    (wA wA' wB wB' : World) (r : Value) (dep : Hash)
    (liveA liveB original : Value) (dState aState : DRPState) :
  let vertex := localVertex (this wA) fn args drpType (Date_now (ticks wA)) in
  drpType = DrpType.DRP \/ drpType = DrpType.ACL ->
  HashGraph.getFrontier (hashGraph (this wA)) = [dep] ->
  drp (this wA) = Some liveA -> drp (this wB) = Some liveB ->
  originalDRP (this wA) = Some original ->
  originalDRP (this wB) = Some original ->
  originalObjectACL (this wB) = originalObjectACL (this wA) ->
  drpStates (this wA) !! dep = Some dState ->
  drpStates (this wB) !! dep = Some dState ->
  aclStates (this wA) !! dep = Some aState ->
  aclStates (this wB) !! dep = Some aState ->
  HashGraph.has (hashGraph (this wA)) (v_hash vertex) = false ->
  callFn fn args drpType wA = (Ok r, wA') ->
  HashGraph.has (hashGraph (this wA')) (v_hash vertex) = true ->
  admitWithDrp vertex wB = (Ok tt, wB') ->
  is_Some (drpStates (this wA') !! v_hash vertex)
  /\ is_Some (aclStates (this wA') !! v_hash vertex)
  /\ drpStates (this wB') !! v_hash vertex = drpStates (this wA') !! v_hash vertex
  /\ aclStates (this wB') !! v_hash vertex = aclStates (this wA') !! v_hash vertex.
Proof.
  intros vertex Hkind Hfront HliveA HliveB HorigA HorigB Hacl HdA HdB HaA HaB
    Hfresh HrunA Hafter HrunB.
  destruct (callFn_single_parent fn args drpType wA r wA' dep liveA original
              dState aState Hkind Hfront HliveA HorigA HdA HaA HrunA Hfresh Hafter)
    as [HdsA HasA].
  destruct (admitWithDrp_single_parent vertex wB wB' dep
              (mkOperation drpType fn args) liveB original dState aState HrunB
              Hfront eq_refl HliveB HorigB HdB HaB)
    as [HdsB HasB].
  rewrite Hacl in HasB. fold vertex in HdsA, HasA. clearbody vertex.
  destruct (same_cached _ _ _ HdsA HdsB) as [Hd1 Hd2].
  destruct (same_cached _ _ _ HasA HasB) as [Ha1 Ha2].
  auto.
Qed.

(** ** Objects made by [createObject] *)

(** X4. [createObject] cannot fail: whatever the options, it returns an object
    of the given peer whose ACL is the one built with no admin and open to
    every writer, whose DRP is the one given, and whose identifier is the
    one given or else the SHA-256 of the peer identifier followed by the
    number drawn. The object is ready for use: its graph holds the root
    alone, its vertices list is the list of the graph, both caches hold a
    state at the root, the ACL reconstructed at the frontier is the ACL
    of the object provided the ACL built holds [null] in no attribute (a
    [null] would be stored as [undefined] in the root snapshot), and with
    a DRP the object stands on a single head, from where no local call
    throws. *)
Theorem createObject_returns_ready_object `{Platform}
    (options : CreateOptions) (random : string) :
  exists o,
    createObject options random = Ok o
    /\ acl o = newObjectACL (mkACLOptions [] true)
    /\ drp o = c_drp options
    /\ peerId o = c_peerId options
    /\ objectId o
       = default (SHA256.sha256_hex (c_peerId options +:+ random)) (c_id options)
    /\ HashGraph.getAllVertices (hashGraph o) = [rootVertex]
    /\ mirrors o
    /\ caches_cover o
    /\ (noNull (acl o) -> preImage o DrpType.ACL = Ok (acl o))
    /\ (is_Some (c_drp options) -> single_head o).
Proof.
  destruct (createObject options random) as [o|e] eqn:Hcreate.
  2: { unfold createObject, constructor in Hcreate. discriminate. }
  exists o. split; [reflexivity|].
  unfold createObject in Hcreate.
  pose proof (constructor_cover _ _ _ Hcreate) as Hcover.
  pose proof (constructor_single_head _ _ _ Hcreate) as Hsingle.
  pose proof (constructor_Ok _ _ _ Hcreate) as (objAcl & Ho & HobjAcl).
  cbn [o_acl o_drp o_peerId o_id] in *. subst objAcl.
  assert (Hpre : noNull (acl o) -> preImage o DrpType.ACL = Ok (acl o)).
  { rewrite Ho. intros Hnone. unfold preImage. cbn [hashGraph acl].
    rewrite getFrontier_create. cbn [v_hash rootVertex].
    change (String.eqb DrpType.ACL DrpType.ACL) with true. cbv iota.
    rewrite (_computeObjectACL_single _ rootHash
               (rootState (newObjectACL (mkACLOptions [] true))))
      by (cbn; apply lookup_singleton_eq).
    cbn [originalObjectACL]. now rewrite assignState_rootState. }
  clear Hcreate.
  rewrite Ho in *. cbn [o_drp] in Hsingle.
  do 6 (split; [reflexivity|]).
  split; [exact Hcover|]. split; [exact Hpre | exact Hsingle].
Qed.

(** ** The two kinds of operation do not mix *)

Section Kinds.
Context `{Platform}.




End Kinds.


(** ** More runs on the small platform *)

Section MoreRuns.
#[local] Existing Instance Demo.platform.

(** A snapshot with a [null] attribute, cached at a vertex of the object
    with a counter: the count is read back, the [null] as [undefined]. *)
Lemma _computeDRP_reads_back_snapshot_witness :
  let obj := VObj [("count", VNum 1); ("note", VNull)] in
  let o :=
    set_drpStates (<["h" := _getDRPState obj]> (drpStates Demo.withDrp))
      Demo.withDrp in
  drpStates o !! "h" = Some (_getDRPState obj)
  /\ exists rebuilt,
       _computeDRP o ["h"] None None = Ok rebuilt
       /\ getProp rebuilt "count" = VNum 1
       /\ getProp rebuilt "note" = VUndefined.
Proof.
  intros obj o.
  assert (Hlive : drp o = Some (Demo.counter 0)) by reflexivity.
  assert (Horig : originalDRP o = Some (VObj [("count", VNum 0)])) by reflexivity.
  assert (Hstate : drpStates o !! "h" = Some (_getDRPState obj))
    by (vm_compute; reflexivity).
  split; [exact Hstate|].
  destruct (_computeDRP_reads_back_snapshot o (Demo.counter 0) [("count", VNum 0)]
              "h" obj Hlive Horig Hstate)
    as (rebuilt & Hrun & Hin & _).
  exists rebuilt. split; [exact Hrun|]. split.
  - apply (Hin "count"). now left.
  - apply (Hin "note"). right. now left.
Defined.

(** The error of [fail()] comes wrapped. *)
Lemma _applyOperation_throws_own_errors_witness :
  let operation := mkOperation DrpType.DRP "fail" (VArr []) in
  let e := ApplyingOperation "fail" (Thrown (VStr "boom")) in
  _applyOperation (Demo.counter 0) operation = Err e
  /\ ((e = InvalidOperationType (opType operation)
       /\ (2 <= length (split_dots (opType operation)))%nat)
      \/ e = NotAFunction (opType operation)
      \/ exists cause, e = ApplyingOperation (opType operation) cause).
Proof.
  intros operation e.
  assert (Hrun : _applyOperation (Demo.counter 0) operation = Err e) by reflexivity.
  split; [exact Hrun|].
  exact (_applyOperation_throws_own_errors (Demo.counter 0) operation e Hrun).
Defined.

(** The object with a counter reconstructs the counter at 0. *)
Lemma constructor_reconstructs_given_state_witness :
  let options :=
    mkOptions "p1" (Some Demo.credential) None (Some (Demo.counter 0))
      (Some "object-1") in
  constructor options "0" = Ok Demo.withDrp
  /\ preImage Demo.withDrp DrpType.DRP = Ok (Demo.counter 0).
Proof.
  intros options.
  assert (Hctor : constructor options "0" = Ok Demo.withDrp) by reflexivity.
  split; [exact Hctor|].
  destruct (constructor_reconstructs_given_state options "0" Demo.withDrp Hctor)
    as (_ & _ & (_ & pre & Hpre & _ & _ & Hsame) & _).
  rewrite Hpre. f_equal. apply Hsame.
  intros key. unfold Demo.counter. cbn [getProp getOwn].
  destruct (String.eqb "count" key); cbn; discriminate.
Defined.

(** [increment(1)] returns 1 and its vertex is the one notified. *)
Lemma callFn_returning_with_vertex_witness :
  let w := Demo.world Demo.withDrp [7%nat] in
  let run := callFn "increment" (VArr [VNum 1]) DrpType.DRP w in
  let vertex :=
    localVertex (this w) "increment" (VArr [VNum 1]) DrpType.DRP
      (Date_now (ticks w)) in
  run = (Ok (VNum 1), snd run)
  /\ delivered (snd run)
     = delivered w
       ++ map (fun cb => mkNotification cb "callFn" [vertex]) (subscriptions (this w))
  /\ vertices (this (snd run)) = vertices (this w) ++ [vertex].
Proof.
  intros w run vertex.
  assert (Hpre : preImage (this w) DrpType.DRP = Ok (Demo.counter 0))
    by (vm_compute; reflexivity).
  assert (Happly : _applyOperation (cloneDeep (Demo.counter 0))
                     (mkOperation DrpType.DRP "increment" (VArr [VNum 1]))
                   = Ok (VNum 1, Demo.counter 1))
    by (vm_compute; reflexivity).
  assert (Hchanged : stateChanged (Demo.counter 0) (Demo.counter 1) = true)
    by (vm_compute; reflexivity).
  assert (Hrun : run = (Ok (VNum 1), snd run)) by (vm_compute; reflexivity).
  split; [exact Hrun|].
  destruct (callFn_returning_with_vertex "increment" (VArr [VNum 1]) DrpType.DRP w
              (Demo.counter 0) (VNum 1) (Demo.counter 1) (VNum 1) (snd run)
              Hpre Happly Hchanged Hrun)
    as (_ & _ & _ & Hdel & Hvs & _).
  split; [exact Hdel | exact Hvs].
Defined.

(** Without a DRP the grant of a writer throws, its vertex in the graph. *)
Lemma callFn_without_drp_throws_witness :
  let w := Demo.world Demo.aclOnly [7%nat] in
  let args := VArr [VStr "p9"] in
  let pre := Demo.objectACL (mkACLOptions [("p1", Demo.credential)] true) in
  let post := setProp pre "writers" args in
  drp (this w) = None
  /\ stateChanged pre post = true
  /\ exists w',
       callFn "grant" args DrpType.ACL w = (Err DRPUndefined, w')
       /\ acl (this w') = acl (this w)
       /\ delivered w' = delivered w.
Proof.
  intros w args pre post.
  assert (Hnone : drp (this w) = None) by reflexivity.
  assert (Hpre : preImage (this w) DrpType.ACL = Ok pre) by (vm_compute; reflexivity).
  assert (Happly : _applyOperation (cloneDeep pre)
                     (mkOperation DrpType.ACL "grant" args) = Ok (VUndefined, post))
    by (vm_compute; reflexivity).
  assert (Hchanged : stateChanged pre post = true) by (vm_compute; reflexivity).
  split; [exact Hnone|]. split; [exact Hchanged|].
  destruct (callFn_without_drp_throws "grant" args w pre VUndefined post
              Hnone Hpre Happly Hchanged)
    as (_ & w' & Hrun & _ & _ & _ & Hacl & _ & _ & Hdel & _).
  exists w'. split; [exact Hrun|]. split; [exact Hacl | exact Hdel].
Defined.

(** The child listed before its parent is the one reported. *)
Lemma merge_reports_only_new_batch_vertices_witness :
  let w := Demo.world Demo.withDrp [7%nat] in
  let batch := [Demo.child; Demo.parent] in
  let w' := snd (merge batch w) in
  merge batch w = (Ok (false, [v_hash Demo.child]), w')
  /\ exists vertex,
       In vertex batch /\ v_hash vertex = v_hash Demo.child
       /\ is_Some (v_operation vertex)
       /\ HashGraph.has (hashGraph (this w)) (v_hash Demo.child) = false.
Proof.
  intros w batch w'.
  assert (Hrun : merge batch w = (Ok (false, [v_hash Demo.child]), w'))
    by (vm_compute; reflexivity).
  split; [exact Hrun|].
  destruct (merge_reports_only_new_batch_vertices batch w false
              [v_hash Demo.child] w' Hrun) as [Hall _].
  apply Hall. now left.
Defined.


(** After the merge of two increments the live counter keeps its shape. *)
Lemma merge_writes_back_frontier_state_witness :
  let w := Demo.world Demo.withDrp [7%nat] in
  let batch := [Demo.parent; Demo.child] in
  let w' := snd (merge batch w) in
  merge batch w = (Ok (true, []), w')
  /\ exists live',
       drp (this w') = Some live' /\ keys live' = keys (Demo.counter 0).
Proof.
  intros w batch w'.
  assert (Hlive : drp (this w) = Some (Demo.counter 0)) by reflexivity.
  assert (Hrun : merge batch w = (Ok (true, []), w')) by (vm_compute; reflexivity).
  split; [exact Hrun|].
  destruct (merge_writes_back_frontier_state batch w (Demo.counter 0) (true, []) w'
              Hlive Hrun)
    as (rebuiltACL & rebuiltDRP & live' & _ & _ & Hlive' & Hkeys & _).
  exists live'. split; [exact Hlive' | exact Hkeys].
Defined.

(** No finality state is lost in a merge on the object with a counter. *)
Lemma merge_initialises_finality_witness :
  let w := Demo.world Demo.withDrp [7%nat] in
  let batch := [Demo.parent; Demo.child] in
  is_Some (drp (this w))
  /\ forall h s,
       finalityStore (this w) !! h = Some s ->
       finalityStore (this (snd (merge batch w))) !! h = Some s.
Proof.
  intros w batch.
  assert (Hdrp : is_Some (drp (this w))) by (eexists; reflexivity).
  split; [exact Hdrp|].
  exact (proj2 (merge_initialises_finality batch w Hdrp)).
Defined.

(** The replica without subscribers admits the vertex of [increment(1)]
    created by the replica with one, and caches what that replica
    caches. *)
Lemma replicas_agree_on_single_parent_witness :
  let wA := Demo.world Demo.withDrp [7%nat] in
  let wB := Demo.world Demo.withDrp [] in
  let vertex :=
    localVertex (this wA) "increment" (VArr [VNum 1]) DrpType.DRP
      (Date_now (ticks wA)) in
  let wA' := snd (callFn "increment" (VArr [VNum 1]) DrpType.DRP wA) in
  let wB' := snd (admitWithDrp vertex wB) in
  admitWithDrp vertex wB = (Ok tt, wB')
  /\ drpStates (this wB') !! v_hash vertex = drpStates (this wA') !! v_hash vertex
  /\ aclStates (this wB') !! v_hash vertex = aclStates (this wA') !! v_hash vertex.
Proof.
  intros wA wB vertex wA' wB'.
  assert (HrunA : callFn "increment" (VArr [VNum 1]) DrpType.DRP wA
                  = (Ok (VNum 1), wA')) by (vm_compute; reflexivity).
  assert (HrunB : admitWithDrp vertex wB = (Ok tt, wB')) by (vm_compute; reflexivity).
  assert (Hfresh : HashGraph.has (hashGraph (this wA)) (v_hash vertex) = false)
    by (vm_compute; reflexivity).
  assert (Hafter : HashGraph.has (hashGraph (this wA')) (v_hash vertex) = true)
    by (vm_compute; reflexivity).
  assert (Hfront : HashGraph.getFrontier (hashGraph (this wA)) = [rootHash])
    by reflexivity.
  assert (Hd : drpStates (this wA) !! rootHash = Some [("count", VNum 0)])
    by (vm_compute; reflexivity).
  assert (Ha : aclStates (this wA) !! rootHash
               = Some (rootState (acl (this wA)))) by (vm_compute; reflexivity).
  split; [exact HrunB|].
  destruct (replicas_agree_on_single_parent "increment" (VArr [VNum 1]) DrpType.DRP
              wA wA' wB wB' (VNum 1) rootHash (Demo.counter 0) (Demo.counter 0)
              (Demo.counter 0) [("count", VNum 0)] (rootState (acl (this wA)))
              (or_introl eq_refl) Hfront eq_refl eq_refl eq_refl eq_refl eq_refl
              Hd Hd Ha Ha Hfresh HrunA Hafter HrunB)
    as (_ & _ & Hdrp & Hacl).
  split; [exact Hdrp | exact Hacl].
Defined.

End MoreRuns.
